(** * ESI Resolver content script: a shallow embedding of [js/content.js]

    The content script of the extension scans the page for ESI directives,
    fetches the fragments they name and splices the result into the page.
    This file embeds class [ESIProcessor] of [js/content.js]:

    - JavaScript strings are [string]; the two regular expressions of the
      script are written out as backtracking matchers;
    - the page is a heap of DOM nodes addressed by node identity, each node
      carrying its [parentNode] and [childNodes], so that a node kept in a
      snapshot list can be detached by a later replacement, as in the browser;
    - the methods of the class run in a state-and-exception monad over the
      processor instance, the page, the extension storage and the pending
      timers; an [await] that can reject is a computation that can throw;
    - what the browser supplies (the page location, the URL parser, the
      network, the HTML parser and serialiser) is a record [Browser] that
      every method takes as its first argument.

    Execution is sequential: nothing else touches the page or the processor
    while a fetch is pending. *)

From Stdlib Require Import Ascii String ZArith.
From stdpp Require Import gmap strings list pretty sorting.

Local Open Scope string_scope.
Local Open Scope list_scope.
Local Open Scope stdpp_scope.
Local Open Scope nat_scope.

(** ** JavaScript string primitives *)

Module JS.

(** [s.includes(needle)] *)
Fixpoint includes (s needle : string) : bool :=
  String.prefix needle s ||
  match s with
  | EmptyString => false
  | String _ s' => includes s' needle
  end.

(** [s.startsWith(p)] *)
Definition startsWith (s p : string) : bool := String.prefix p s.

Fixpoint lastIndexOf_from (i : nat) (c : ascii) (s : string) (last : Z) : Z :=
  match s with
  | EmptyString => last
  | String a s' =>
      lastIndexOf_from (S i) c s' (if decide (a = c) then Z.of_nat i else last)
  end.

(** [s.lastIndexOf(c)], [-1] when [c] does not occur *)
Definition lastIndexOf (s : string) (c : ascii) : Z :=
  lastIndexOf_from 0 c s (-1)%Z.

(** [s.substring(0, e)]; a negative [e] counts as [0] *)
Definition substring0 (s : string) (e : Z) : string :=
  String.substring 0 (Z.to_nat e) s.

Fixpoint drop (n : nat) (s : string) : string :=
  match n, s with
  | S n', String _ s' => drop n' s'
  | _, _ => s
  end.

Definition lower_ascii (a : ascii) : ascii :=
  let n := nat_of_ascii a in
  if ((65 <=? n) && (n <=? 90))%nat then ascii_of_nat (n + 32) else a.

Definition upper_ascii (a : ascii) : ascii :=
  let n := nat_of_ascii a in
  if ((97 <=? n) && (n <=? 122))%nat then ascii_of_nat (n - 32) else a.

Fixpoint map_string (f : ascii → ascii) (s : string) : string :=
  match s with
  | EmptyString => EmptyString
  | String a s' => String (f a) (map_string f s')
  end.

Definition toLowerCase : string → string := map_string lower_ascii.
Definition toUpperCase : string → string := map_string upper_ascii.

(** JavaScript truthiness of a string: the empty string is falsy. *)
Definition truthy (s : string) : bool := negb (String.eqb s EmptyString).

End JS.

(** ** The two regular expressions of [processESIComment]

    A JavaScript regular expression matches by backtracking: a greedy
    quantifier first takes as much as it can and gives characters back until
    the rest of the pattern matches, and [String.prototype.match] returns the
    leftmost position at which the pattern matches at all.  The matchers below
    are written in continuation-passing style, the continuation being the rest
    of the pattern. *)

Module RegExp.

Section Matcher.
Context {R : Type}.

(** greedy star of a character class [c] *)
Fixpoint star (c : ascii → bool) (k : string → option R) (s : string) : option R :=
  match s with
  | String a s' =>
      if c a then
        match star c k s' with
        | Some r => Some r
        | None => k s
        end
      else k s
  | EmptyString => k s
  end.

(** plus of a character class: one, then star *)
Definition plus (c : ascii → bool) (k : string → option R) (s : string) : option R :=
  match s with
  | String a s' => if c a then star c k s' else None
  | EmptyString => None
  end.

(** a capturing group around a greedy star; the text taken so far is [acc],
    in reverse *)
Fixpoint star_group (c : ascii → bool) (acc : string)
    (k : string → string → option R) (s : string) : option R :=
  match s with
  | String a s' =>
      if c a then
        match star_group c (String a acc) k s' with
        | Some r => Some r
        | None => k (String.rev acc) s
        end
      else k (String.rev acc) s
  | EmptyString => k (String.rev acc) s
  end.

(** a capturing group around a plus *)
Definition plus_group (c : ascii → bool)
    (k : string → string → option R) (s : string) : option R :=
  match s with
  | String a s' => if c a then star_group c (String a EmptyString) k s' else None
  | EmptyString => None
  end.

(** a literal *)
Definition lit (l : string) (k : string → option R) (s : string) : option R :=
  if String.prefix l s then k (JS.drop (String.length l) s) else None.

(** one character of a class *)
Definition class (c : ascii → bool) (k : string → option R) (s : string) : option R :=
  match s with
  | String a s' => if c a then k s' else None
  | EmptyString => None
  end.

(** the leftmost position at which [m] matches *)
Fixpoint search (m : string → option R) (s : string) : option R :=
  match m s with
  | Some r => Some r
  | None =>
      match s with
      | String _ s' => search m s'
      | EmptyString => None
      end
  end.
End Matcher.

(** the character U+0022 *)
Definition double_quote : ascii := ascii_of_nat 34.

Definition quote (a : ascii) : bool :=
  bool_decide (a = double_quote) || bool_decide (a = "'"%char).
Definition not_quote (a : ascii) : bool := negb (quote a).
Definition not_gt (a : ascii) : bool := negb (bool_decide (a = ">"%char)).

(** The pattern of the try-block branch: the literal [<esi:include], one or
    more characters other than [>], the literal [src=], a quote (double or
    single), group 1 of one or more characters that are not quotes, a quote,
    any characters other than [>], and [>].  The result is group 1. *)
Definition include_src_at : string → option string :=
  lit "<esi:include"
    (plus not_gt
      (lit "src="
        (class quote
          (plus_group not_quote
            (λ src, class quote
              (star not_gt
                (lit ">" (λ _, Some src)))))))).

Definition match_include_src (comment : string) : option string :=
  search include_src_at comment.

(** The pattern of the simple-include branch: the literal [src=], a quote,
    group 1 of one or more characters that are not quotes, a quote.  The
    result is group 1. *)
Definition src_at : string → option string :=
  lit "src="
    (class quote
      (plus_group not_quote
        (λ src, class quote (λ _, Some src)))).

Definition match_src (comment : string) : option string :=
  search src_at comment.

End RegExp.

(** ** The page: a heap of DOM nodes

    A node is addressed by its identity, a number.  The document node has
    identity [documentNode]; a node that was removed from its parent stays in
    the heap with [parentNode = None], together with its own subtree. *)

Abbreviation NodeId := nat.

Inductive NodeType := ELEMENT_NODE | TEXT_NODE | COMMENT_NODE | DOCUMENT_NODE.

Global Instance NodeType_eq_dec : EqDecision NodeType.
Proof. solve_decision. Defined.

Record Node := mkNode {
  nodeType : NodeType;
  localName : string;                    (* the name of an element *)
  nodeValue : string;                    (* the data of a comment or text *)
  attributes : list (string * string);
  parentNode : option NodeId;
  childNodes : list NodeId
}.

Record Document := mkDocument {
  nodes : gmap nat Node;
  nextNode : NodeId                      (* the identity of the next node created *)
}.

(** Markup as a parser hands it over, before its nodes exist in the page. *)
#[warnings="-register-all"]
Inductive Markup :=
| MElement (name : string) (attrs : list (string * string)) (children : list Markup)
| MComment (data : string)
| MText (data : string).

Module DOM.

Definition documentNode : NodeId := 0.

Definition parentOf (d : Document) (n : NodeId) : option NodeId :=
  nodes d !! n ≫= parentNode.

Definition childrenOf (d : Document) (n : NodeId) : list NodeId :=
  from_option childNodes [] (nodes d !! n).

Definition typeOf (d : Document) (n : NodeId) : option NodeType :=
  nodeType <$> nodes d !! n.

Definition valueOf (d : Document) (n : NodeId) : string :=
  from_option nodeValue EmptyString (nodes d !! n).

Definition isElement (d : Document) (n : NodeId) : bool :=
  bool_decide (typeOf d n = Some ELEMENT_NODE).

Definition isComment (d : Document) (n : NodeId) : bool :=
  bool_decide (typeOf d n = Some COMMENT_NODE).

Definition with_parent (p : option NodeId) (x : Node) : Node :=
  mkNode (nodeType x) (localName x) (nodeValue x) (attributes x) p (childNodes x).

Definition with_children (cs : list NodeId) (x : Node) : Node :=
  mkNode (nodeType x) (localName x) (nodeValue x) (attributes x) (parentNode x) cs.

Definition with_attributes (a : list (string * string)) (x : Node) : Node :=
  mkNode (nodeType x) (localName x) (nodeValue x) a (parentNode x) (childNodes x).

Definition update (f : Node → Node) (n : NodeId) (d : Document) : Document :=
  mkDocument (alter f n (nodes d)) (nextNode d).

Definition set_parent (n : NodeId) (p : option NodeId) : Document → Document :=
  update (with_parent p) n.

Definition set_children (n : NodeId) (cs : list NodeId) : Document → Document :=
  update (with_children cs) n.

(** The position of [n] in a list of children. *)
Fixpoint index_of (n : NodeId) (l : list NodeId) : option nat :=
  match l with
  | [] => None
  | x :: l' => if decide (x = n) then Some 0 else S <$> index_of n l'
  end.

Definition without (n : NodeId) (l : list NodeId) : list NodeId :=
  filter (λ x, x ≠ n) l.

Definition substitute (old new : NodeId) (l : list NodeId) : list NodeId :=
  (λ x, if decide (x = old) then new else x) <$> l.

(** "remove a node": take [n] out of its parent's children. *)
Definition remove (n : NodeId) (d : Document) : Document :=
  match parentOf d n with
  | None => d
  | Some p => set_parent n None (set_children p (without n (childrenOf d p)) d)
  end.

(** [parent.replaceChild(newChild, oldChild)] *)
Definition replaceChild (parent newChild oldChild : NodeId) (d : Document) : Document :=
  let d1 := remove newChild d in
  let d2 := set_children parent (substitute oldChild newChild (childrenOf d1 parent)) d1 in
  set_parent newChild (Some parent) (set_parent oldChild None d2).

(** [parent.appendChild(child)] *)
Definition appendChild (parent child : NodeId) (d : Document) : Document :=
  let d1 := remove child d in
  set_parent child (Some parent)
    (set_children parent (childrenOf d1 parent ++ [child]) d1).

(** A new node, not yet in any tree. *)
Definition create (x : Node) (d : Document) : NodeId * Document :=
  (nextNode d, mkDocument (<[nextNode d := x]> (nodes d)) (S (nextNode d))).

Definition createElement (name : string) : Document → NodeId * Document :=
  create (mkNode ELEMENT_NODE (JS.toLowerCase name) EmptyString [] None []).

Definition createComment (data : string) : Document → NodeId * Document :=
  create (mkNode COMMENT_NODE EmptyString data [] None []).

Definition createTextNode (data : string) : Document → NodeId * Document :=
  create (mkNode TEXT_NODE EmptyString data [] None []).

Fixpoint assoc_set (name value : string) (l : list (string * string))
    : list (string * string) :=
  match l with
  | [] => [(name, value)]
  | (k, v) :: l' =>
      if decide (k = name) then (k, value) :: l' else (k, v) :: assoc_set name value l'
  end.

Fixpoint assoc_get (name : string) (l : list (string * string)) : option string :=
  match l with
  | [] => None
  | (k, v) :: l' => if decide (k = name) then Some v else assoc_get name l'
  end.

(** [element.setAttribute(name, value)] *)
Definition setAttribute (n : NodeId) (name value : string) : Document → Document :=
  update (λ x, with_attributes (assoc_set name value (attributes x)) x) n.

(** [element.getAttribute(name)], [None] for [null] *)
Definition getAttribute (d : Document) (n : NodeId) (name : string) : option string :=
  nodes d !! n ≫= λ x, assoc_get name (attributes x).

(** The nodes of the tree rooted at [n], in tree order.  The depth of a
    tree is at most the number of nodes of the heap, which is the fuel. *)
Fixpoint subtree (fuel : nat) (d : Document) (n : NodeId) : list NodeId :=
  match fuel with
  | 0 => []
  | S f => n :: (childrenOf d n ≫= subtree f d)
  end.

Definition treeOrder (d : Document) (n : NodeId) : list NodeId :=
  subtree (size (nodes d)) d n.

Definition descendants (d : Document) (n : NodeId) : list NodeId :=
  tail (treeOrder d n).

Fixpoint ancestors_fuel (fuel : nat) (d : Document) (n : NodeId) : list NodeId :=
  match fuel with
  | 0 => []
  | S f =>
      match parentOf d n with
      | Some p => p :: ancestors_fuel f d p
      | None => []
      end
  end.

Definition ancestors (d : Document) (n : NodeId) : list NodeId :=
  ancestors_fuel (size (nodes d)) d n.

Definition inclusiveAncestors (d : Document) (n : NodeId) : list NodeId :=
  n :: ancestors d n.

(** The root of the tree that holds [n]. *)
Definition rootOf (d : Document) (n : NodeId) : NodeId :=
  List.last (inclusiveAncestors d n) n.

(** [document.documentElement] *)
Definition documentElement (d : Document) : option NodeId :=
  snd <$> list_find (λ n, isElement d n = true) (childrenOf d documentNode).

(** [node.parentElement] *)
Definition parentElement (d : Document) (n : NodeId) : option NodeId :=
  match parentOf d n with
  | Some p => if isElement d p then Some p else None
  | None => None
  end.

(** [element.tagName]: in an HTML document, the element's name in upper
    case. *)
Definition tagName (d : Document) (n : NodeId) : string :=
  JS.toUpperCase (from_option localName EmptyString (nodes d !! n)).

(** A type selector of a selector list matches an element of an HTML
    document when the element's name is the selector's name in lower
    case. *)
Definition matches (d : Document) (selectors : list string) (n : NodeId) : bool :=
  match nodes d !! n with
  | Some x =>
      bool_decide (nodeType x = ELEMENT_NODE) &&
      bool_decide (localName x ∈ JS.toLowerCase <$> selectors)
  | None => false
  end.

(** [root.querySelectorAll(selectors)]: the matching descendants of [root]
    in tree order. *)
Definition querySelectorAll (d : Document) (root : NodeId) (selectors : list string)
    : list NodeId :=
  filter (λ n, matches d selectors n = true) (descendants d root).

(** [root.querySelector(selectors)] *)
Definition querySelector (d : Document) (root : NodeId) (selectors : list string)
    : option NodeId :=
  head (querySelectorAll d root selectors).

(** [document.getElementById(id)] *)
Definition getElementById (d : Document) (id : string) : option NodeId :=
  head (filter (λ n, isElement d n && bool_decide (getAttribute d n "id" = Some id) = true)
          (descendants d documentNode)).

(** *** TreeWalker over comments

    [createTreeWalker(root, SHOW_COMMENT)]: [nextNode()] yields the comment
    nodes that follow the current node in tree order.  The walk stops at
    [root] when the current node lies below it and at the top of the
    current node's own tree otherwise. *)
Fixpoint after (n : NodeId) (l : list NodeId) : list NodeId :=
  match l with
  | [] => []
  | x :: l' => if decide (x = n) then l' else after n l'
  end.

Fixpoint before (n : NodeId) (l : list NodeId) : list NodeId :=
  match l with
  | [] => []
  | x :: l' => if decide (x = n) then [] else x :: before n l'
  end.

Definition walkScope (d : Document) (root current : NodeId) : NodeId :=
  if decide (root ∈ inclusiveAncestors d current) then root else rootOf d current.

Definition commentsAfter (d : Document) (root current : NodeId) : list NodeId :=
  filter (λ n, isComment d n = true)
    (after current (treeOrder d (walkScope d root current))).

(** *** Range

    A boundary point is a container and an offset among its children. *)
Definition Boundary : Type := NodeId * nat.

(** [range.setStartBefore(n)], for a node that has a parent *)
Definition boundaryBefore (d : Document) (n : NodeId) : option Boundary :=
  p ← parentOf d n; i ← index_of n (childrenOf d p); Some (p, i).

(** [range.setEndAfter(n)], for a node that has a parent *)
Definition boundaryAfter (d : Document) (n : NodeId) : option Boundary :=
  p ← parentOf d n; i ← index_of n (childrenOf d p); Some (p, S i).

Definition followingSiblings (d : Document) (n : NodeId) : list NodeId :=
  match parentOf d n with
  | Some p => after n (childrenOf d p)
  | None => []
  end.

Definition precedingSiblings (d : Document) (n : NodeId) : list NodeId :=
  match parentOf d n with
  | Some p => before n (childrenOf d p)
  | None => []
  end.

(** All but the last element. *)
Definition init {A} (l : list A) : list A := take (length l - 1) l.

(** [range.deleteContents()] for boundary points on nodes with children.
    The nodes removed are the nodes contained in the range whose parent is
    not contained: below the common ancestor [a] of the two containers, on
    the side of the start, the children of the start container from the
    start offset on and the following siblings of each of its ancestors
    below [a]; on the side of the end, the children of the end container
    before the end offset and the preceding siblings of each of its
    ancestors below [a]; and the children of [a] in between.  An ancestor of
    only one of the two containers is partially contained and stays.  The
    result is the page and the point to which the range has collapsed. *)
Definition deleteContents (d : Document) (s e : Boundary) : Document * Boundary :=
  let chainS := inclusiveAncestors d s.1 in
  let chainE := inclusiveAncestors d e.1 in
  match list_find (λ x, x ∈ chainE) chainS with
  | None => (d, s)
  | Some (_, a) =>
      let spineS := before a chainS in
      let spineE := before a chainE in
      let removeS :=
        if decide (s.1 = a) then []
        else drop s.2 (childrenOf d s.1) ++ (init spineS ≫= followingSiblings d) in
      let removeE :=
        if decide (e.1 = a) then []
        else take e.2 (childrenOf d e.1) ++ (init spineE ≫= precedingSiblings d) in
      let lo :=
        if decide (s.1 = a) then s.2
        else from_option S 0
               (last spineS ≫= λ x, index_of x (childrenOf d a)) in
      let hi :=
        if decide (e.1 = a) then e.2
        else default 0 (last spineE ≫= λ x, index_of x (childrenOf d a)) in
      let middle := take (hi - lo) (drop lo (childrenOf d a)) in
      (foldr remove d (removeS ++ middle ++ removeE), (a, lo))
  end.

(** [range.insertNode(n)] for a collapsed range at [b]; [None] when the
    insertion raises [HierarchyRequestError]: the container is not an
    element or a document, the node is an ancestor of the container, or the
    container is a document that already has an element child. *)
Definition insertNode (d : Document) (b : Boundary) (n : NodeId) : option Document :=
  let allowed :=
    match typeOf d b.1 with
    | Some ELEMENT_NODE => true
    | Some DOCUMENT_NODE => negb (existsb (isElement d) (childrenOf d b.1))
    | _ => false
    end in
  if allowed && negb (bool_decide (n ∈ inclusiveAncestors d b.1)) then
    let d1 := remove n d in
    let cs := childrenOf d1 b.1 in
    Some (set_parent n (Some b.1)
            (set_children b.1 (take b.2 cs ++ n :: drop b.2 cs) d1))
  else None.

(** *** Building the nodes of parsed markup *)

Fixpoint build (parent : option NodeId) (m : Markup) (d : Document) : NodeId * Document :=
  match m with
  | MText data => create (mkNode TEXT_NODE EmptyString data [] parent []) d
  | MComment data => create (mkNode COMMENT_NODE EmptyString data [] parent []) d
  | MElement name attrs children =>
      let '(n, d1) := create (mkNode ELEMENT_NODE name EmptyString attrs parent []) d in
      let '(cs, d2) :=
        (fix build_all (ms : list Markup) (d : Document) : list NodeId * Document :=
           match ms with
           | [] => ([], d)
           | m :: ms' =>
               let '(c, d') := build (Some n) m d in
               let '(cs, d'') := build_all ms' d' in
               (c :: cs, d'')
           end) children d1 in
      (n, set_children n cs d2)
  end.

Fixpoint build_all (parent : NodeId) (ms : list Markup) (d : Document)
    : list NodeId * Document :=
  match ms with
  | [] => ([], d)
  | m :: ms' =>
      let '(c, d') := build (Some parent) m d in
      let '(cs, d'') := build_all parent ms' d' in
      (c :: cs, d'')
  end.

(** [element.innerHTML = ...] once the markup is parsed: the former
    children are removed and the parsed nodes become the children. *)
Definition replaceChildren (n : NodeId) (ms : list Markup) (d : Document) : Document :=
  let d1 := foldr remove d (childrenOf d n) in
  let '(cs, d2) := build_all n ms d1 in
  set_children n cs d2.

End DOM.

(** ** What the browser supplies *)

(** The completion of a JavaScript computation: a value, or a thrown error
    (a rejected promise, when the computation is awaited), of which only the
    [message] is kept. *)
Inductive Completion (A : Type) :=
| Normal (a : A)
| Throw (message : string).
Arguments Normal {A} a.
Arguments Throw {A} message.

Record Response := mkResponse {
  status : nat;
  statusText : string;
  text : Completion string               (* what [await response.text()] gives *)
}.

(** [response.ok] *)
Definition ok (r : Response) : bool := (200 <=? status r)%nat && (status r <=? 299)%nat.

Record Request := mkRequest {
  r_url : string;
  r_method : string;
  r_headers : gmap string string;
  r_credentials : string
}.

Record Browser := mkBrowser {
  location_href : string;                (* [window.location.href] *)
  location_protocol : string;            (* [window.location.protocol] *)
  location_origin : string;              (* [window.location.origin] *)
  (** [new URL(url, base).href], [None] when the constructor throws *)
  URL : string → string → option string;
  (** [await fetch(url, options)] at a given time *)
  fetch : nat → Request → Completion Response;
  navigator_userAgent : string;
  navigator_language : string;
  (** the parser behind [element.innerHTML = markup] *)
  parseHTML : string → list Markup;
  (** [new DOMParser().parseFromString(markup, 'text/html')]: the document
      element of the inert document *)
  parseFromString : string → Markup;
  (** the serialiser behind the getter [element.innerHTML] *)
  serialize : list Markup → string;
  (** whether the external script at an address loads, at a given time *)
  script_loads : nat → string → bool
}.

(** ** The processor and its surroundings *)

Record Fragment := mkFragment {
  f_id : nat;
  f_url : string;
  f_resolvedUrl : string;
  f_success : bool;
  f_error : option string;
  f_timestamp : nat
}.

Record Stats := mkStats {
  total : nat;
  successful : nat;
  failed : nat;
  fragments : list Fragment
}.

Record Header := mkHeader { h_name : string; h_value : string }.

(** The fields of an [ESIProcessor] instance. *)
Record ESIProcessor := mkESIProcessor {
  enabled : bool;
  customHeaders : list Header;
  forwardHeaders : bool;
  forwardCookies : bool;
  executeScripts : bool;
  stats : Stats;
  fragmentCounter : nat;
  processedElements : gset nat
}.

(** A script taken out of fetched markup: what [executeScript] reads of it. *)
Record Script := mkScript {
  s_attributes : list (string * string);
  s_src : string;                        (* [scriptElement.src], empty when absent *)
  s_textContent : string
}.

(** The closure of the timer that [extractAndExecuteScripts] sets. *)
Record Timer := mkTimer { t_scripts : list Script; t_container : NodeId }.

(** [browser.storage.local], a key being absent or present. *)
Record Storage := mkStorage {
  st_esiEnabled : option bool;
  st_customHeaders : option (list Header);
  st_forwardHeaders : option bool;
  st_forwardCookies : option bool;
  st_executeScripts : option bool;
  st_esiStats : option Stats             (* under the key of this page *)
}.

Record State := mkState {
  this : ESIProcessor;
  document : Document;
  storage : Storage;
  clock : nat;                           (* [Date.now()] *)
  timers : list Timer
}.

(** ** The monad of the methods: state and exceptions *)

Definition M (A : Type) : Type := State → Completion A * State.

Definition ret {A} (a : A) : M A := λ s, (Normal a, s).

Definition bind {A B} (m : M A) (k : A → M B) : M B :=
  λ s, match m s with
       | (Normal a, s') => k a s'
       | (Throw e, s') => (Throw e, s')
       end.

Definition throw {A} (message : string) : M A := λ s, (Throw message, s).

(** [try { body } catch (error) { handler(error.message) }] *)
Definition try_catch {A} (body : M A) (handler : string → M A) : M A :=
  λ s, match body s with
       | (Normal a, s') => (Normal a, s')
       | (Throw e, s') => handler e s'
       end.

Definition gets {A} (f : State → A) : M A := λ s, (Normal (f s), s).
Definition modify (f : State → State) : M unit := λ s, (Normal tt, f s).

(** [await] of something that may reject *)
Definition await {A} (c : Completion A) : M A := λ s, (c, s).

Declare Scope esi_scope.
Delimit Scope esi_scope with esi.
Notation "x <- m ;; k" := (bind m (λ x, k))
  (at level 100, m at next level, right associativity) : esi_scope.
Notation "m ;; k" := (bind m (λ _, k))
  (at level 100, right associativity) : esi_scope.
Local Open Scope esi_scope.

(** [for (const x of l) { body }]; a [continue] is a body that returns. *)
Fixpoint for_of {A} (l : list A) (body : A → M unit) : M unit :=
  match l with
  | [] => ret tt
  | x :: l' => body x ;; for_of l' body
  end.

Definition set_this (f : ESIProcessor → ESIProcessor) (s : State) : State :=
  mkState (f (this s)) (document s) (storage s) (clock s) (timers s).

Definition set_document (f : Document → Document) (s : State) : State :=
  mkState (this s) (f (document s)) (storage s) (clock s) (timers s).

Definition set_storage (f : Storage → Storage) (s : State) : State :=
  mkState (this s) (document s) (f (storage s)) (clock s) (timers s).

Definition set_stats (f : Stats → Stats) (p : ESIProcessor) : ESIProcessor :=
  mkESIProcessor (enabled p) (customHeaders p) (forwardHeaders p) (forwardCookies p)
    (executeScripts p) (f (stats p)) (fragmentCounter p) (processedElements p).

Definition set_fragmentCounter (f : nat → nat) (p : ESIProcessor) : ESIProcessor :=
  mkESIProcessor (enabled p) (customHeaders p) (forwardHeaders p) (forwardCookies p)
    (executeScripts p) (stats p) (f (fragmentCounter p)) (processedElements p).

Definition set_processedElements (f : gset nat → gset nat) (p : ESIProcessor)
    : ESIProcessor :=
  mkESIProcessor (enabled p) (customHeaders p) (forwardHeaders p) (forwardCookies p)
    (executeScripts p) (stats p) (fragmentCounter p) (f (processedElements p)).

(** A DOM operation that yields a value. *)
Definition dom {A} (f : Document → A * Document) : M A :=
  λ s, let '(a, d) := f (document s) in (Normal a, set_document (λ _, d) s).

(** A DOM operation for its effect. *)
Definition dom_ (f : Document → Document) : M unit := modify (set_document f).

(** [setTimeout] of the script callback *)
Definition setTimeout (t : Timer) : M unit :=
  modify (λ s, mkState (this s) (document s) (storage s) (clock s) (timers s ++ [t])).

(** [Date.now()] *)
Definition Date_now : M nat := gets clock.

(** Time passes while a promise is awaited. *)
Definition tick : M unit :=
  modify (λ s, mkState (this s) (document s) (storage s) (S (clock s)) (timers s)).

(** ** Scripts in fetched markup *)

Definition is_script (m : Markup) : bool :=
  match m with
  | MElement name _ _ => bool_decide (name = "script")
  | _ => false
  end.

(** [doc.querySelectorAll('script')]: the script elements below [m], in tree
    order. *)
Fixpoint scripts_below (m : Markup) : list Markup :=
  match m with
  | MElement _ _ children =>
      (fix go (ms : list Markup) : list Markup :=
         match ms with
         | [] => []
         | c :: ms' => (if is_script c then [c] else []) ++ scripts_below c ++ go ms'
         end) children
  | _ => []
  end.

(** [scripts.forEach(script => script.remove())] *)
Fixpoint remove_scripts (m : Markup) : Markup :=
  match m with
  | MElement name attrs children =>
      MElement name attrs
        ((fix go (ms : list Markup) : list Markup :=
            match ms with
            | [] => []
            | c :: ms' => if is_script c then go ms' else remove_scripts c :: go ms'
            end) children)
  | _ => m
  end.

Definition markup_children (m : Markup) : list Markup :=
  match m with
  | MElement _ _ children => children
  | _ => []
  end.

(** [doc.body]: the first child of the document element that is a [body] or
    a [frameset]. *)
Definition is_body (m : Markup) : bool :=
  match m with
  | MElement name _ _ => bool_decide (name = "body") || bool_decide (name = "frameset")
  | _ => false
  end.

Definition body_of (html : Markup) : option Markup :=
  snd <$> list_find (λ m, is_body m = true) (markup_children html).

(** [element.textContent] *)
Fixpoint textContent (m : Markup) : string :=
  match m with
  | MText data => data
  | MComment _ => EmptyString
  | MElement _ _ children =>
      (fix go (ms : list Markup) : string :=
         match ms with
         | [] => EmptyString
         | c :: ms' => textContent c +:+ go ms'
         end) children
  end.

Definition script_of (m : Markup) : Script :=
  match m with
  | MElement _ attrs _ =>
      mkScript attrs (default EmptyString (DOM.assoc_get "src" attrs)) (textContent m)
  | _ => mkScript [] EmptyString EmptyString
  end.

(** A name that [setAttribute] accepts: not empty, and free of white space,
    [/], [=], [>] and U+0000. *)
Fixpoint valid_name_chars (s : string) : bool :=
  match s with
  | EmptyString => true
  | String a s' =>
      negb (Ascii.is_space a) && negb (bool_decide (a = "/"%char)) &&
      negb (bool_decide (a = "="%char)) && negb (bool_decide (a = ">"%char)) &&
      negb (bool_decide (a = ascii_of_nat 0)) && valid_name_chars s'
  end.

Definition valid_attribute_name (s : string) : bool :=
  JS.truthy s && valid_name_chars s.

(** ** The methods of [ESIProcessor] *)

Section Methods.
Variable B : Browser.

(** The state a new instance starts in, before [init] has run. *)
Definition constructor : ESIProcessor :=
  mkESIProcessor true [] false false false (mkStats 0 0 0 []) 0 ∅.

Definition loadSettings : M unit :=
  result <- gets storage ;;
  modify (set_this (λ p,
    mkESIProcessor
      (negb (bool_decide (st_esiEnabled result = Some false)))
      (default [] (st_customHeaders result))
      (default false (st_forwardHeaders result))
      (default false (st_forwardCookies result))
      (default false (st_executeScripts result))
      (stats p) (fragmentCounter p) (processedElements p))).

Definition loadStats : M unit :=
  result <- gets storage ;;
  match st_esiStats result with
  | Some restored =>
      modify (set_this (set_stats (λ _, restored))) ;;
      modify (set_this (set_fragmentCounter (λ _,
        foldr Nat.max 0 (f_id <$> fragments restored))))
  | None => ret tt
  end.

Definition saveStats : M unit :=
  modify (λ s, set_storage (λ st,
    mkStorage (st_esiEnabled st) (st_customHeaders st) (st_forwardHeaders st)
      (st_forwardCookies st) (st_executeScripts st) (Some (stats (this s)))) s).

Definition clearStats : M unit :=
  modify (set_this (set_stats (λ _, mkStats 0 0 0 []))) ;;
  modify (set_this (set_fragmentCounter (λ _, 0))) ;;
  modify (set_this (set_processedElements (λ _, ∅))) ;;
  saveStats.

(** The highlight that [jumpToFragment] puts on the fragment; the timer that
    takes it off two seconds later is left out. *)
Definition jumpToFragment (fragmentId : nat) : M unit :=
  d <- gets document ;;
  match DOM.getElementById d ("esi-fragment-" +:+ pretty fragmentId) with
  | Some element =>
      dom_ (DOM.setAttribute element "style"
              "outline: 3px solid #ff6600; outline-offset: 2px;")
  | None => ret tt
  end.

Definition resolveUrl (url : string) : string :=
  if String.prefix "http://" url || String.prefix "https://" url then url
  else if JS.startsWith url "//" then location_protocol B +:+ url
  else
    match URL B url (location_href B) with
    | Some href => href
    | None =>
        if JS.startsWith url "/" then location_origin B +:+ url
        else
          let basePath :=
            JS.substring0 (location_href B)
              (JS.lastIndexOf (location_href B) "/"%char + 1) in
          basePath +:+ url
    end.

Definition mark_processed (n : NodeId) : M unit :=
  modify (set_this (set_processedElements (λ X, {[n]} ∪ X))).

Definition is_processed (n : NodeId) : M bool :=
  gets (λ s, bool_decide (n ∈ processedElements (this s))).

(** [executeScript]: an error raised while the new element is set up is
    caught; for an external script the method returns, from inside its [try],
    a promise that settles when the script has loaded or failed, so a failed
    load rejects the promise of [executeScript] itself. *)
Definition executeScript (scriptElement : Script) (container : NodeId) : M unit :=
  pending <-
    try_catch
      (newScript <- dom (DOM.createElement "script") ;;
       for_of (s_attributes scriptElement) (λ attr,
         if valid_attribute_name attr.1
         then dom_ (DOM.setAttribute newScript attr.1 attr.2)
         else throw "InvalidCharacterError") ;;
       if JS.truthy (s_src scriptElement) then
         dom_ (DOM.appendChild container newScript) ;;
         ret (Some (s_src scriptElement))
       else
         dom_ (DOM.replaceChildren newScript [MText (s_textContent scriptElement)]) ;;
         dom_ (DOM.appendChild container newScript) ;;
         ret None)
      (λ _, ret None) ;;
  match pending with
  | Some src =>
      now <- Date_now ;;
      tick ;;
      if script_loads B now src then ret tt else throw "undefined"
  | None => ret tt
  end.

(** The callback that [extractAndExecuteScripts] hands to [setTimeout]. *)
Definition run_scripts (t : Timer) : M unit :=
  for_of (t_scripts t) (λ script, executeScript script (t_container t)).

Definition extractAndExecuteScripts (content : string) (container : NodeId) : M string :=
  p <- gets this ;;
  if negb (executeScripts p) then ret content
  else
    let doc := parseFromString B content in
    let scripts := scripts_below doc in
    let contentWithoutScripts :=
      match body_of (remove_scripts doc) with
      | Some body => serialize B (markup_children body)
      | None => content
      end in
    setTimeout (mkTimer (script_of <$> scripts) container) ;;
    ret contentWithoutScripts.

(** One run of the range surgery of [replaceCommentTryBlock], inside its own
    [try]: the page afterwards, and whether the replacement went in. *)
Definition replace_range (d : Document) (startComment closing replacement : NodeId)
    : Document * bool :=
  match DOM.boundaryBefore d startComment, DOM.boundaryAfter d closing with
  | Some s, Some e =>
      let '(d1, b) := DOM.deleteContents d s e in
      match DOM.insertNode d1 b replacement with
      | Some d2 => (d2, true)
      | None => (d1, false)
      end
  | _, _ => (d, false)
  end.

(** The first comment after [startComment] whose text holds the closing
    marker. *)
Definition find_closing (d : Document) (root startComment : NodeId) : option NodeId :=
  snd <$> list_find
    (λ n, JS.truthy (DOM.valueOf d n) && JS.includes (DOM.valueOf d n) "</esi:try>" = true)
    (DOM.commentsAfter d root startComment).

Definition replaceCommentTryBlock (startComment replacement : NodeId) : M unit :=
  d <- gets document ;;
  match DOM.documentElement d with
  | None => throw "TypeError"
  | Some root =>
      foundClosing <-
        match find_closing d root startComment with
        | Some closing =>
            dom (λ d, let '(d', found) := replace_range d startComment closing replacement
                      in (found, d'))
        | None => ret false
        end ;;
      if negb foundClosing then
        d <- gets document ;;
        match DOM.parentOf d startComment with
        | Some parent => dom_ (DOM.replaceChild parent replacement startComment)
        | None => ret tt
        end
      else ret tt
  end.

Definition replaceESIElement (element replacement : NodeId)
    (originalComment : option string) (isTryBlock : bool) : M unit :=
  d <- gets document ;;
  match DOM.parentOf d element with
  | None => ret tt
  | Some parent =>
      if isTryBlock ||
         match originalComment with
         | Some c => JS.truthy c && JS.includes c "<esi:try>"
         | None => false
         end
      then
        if DOM.isComment d element
        then replaceCommentTryBlock element replacement
        else dom_ (DOM.replaceChild parent replacement element)
      else dom_ (DOM.replaceChild parent replacement element)
  end.

(** The headers of the request a fragment is fetched with. *)
Definition request_headers (p : ESIProcessor) : gmap string string :=
  let headers : gmap string string :=
    {[ "Accept" := "text/html,application/xhtml+xml,application/xml;q=0.9,*/*;q=0.8";
       "X-Requested-With" := "XMLHttpRequest" ]} in
  let headers :=
    if forwardHeaders p then
      foldl (λ (headers : gmap string string) (headerName : string),
          let headers :=
            if JS.truthy (navigator_userAgent B) && bool_decide (headerName = "User-Agent")
            then <["User-Agent" := navigator_userAgent B]> headers else headers in
          if JS.truthy (navigator_language B) && bool_decide (headerName = "Accept-Language")
          then <["Accept-Language" := navigator_language B]> headers else headers)
        headers
        ["User-Agent"; "Accept-Language"; "Accept-Encoding";
         "Cache-Control"; "Pragma"; "DNT"]
    else headers in
  foldl (λ (headers : gmap string string) (header : Header),
      if JS.truthy (h_name header) && JS.truthy (h_value header)
      then <[h_name header := h_value header]> headers else headers)
    headers (customHeaders p).

(** The markup of the error panel. *)
Definition error_markup (fragmentId : nat) (url message : string) : string :=
  "
        <!-- ESI Fragment " +:+ pretty fragmentId +:+ ": " +:+ url +:+ " (FAILED) -->
        <strong>ESI Error:</strong> Failed to load " +:+ url +:+ "<br>
        <small>" +:+ message +:+ "</small>
      ".

Definition push_fragment (f : Fragment) : M unit :=
  modify (set_this (set_stats (λ st,
    mkStats (total st) (successful st) (failed st) (fragments st ++ [f])))).

(** The body of the [try] of [fetchAndReplaceESI] from the point where the
    promise of [fetch] has resolved with [response]. *)
Definition fetch_settled (element : NodeId) (url : string)
    (originalComment : option string) (isTryBlock : bool)
    (fragmentId : nat) (fragmentMarkerId : string) (response : Response) : M unit :=
  let resolvedUrl := resolveUrl url in
  if negb (ok response) then
    throw ("HTTP " +:+ pretty (status response) +:+ ": " +:+ statusText response)
  else
    content <- await (text response) ;;
    container <- dom (DOM.createElement "div") ;;
    dom_ (DOM.setAttribute container "id" fragmentMarkerId) ;;
    dom_ (DOM.setAttribute container "style" "display: contents;") ;;
    dom_ (DOM.setAttribute container "data-esi-fragment" "true") ;;
    dom_ (DOM.setAttribute container "data-esi-url" url) ;;
    dom_ (DOM.setAttribute container "data-esi-resolved-url" resolvedUrl) ;;
    markerComment <-
      dom (DOM.createComment ("ESI Fragment " +:+ pretty fragmentId +:+ ": " +:+ url)) ;;
    dom_ (DOM.appendChild container markerComment) ;;
    contentWrapper <- dom (DOM.createElement "div") ;;
    dom_ (DOM.setAttribute contentWrapper "style" "display: contents;") ;;
    processedContent <- extractAndExecuteScripts content contentWrapper ;;
    dom_ (DOM.replaceChildren contentWrapper (parseHTML B processedContent)) ;;
    dom_ (DOM.appendChild container contentWrapper) ;;
    replaceESIElement element container originalComment isTryBlock ;;
    modify (set_this (set_stats (λ st,
      mkStats (total st) (S (successful st)) (failed st) (fragments st)))) ;;
    timestamp <- Date_now ;;
    push_fragment (mkFragment fragmentId url resolvedUrl true None timestamp).

(** The request a fragment is fetched with. *)
Definition fetchOptions (p : ESIProcessor) (url : string) : Request :=
  mkRequest (resolveUrl url) "GET" (request_headers p)
    (if forwardCookies p then "include" else "same-origin").

(** The body of the [try] of [fetchAndReplaceESI]. *)
Definition fetch_and_replace (element : NodeId) (url : string)
    (originalComment : option string) (isTryBlock : bool)
    (fragmentId : nat) (fragmentMarkerId : string) : M unit :=
  p <- gets this ;;
  now <- Date_now ;;
  tick ;;
  response <- await (fetch B now (fetchOptions p url)) ;;
  fetch_settled element url originalComment isTryBlock
    fragmentId fragmentMarkerId response.

(** The error panel that the [catch] of [fetchAndReplaceESI] builds. *)
Definition error_panel (fragmentId : nat) (fragmentMarkerId url message : string)
    (d : Document) : NodeId * Document :=
  let '(errorDiv, d) := DOM.createElement "div" d in
  let d := DOM.setAttribute errorDiv "id" fragmentMarkerId d in
  let d := DOM.setAttribute errorDiv "class" "esi-error" d in
  let d := DOM.setAttribute errorDiv "data-esi-fragment" "true" d in
  let d := DOM.setAttribute errorDiv "data-esi-url" url d in
  let d := DOM.setAttribute errorDiv "data-esi-resolved-url" (resolveUrl url) d in
  let d := DOM.setAttribute errorDiv "style"
    "color: red; border: 1px solid red; padding: 10px; margin: 5px; background: #ffe6e6;" d in
  (errorDiv,
   DOM.replaceChildren errorDiv (parseHTML B (error_markup fragmentId url message)) d).

(** The [catch] of [fetchAndReplaceESI]. *)
Definition fetch_failed (element : NodeId) (url : string)
    (originalComment : option string) (isTryBlock : bool)
    (fragmentId : nat) (fragmentMarkerId : string) (message : string) : M unit :=
  errorDiv <- dom (error_panel fragmentId fragmentMarkerId url message) ;;
  d <- gets document ;;
  (if bool_decide (is_Some (DOM.parentOf d element))
   then replaceESIElement element errorDiv originalComment isTryBlock
   else ret tt) ;;
  modify (set_this (set_stats (λ st,
    mkStats (total st) (successful st) (S (failed st)) (fragments st)))) ;;
  timestamp <- Date_now ;;
  push_fragment (mkFragment fragmentId url (resolveUrl url) false (Some message) timestamp).

Definition fetchAndReplaceESI (element : NodeId) (url : string)
    (originalComment : option string) (isTryBlock : bool) : M unit :=
  d <- gets document ;;
  match DOM.parentOf d element with
  | None => ret tt
  | Some _ =>
      modify (set_this (set_stats (λ st,
        mkStats (S (total st)) (successful st) (failed st) (fragments st)))) ;;
      modify (set_this (set_fragmentCounter S)) ;;
      fragmentId <- gets (λ s, fragmentCounter (this s)) ;;
      let fragmentMarkerId := "esi-fragment-" +:+ pretty fragmentId in
      try_catch
        (fetch_and_replace element url originalComment isTryBlock
           fragmentId fragmentMarkerId)
        (fetch_failed element url originalComment isTryBlock
           fragmentId fragmentMarkerId) ;;
      saveStats
  end.

Definition include_selectors : list string :=
  ["esi:include"; "ESI:INCLUDE"; "esi-include"; "ESI-INCLUDE"].

(** The body of the loop of [processESITryBlocks]. *)
Definition process_try_block (tryBlock : NodeId) : M unit :=
  seen <- is_processed tryBlock ;;
  if seen then ret tt
  else
    d <- gets document ;;
    match DOM.querySelector d tryBlock include_selectors with
    | Some includeTag =>
        match DOM.getAttribute d includeTag "src" with
        | Some src =>
            if JS.truthy src then
              mark_processed tryBlock ;;
              mark_processed includeTag ;;
              fetchAndReplaceESI tryBlock src None true
            else ret tt
        | None => ret tt
        end
    | None => ret tt
    end.

Definition processESITryBlocks : M unit :=
  d <- gets document ;;
  let tryBlocks := DOM.querySelectorAll d DOM.documentNode ["esi:try"; "ESI:TRY"] in
  for_of tryBlocks process_try_block.

Fixpoint isInsideESITryBlock_loop (fuel : nat) (d : Document) (parent : option NodeId)
    : bool :=
  match fuel, parent with
  | S f, Some p =>
      if bool_decide (JS.toLowerCase (DOM.tagName d p) = "esi:try") ||
         bool_decide (DOM.tagName d p = "ESI:TRY")
      then true
      else isInsideESITryBlock_loop f d (DOM.parentElement d p)
  | _, _ => false
  end.

Definition isInsideESITryBlock (d : Document) (element : NodeId) : bool :=
  isInsideESITryBlock_loop (size (nodes d)) d (DOM.parentElement d element).

(** The body of the second loop of [processStandaloneESITags]. *)
Definition process_standalone_tag (tag : NodeId) : M unit :=
  seen <- is_processed tag ;;
  if seen then ret tt
  else
    d <- gets document ;;
    match DOM.getAttribute d tag "src" with
    | Some src =>
        if JS.truthy src then
          mark_processed tag ;;
          fetchAndReplaceESI tag src None false
        else ret tt
    | None => ret tt
    end.

(** The list that the first loop of [processStandaloneESITags] builds. *)
Definition standalone_includes (d : Document) (p : ESIProcessor) : list NodeId :=
  ["esi:include"; "esi-include"; "ESI:INCLUDE"; "ESI-INCLUDE"] ≫= λ selector,
    filter (λ tag, (tag ∉ processedElements p) ∧ isInsideESITryBlock d tag = false)
      (DOM.querySelectorAll d DOM.documentNode [selector]).

Definition processStandaloneESITags : M unit :=
  d <- gets document ;;
  p <- gets this ;;
  for_of (standalone_includes d p) process_standalone_tag.

Definition processESIComment (commentNode : NodeId) : M unit :=
  d <- gets document ;;
  let comment := DOM.valueOf d commentNode in
  if JS.includes comment "<esi:try>" then
    match RegExp.match_include_src comment with
    | Some url => fetchAndReplaceESI commentNode url (Some comment) true
    | None => ret tt
    end
  else
    match RegExp.match_src comment with
    | Some url => fetchAndReplaceESI commentNode url None false
    | None => ret tt
    end.

(** The comments that the scan of [processESIComments] collects. *)
Definition esi_comments (d : Document) (p : ESIProcessor) (root : NodeId) : list NodeId :=
  filter (λ node,
      (node ∉ processedElements p) ∧
      JS.truthy (DOM.valueOf d node) &&
        (JS.includes (DOM.valueOf d node) "<esi:include" ||
         JS.includes (DOM.valueOf d node) "<esi:try>") = true)
    (DOM.commentsAfter d root root).

(** The body of the second loop of [processESIComments]. *)
Definition process_comment_node (commentNode : NodeId) : M unit :=
  seen <- is_processed commentNode ;;
  if seen then ret tt
  else
    mark_processed commentNode ;;
    processESIComment commentNode.

Definition processESIComments : M unit :=
  d <- gets document ;;
  match DOM.documentElement d with
  | None => ret tt
  | Some root =>
      p <- gets this ;;
      for_of (esi_comments d p root) process_comment_node
  end.

Definition processESI : M unit :=
  p <- gets this ;;
  if negb (enabled p) then ret tt
  else
    modify (set_this (set_processedElements (λ _, ∅))) ;;
    processESITryBlocks ;;
    processStandaloneESITags ;;
    processESIComments ;;
    saveStats.

(** [init], up to the point where it arms the timer of the first pass. *)
Definition init : M unit :=
  loadSettings ;;
  loadStats.

End Methods.

(** ** Events

    What reaches the processor after [init]: the two messages of the popup,
    a change of the settings in storage, the removal of the statistics of the
    page from storage (by the popup or by the clean-up of the background
    script), the timer that starts a pass, and the timer of a list of
    scripts.  An error that escapes a handler is reported by the browser and
    goes no further. *)

Inductive Event :=
| ClearStatsMessage
| JumpToFragmentMessage (fragmentId : nat)
| SettingsChanged (esiEnabled : option (option bool))
    (newCustomHeaders : option (option (list Header)))
    (newExecuteScripts : option (option bool))
| StatsRemoved
| PassTimer
| ScriptTimer.

Definition set_enabled (v : bool) (p : ESIProcessor) : ESIProcessor :=
  mkESIProcessor v (customHeaders p) (forwardHeaders p) (forwardCookies p)
    (executeScripts p) (stats p) (fragmentCounter p) (processedElements p).

Definition set_customHeaders (v : list Header) (p : ESIProcessor) : ESIProcessor :=
  mkESIProcessor (enabled p) v (forwardHeaders p) (forwardCookies p)
    (executeScripts p) (stats p) (fragmentCounter p) (processedElements p).

Definition set_executeScripts (v : bool) (p : ESIProcessor) : ESIProcessor :=
  mkESIProcessor (enabled p) (customHeaders p) (forwardHeaders p) (forwardCookies p)
    v (stats p) (fragmentCounter p) (processedElements p).

(** The listener of [storage.onChanged]; a removed key has no new value. *)
Definition on_changed (esiEnabled : option (option bool))
    (newCustomHeaders : option (option (list Header)))
    (newExecuteScripts : option (option bool)) : M unit :=
  match esiEnabled with
  | Some v =>
      modify (set_storage (λ st,
        mkStorage v (st_customHeaders st) (st_forwardHeaders st)
          (st_forwardCookies st) (st_executeScripts st) (st_esiStats st))) ;;
      modify (set_this (set_enabled (default false v)))
  | None => ret tt
  end ;;
  match newCustomHeaders with
  | Some v =>
      modify (set_storage (λ st,
        mkStorage (st_esiEnabled st) v (st_forwardHeaders st)
          (st_forwardCookies st) (st_executeScripts st) (st_esiStats st))) ;;
      modify (set_this (set_customHeaders (default [] v)))
  | None => ret tt
  end ;;
  match newExecuteScripts with
  | Some v =>
      modify (set_storage (λ st,
        mkStorage (st_esiEnabled st) (st_customHeaders st) (st_forwardHeaders st)
          (st_forwardCookies st) v (st_esiStats st))) ;;
      modify (set_this (set_executeScripts (default false v)))
  | None => ret tt
  end.

Definition remove_stats : M unit :=
  modify (set_storage (λ st,
    mkStorage (st_esiEnabled st) (st_customHeaders st) (st_forwardHeaders st)
      (st_forwardCookies st) (st_executeScripts st) None)).

Definition fire_script_timer (B : Browser) : M unit :=
  pending <- gets timers ;;
  match pending with
  | [] => ret tt
  | t :: rest =>
      modify (λ s, mkState (this s) (document s) (storage s) (clock s) rest) ;;
      run_scripts B t
  end.

Definition handle (B : Browser) (e : Event) : M unit :=
  try_catch
    match e with
    | ClearStatsMessage => clearStats
    | JumpToFragmentMessage fragmentId => jumpToFragment fragmentId
    | SettingsChanged a b c => on_changed a b c
    | StatsRemoved => remove_stats
    | PassTimer => processESI B
    | ScriptTimer => fire_script_timer B
    end
    (λ _, ret tt).

(** The life of the content script on a page: a new instance, [init], and
    then the events in the order in which they arrive. *)
Definition run (B : Browser) (events : list Event) : M unit :=
  init ;; for_of events (handle B).

Definition start (d : Document) (st : Storage) (now : nat) : State :=
  mkState constructor d st now [].

(** ** Predicates of the statements *)

(** [total == successful + failed] *)
Definition consistent (st : Stats) : Prop :=
  total st = successful st + failed st.

(** Node [n] is [a] or lies below [a]. *)
Inductive below (d : Document) : NodeId → NodeId → Prop :=
| below_self n : below d n n
| below_parent n p a : DOM.parentOf d n = Some p → below d p a → below d n a.

(** Node [n] is in the tree of the page. *)
Definition attached (d : Document) (n : NodeId) : Prop := below d n DOM.documentNode.

(** Identities are handed out in order: every node of the heap was created
    before [nextNode] and its parent, if it has one, is a node of the heap;
    the document node is one of the nodes and has no parent. *)
Definition allocated (d : Document) : Prop :=
  (∀ n, is_Some (nodes d !! n) → n < nextNode d) ∧
  (∀ n p, DOM.parentOf d n = Some p → is_Some (nodes d !! p)) ∧
  is_Some (nodes d !! DOM.documentNode) ∧
  DOM.parentOf d DOM.documentNode = None.

(** The same, as a check that can be run. *)
Definition check_allocated (d : Document) : bool :=
  forallb (λ nx : nat * Node,
      (nx.1 <? nextNode d) &&
      match parentNode nx.2 with
      | Some p => bool_decide (is_Some (nodes d !! p))
      | None => true
      end)
    (map_to_list (nodes d)) &&
  bool_decide (is_Some (nodes d !! DOM.documentNode)) &&
  bool_decide (DOM.parentOf d DOM.documentNode = None).

(** The ids of a list of fragments. *)
Definition ids (l : list Fragment) : list nat := f_id <$> l.

(** ** The URL Standard on path references

    [relative_href reference base] follows the URL Standard for a base with
    scheme [http] or [https] and a reference that is made of path segments,
    optionally followed by a query or a fragment, with no character that the
    standard would encode, replace or strip: an empty reference is the base
    without its fragment, a reference that begins with [?] or [#] keeps the
    path of the base, one that begins with [/] replaces the path, and any
    other is resolved in the directory of the base; the segments [.] and
    [..] are then removed as the standard's path state does. *)

Module URLStandard.

Fixpoint split (c : ascii) (s : string) : list string :=
  match s with
  | EmptyString => [EmptyString]
  | String a s' =>
      if decide (a = c) then EmptyString :: split c s'
      else
        match split c s' with
        | x :: l => String a x :: l
        | [] => [String a EmptyString]
        end
  end.

Fixpoint join (l : list string) : string :=
  match l with
  | [] => EmptyString
  | [x] => x
  | x :: l' => x +:+ "/" +:+ join l'
  end.

(** The part of [s] before the first character that satisfies [stop], and
    the rest. *)
Fixpoint cut (stop : ascii → bool) (s : string) : string * string :=
  match s with
  | EmptyString => (EmptyString, EmptyString)
  | String a s' =>
      if stop a then (EmptyString, s)
      else let '(x, y) := cut stop s' in (String a x, y)
  end.

Definition is_char (c : ascii) (a : ascii) : bool := bool_decide (a = c).

(** The path state: [.] is dropped, [..] drops the segment before it, and
    either of them in last position leaves an empty last segment. *)
Fixpoint path_state (segments : list string) (path : list string) : list string :=
  match segments with
  | [] => path
  | seg :: rest =>
      let last := bool_decide (rest = []) in
      if bool_decide (seg = "..") then
        path_state rest (DOM.init path ++ (if last then [EmptyString] else []))
      else if bool_decide (seg = ".") then
        path_state rest (path ++ (if last then [EmptyString] else []))
      else path_state rest (path ++ [seg])
  end.

Definition relative_href (reference base : string) : string :=
  let '(scheme, rest) := cut (is_char ":") base in
  let '(authority, tail) :=
    cut (λ a, is_char "/" a || is_char "?" a || is_char "#" a) (JS.drop 3 rest) in
  let '(basePath, baseRest) := cut (λ a, is_char "?" a || is_char "#" a) tail in
  let '(baseQuery, _) := cut (is_char "#") baseRest in
  let baseSegments := split "/" (JS.drop 1 basePath) in
  let origin := scheme +:+ "://" +:+ authority in
  let '(path, suffix) := cut (λ a, is_char "?" a || is_char "#" a) reference in
  match path, suffix with
  | EmptyString, EmptyString => origin +:+ "/" +:+ join baseSegments +:+ baseQuery
  | EmptyString, String "?" _ => origin +:+ "/" +:+ join baseSegments +:+ suffix
  | EmptyString, _ => origin +:+ "/" +:+ join baseSegments +:+ baseQuery +:+ suffix
  | String "/" path', _ =>
      origin +:+ "/" +:+ join (path_state (split "/" path') []) +:+ suffix
  | _, _ =>
      origin +:+ "/" +:+
      join (path_state (split "/" path) (DOM.init baseSegments)) +:+ suffix
  end.

End URLStandard.

(** ** Example pages *)

Module Example.

(** A page whose address is [https://h/a/b/]; the network answers [Hi] with
    status 200, except for an address that ends in [missing.html], answered
    with status 404, and one that ends in [down.html], which cannot be
    reached; the parser turns markup into one text node, and an external
    script loads unless its address ends in [broken.js]. *)
Definition ends_with (suffix s : string) : bool :=
  String.prefix (String.rev suffix) (String.rev s).

Definition browser : Browser :=
  mkBrowser "https://h/a/b/" "https:" "https://h"
    (λ reference base, Some (URLStandard.relative_href reference base))
    (λ _ request,
       if ends_with "missing.html" (r_url request)
       then Normal (mkResponse 404 "Not Found" (Normal "gone"))
       else if ends_with "down.html" (r_url request)
       then Throw "Failed to fetch"
       else Normal (mkResponse 200 "OK" (Normal "Hi")))
    "Mozilla/5.0" "en-US"
    (λ markup, [MText markup])
    (λ markup, MElement "html" [] [MElement "head" [] []; MElement "body" [] [MText markup]])
    (λ _, "Hi")
    (λ _ src, negb (ends_with "broken.js" src)).

Definition blank : Document :=
  mkDocument {[ 0 := mkNode DOCUMENT_NODE EmptyString EmptyString [] None [] ]} 1.

(** The page that a parser builds from [html]. *)
Definition page (html : list Markup) : Document := DOM.replaceChildren 0 html blank.

Definition empty_storage : Storage := mkStorage None None None None None None.

Definition state_of (d : Document) : State := start d empty_storage 1000.

(** A try block written as comments, whose closing comment is a sibling of
    the opening one, around a second include comment.
    Nodes: 1 [html], 2 [body], 3 the opening comment, 4 the inner include,
    5 the closing comment, 6 text. *)
Definition comment_try_page : Document :=
  page [MElement "html" [] [MElement "body" [] [
    MComment " <esi:try><esi:attempt><esi:include src='/a.html'/> ";
    MComment " <esi:include src='/b.html'/> ";
    MComment " </esi:attempt></esi:try> ";
    MText "after" ]]].

(** A try block written as comments whose closing comment lies inside a
    paragraph that starts after the opening comment.
    Nodes: 1 [html], 2 [body], 3 the opening comment, 4 [p], 5 text,
    6 the closing comment, 7 text, 8 text. *)
Definition nested_try_page : Document :=
  page [MElement "html" [] [MElement "body" [] [
    MComment " <esi:try><esi:include src='/a.html'/> ";
    MElement "p" [] [MText "fallback"; MComment " </esi:try> "; MText "kept"];
    MText "after" ]]].

(** A try element around an include that cannot be fetched, and a plain
    include that answers 404.
    Nodes: 1 [html], 2 [body], 3 [esi:try], 4 [esi:attempt], 5 [esi:include],
    6 [esi:except], 7 text, 8 [esi:include]. *)
Definition element_try_page : Document :=
  page [MElement "html" [] [MElement "body" [] [
    MElement "esi:try" [] [
      MElement "esi:attempt" [] [MElement "esi:include" [("src", "/down.html")] []];
      MElement "esi:except" [] [MText "fallback"]];
    MElement "esi:include" [("src", "/missing.html")] [] ]]].

(** A comment that opens a try block but names no include. *)
Definition bare_try_page : Document :=
  page [MElement "html" [] [MElement "body" [] [
    MComment " <esi:try> ";
    MText "text" ]]].

(** A page on which the replacement for a directive, a new [div], has been
    created and is not yet in the tree; its identity is the former
    [nextNode] of the page. *)
Definition with_replacement (d : Document) : State :=
  state_of (DOM.createElement "div" d).2.

(** An external script that fails to load, followed by an inline script. *)
Definition two_scripts : list Script :=
  [mkScript [("src", "https://h/broken.js")] "https://h/broken.js" EmptyString;
   mkScript [] EmptyString "inline()"].

End Example.

(** ** Notions used in the proofs *)

(** A computation that leaves the processor and the storage alone. *)
Definition frame {A} (m : M A) : Prop :=
  ∀ s, this (m s).2 = this s ∧ storage (m s).2 = storage s.

(** [Q] holds of the completion and the final state of [m] run from [s]. *)
Definition wp {A} (m : M A) (Q : Completion A → State → Prop) (s : State) : Prop :=
  Q (m s).1 (m s).2.

(** The processor after one directive was counted and its outcome [f]
    recorded. *)
Definition recorded (f : Fragment) (p : ESIProcessor) : ESIProcessor :=
  mkESIProcessor (enabled p) (customHeaders p) (forwardHeaders p) (forwardCookies p)
    (executeScripts p)
    (mkStats (S (total (stats p)))
       (if f_success f then S (successful (stats p)) else successful (stats p))
       (if f_success f then failed (stats p) else S (failed (stats p)))
       (fragments (stats p) ++ [f]))
    (S (fragmentCounter p)) (processedElements p).

(** The storage after [saveStats] has written [st]. *)
Definition saved (st : Stats) (sto : Storage) : Storage :=
  mkStorage (st_esiEnabled sto) (st_customHeaders sto) (st_forwardHeaders sto)
    (st_forwardCookies sto) (st_executeScripts sto) (Some st).

(** [I] holds after [m] whenever it holds before and [m] completes. *)
Definition preserved (I : State → Prop) {A} (m : M A) : Prop :=
  ∀ s, I s → wp m (λ c s1, match c with Normal _ => I s1 | Throw _ => True end) s.

(** Two states that differ at most in the storage. *)
Definition same_but_storage (s t : State) : Prop :=
  this s = this t ∧ document s = document t ∧ clock s = clock t ∧ timers s = timers t.

(** A computation that does not read the storage. *)
Definition oblivious {A} (m : M A) : Prop :=
  ∀ s t, same_but_storage s t →
    (m s).1 = (m t).1 ∧ same_but_storage (m s).2 (m t).2.

(** Two processors with the same settings. *)
Definition same_settings (p q : ESIProcessor) : Prop :=
  enabled p = enabled q ∧ customHeaders p = customHeaders q ∧
  forwardHeaders p = forwardHeaders q ∧ forwardCookies p = forwardCookies q ∧
  executeScripts p = executeScripts q.

(** The induction principle of markup, with the children of an element. *)
Fixpoint Markup_induction (P : Markup → Prop)
    (Helement : ∀ name attrs children, Forall P children → P (MElement name attrs children))
    (Hcomment : ∀ data, P (MComment data))
    (Htext : ∀ data, P (MText data))
    (m : Markup) : P m :=
  match m with
  | MElement name attrs children =>
      Helement name attrs children
        ((fix go (ms : list Markup) : Forall P ms :=
            match ms with
            | [] => @List.Forall_nil _ P
            | c :: ms' =>
                @List.Forall_cons _ P c ms' (Markup_induction P Helement Hcomment Htext c) (go ms')
            end) children)
  | MComment data => Hcomment data
  | MText data => Htext data
  end.


(** The error with which the [try] of [fetchAndReplaceESI] is left before it
    has touched the page: the rejection of [fetch], a status outside 200 to
    299, or the rejection of [response.text()]. *)
Definition fetch_error (B : Browser) (now : nat) (request : Request) : option string :=
  match fetch B now request with
  | Throw e => Some e
  | Normal response =>
      if ok response then
        match text response with
        | Throw e => Some e
        | Normal _ => None
        end
      else Some ("HTTP " +:+ pretty (status response) +:+ ": " +:+ statusText response)
  end.

(** The state in which the [catch] of [fetchAndReplaceESI] starts the
    replacement when the fetch of a directive counted from [s] has failed:
    the directive is counted, the fetch has taken its time, and the error
    panel, node [panel.1], is built. *)
Definition failed_state (s : State) (panel : NodeId * Document) : State :=
  mkState
    (set_fragmentCounter S (set_stats (λ st,
       mkStats (S (total st)) (successful st) (failed st) (fragments st)) (this s)))
    panel.2 (storage s) (S (clock s)) (timers s).

(** The state in which the [catch] of [fetchAndReplaceESI] ends when the
    replacement has left the state [s2]. *)
Definition failure_recorded (B : Browser) (fragmentId : nat) (url message : string)
    (s2 : State) : State :=
  let p :=
    set_stats (λ st,
      mkStats (total st) (successful st) (S (failed st))
        (fragments st ++
           [mkFragment fragmentId url (resolveUrl B url) false
              (Some message) (clock s2)])) (this s2) in
  mkState p (document s2) (saved (stats p) (storage s2)) (clock s2) (timers s2).

(** [I] holds after [m] whenever it holds before, however [m] ends. *)
Definition steady (I : State → Prop) {A} (m : M A) : Prop :=
  ∀ s, I s → I (m s).2.

(** Every character of [s] is in the class [c]. *)
Fixpoint every_char (c : ascii → bool) (s : string) : bool :=
  match s with
  | EmptyString => true
  | String a s' => c a && every_char c s'
  end.

(** The counters of the statistics agree with the list of fragments. *)
Definition tallied (st : Stats) : Prop :=
  total st = length (fragments st) ∧
  successful st = length (filter (λ f, f_success f = true) (fragments st)) ∧
  failed st = length (filter (λ f, f_success f = false) (fragments st)).

(** The chain of [parentElement] that the loop of [isInsideESITryBlock]
    walks, starting at [parent]. *)
Fixpoint parentElements (fuel : nat) (d : Document) (parent : option NodeId)
    : list NodeId :=
  match fuel, parent with
  | S f, Some p => p :: parentElements f d (DOM.parentElement d p)
  | _, _ => []
  end.

(** The content that [extractAndExecuteScripts] returns for [content] when
    the settings are those of [p]. *)
Definition content_without_scripts (B : Browser) (p : ESIProcessor) (content : string)
    : string :=
  if negb (executeScripts p) then content
  else
    match body_of (remove_scripts (parseFromString B content)) with
    | Some body => serialize B (markup_children body)
    | None => content
    end.

(** The timers once [extractAndExecuteScripts] has run on [content] for the
    container [container]. *)
Definition timers_with_scripts (B : Browser) (p : ESIProcessor) (content : string)
    (container : NodeId) (pending : list Timer) : list Timer :=
  if negb (executeScripts p) then pending
  else pending ++
       [mkTimer (script_of <$> scripts_below (parseFromString B content)) container].

(** The replacement that the [try] of [fetchAndReplaceESI] builds for a
    fetched fragment: the container with its marker comment, and the content
    wrapper with the parsed content as its children.  The result is the
    container, the content wrapper and the page. *)
Definition fragment_container (B : Browser) (fragmentId : nat)
    (fragmentMarkerId url processedContent : string) (d : Document)
    : NodeId * NodeId * Document :=
  let '(container, d) := DOM.createElement "div" d in
  let d := DOM.setAttribute container "id" fragmentMarkerId d in
  let d := DOM.setAttribute container "style" "display: contents;" d in
  let d := DOM.setAttribute container "data-esi-fragment" "true" d in
  let d := DOM.setAttribute container "data-esi-url" url d in
  let d := DOM.setAttribute container "data-esi-resolved-url" (resolveUrl B url) d in
  let '(markerComment, d) :=
    DOM.createComment ("ESI Fragment " +:+ pretty fragmentId +:+ ": " +:+ url) d in
  let d := DOM.appendChild container markerComment d in
  let '(contentWrapper, d) := DOM.createElement "div" d in
  let d := DOM.setAttribute contentWrapper "style" "display: contents;" d in
  let d := DOM.replaceChildren contentWrapper (parseHTML B processedContent) d in
  (container, contentWrapper, DOM.appendChild container contentWrapper d).

(** The state in which the [try] of [fetchAndReplaceESI] starts the
    replacement when the fetch of a directive counted from [s] has given
    [content]: the directive is counted, the fetch has taken its time, the
    scripts, if they are to run, are scheduled, and the replacement [box] is
    built. *)
Definition fetched_state (B : Browser) (s : State) (content : string)
    (box : NodeId * NodeId * Document) : State :=
  mkState
    (set_fragmentCounter S (set_stats (λ st,
       mkStats (S (total st)) (successful st) (failed st) (fragments st)) (this s)))
    box.2 (storage s) (S (clock s))
    (timers_with_scripts B (this s) content box.1.2 (timers s)).

(** The state in which [fetchAndReplaceESI] ends when the replacement of a
    fetched fragment has left the state [s2]. *)
Definition success_recorded (B : Browser) (fragmentId : nat) (url : string)
    (s2 : State) : State :=
  let p :=
    set_stats (λ st,
      mkStats (total st) (S (successful st)) (failed st)
        (fragments st ++
           [mkFragment fragmentId url (resolveUrl B url) true None (clock s2)]))
      (this s2) in
  mkState p (document s2) (saved (stats p) (storage s2)) (clock s2) (timers s2).

(** * Reasoning about the methods *)

(** ** Frames *)

Lemma frame_ret {A} (a : A) : frame (ret a).
Proof. done. Qed.

Lemma frame_throw {A} e : frame (@throw A e).
Proof. done. Qed.

Lemma frame_gets {A} (f : State → A) : frame (gets f).
Proof. done. Qed.

Lemma frame_await {A} (c : Completion A) : frame (await c).
Proof. done. Qed.

Lemma frame_dom {A} (f : Document → A * Document) : frame (dom f).
Proof. intros s. unfold dom. by destruct (f (document s)). Qed.

Lemma frame_dom_ f : frame (dom_ f).
Proof. done. Qed.

Lemma frame_tick : frame tick.
Proof. done. Qed.

Lemma frame_setTimeout t : frame (setTimeout t).
Proof. done. Qed.

Lemma frame_bind {A B} (m : M A) (k : A → M B) :
  frame m → (∀ a, frame (k a)) → frame (bind m k).
Proof.
  intros Hm Hk s. unfold bind. specialize (Hm s).
  destruct (m s) as [[a|e] s1]; simpl in *; [|done].
  destruct (Hk a s1) as [-> ->]. done.
Qed.

Lemma frame_try_catch {A} (body : M A) handler :
  frame body → (∀ e, frame (handler e)) → frame (try_catch body handler).
Proof.
  intros Hm Hk s. unfold try_catch. specialize (Hm s).
  destruct (body s) as [[a|e] s1]; simpl in *; [done|].
  destruct (Hk e s1) as [-> ->]. done.
Qed.

Lemma frame_for_of {A} (l : list A) body :
  (∀ x, frame (body x)) → frame (for_of l body).
Proof.
  intros Hb. induction l as [|x l IH]; simpl.
  - apply frame_ret.
  - apply frame_bind; auto.
Qed.

Create HintDb frame discriminated.
#[local] Hint Resolve frame_ret frame_throw frame_gets frame_await frame_dom frame_dom_
  frame_tick frame_setTimeout : frame.

Ltac frame_step :=
  match goal with
  | |- frame (bind _ _) => apply frame_bind; [|intros ?]
  | |- frame (try_catch _ _) => apply frame_try_catch; [|intros ?]
  | |- frame (for_of _ _) => apply frame_for_of; intros ?
  | |- frame (match ?x with _ => _ end) => destruct x
  | |- frame (if ?b then _ else _) => destruct b
  | |- frame _ => solve [auto with frame]
  end.

Ltac solve_frame := repeat frame_step.

Lemma frame_replaceCommentTryBlock start replacement :
  frame (replaceCommentTryBlock start replacement).
Proof. unfold replaceCommentTryBlock. solve_frame. Qed.

Lemma frame_replaceESIElement element replacement oc tb :
  frame (replaceESIElement element replacement oc tb).
Proof.
  unfold replaceESIElement. solve_frame; apply frame_replaceCommentTryBlock.
Qed.

Lemma frame_extractAndExecuteScripts B content container :
  frame (extractAndExecuteScripts B content container).
Proof. unfold extractAndExecuteScripts. solve_frame. Qed.

Lemma frame_executeScript B script container : frame (executeScript B script container).
Proof. unfold executeScript, Date_now. solve_frame. Qed.

Lemma frame_run_scripts B t : frame (run_scripts B t).
Proof. unfold run_scripts. solve_frame. apply frame_executeScript. Qed.

Lemma frame_jumpToFragment n : frame (jumpToFragment n).
Proof. unfold jumpToFragment. solve_frame. Qed.

#[local] Hint Resolve frame_replaceESIElement frame_extractAndExecuteScripts
  frame_executeScript frame_run_scripts frame_jumpToFragment : frame.

(** ** Weakest preconditions *)

Lemma wp_bind {A B} (m : M A) (k : A → M B) Q s :
  wp m (λ c s1, match c with
                | Normal a => wp (k a) Q s1
                | Throw e => Q (Throw e) s1
                end) s →
  wp (bind m k) Q s.
Proof. unfold wp, bind. by destruct (m s) as [[a|e] s1]. Qed.

Lemma wp_try_catch {A} (body : M A) handler Q s :
  wp body (λ c s1, match c with
                   | Normal a => Q (Normal a) s1
                   | Throw e => wp (handler e) Q s1
                   end) s →
  wp (try_catch body handler) Q s.
Proof. unfold wp, try_catch. by destruct (body s) as [[a|e] s1]. Qed.

Lemma wp_mono {A} (m : M A) (Q Q' : Completion A → State → Prop) s :
  wp m Q s → (∀ c s1, Q c s1 → Q' c s1) → wp m Q' s.
Proof. unfold wp. auto. Qed.

Lemma wp_frame {A} (m : M A) (Q : Completion A → State → Prop) s :
  frame m →
  (∀ c s1, this s1 = this s → storage s1 = storage s → Q c s1) →
  wp m Q s.
Proof. intros Hm HQ. unfold wp. destruct (Hm s). auto. Qed.

Lemma wp_bind_frame {A B} (m : M A) (k : A → M B) Q s :
  frame m →
  (∀ a s1, this s1 = this s → storage s1 = storage s → wp (k a) Q s1) →
  (∀ e s1, this s1 = this s → storage s1 = storage s → Q (Throw e) s1) →
  wp (bind m k) Q s.
Proof.
  intros Hm Hk He. apply wp_bind, wp_frame; [done|].
  intros [a|e] s1 ??; auto.
Qed.

Lemma wp_bind_gets {A B} (f : State → A) (k : A → M B) Q s :
  wp (k (f s)) Q s → wp (bind (gets f) k) Q s.
Proof. done. Qed.

Lemma wp_bind_modify {B} f (k : unit → M B) Q s :
  wp (k tt) Q (f s) → wp (bind (modify f) k) Q s.
Proof. done. Qed.

Lemma wp_for_of {A} (I : State → Prop) (l : list A) body
    (Q : Completion unit → State → Prop) s :
  I s →
  (∀ x s1, x ∈ l → I s1 →
     wp (body x) (λ c s2, match c with
                          | Normal _ => I s2
                          | Throw e => Q (Throw e) s2
                          end) s1) →
  (∀ s1, I s1 → Q (Normal tt) s1) →
  wp (for_of l body) Q s.
Proof.
  intros HI Hbody HQ. revert s HI. induction l as [|x l IH]; intros s HI; simpl.
  - by apply HQ.
  - apply wp_bind. eapply wp_mono; [apply (Hbody x s); [left|done]|].
    intros [[]|e] s1 H1; [|done].
    apply IH; [|done]. intros y s2 Hy. apply Hbody. by right.
Qed.

(** ** What a directive does to the processor and to the storage *)

Lemma fetch_settled_this B element url oc tb fragmentId marker response s :
  wp (fetch_settled B element url oc tb fragmentId marker response)
    (λ c s1, storage s1 = storage s ∧
       match c with
       | Normal _ =>
           ∃ ts, this s1 =
             set_stats (λ st, mkStats (total st) (S (successful st)) (failed st)
               (fragments st ++ [mkFragment fragmentId url (resolveUrl B url) true None ts]))
               (this s)
       | Throw _ => this s1 = this s
       end) s.
Proof.
  unfold fetch_settled. destruct (negb (ok response)); [done|].
  repeat (apply wp_bind_frame; [solve [auto with frame]| |by intros; split; congruence];
          intros ? ? ? ?).
  apply wp_bind_modify, wp_bind_gets. unfold wp, push_fragment, modify. simpl.
  split; [congruence|]. eexists. unfold set_stats. simpl.
  repeat match goal with H : this _ = this _ |- _ => rewrite H; clear H end. done.
Qed.

Lemma wp_bind_await {A B} (c : Completion A) (k : A → M B) Q s :
  match c with
  | Normal a => wp (k a) Q s
  | Throw e => Q (Throw e) s
  end →
  wp (bind (await c) k) Q s.
Proof. by destruct c. Qed.

Lemma fetch_failed_this B element url oc tb fragmentId marker message s :
  wp (fetch_failed B element url oc tb fragmentId marker message)
    (λ c s1,
       match c with
       | Normal _ =>
           storage s1 = storage s ∧
           ∃ ts, this s1 =
             set_stats (λ st, mkStats (total st) (successful st) (S (failed st))
               (fragments st ++
                  [mkFragment fragmentId url (resolveUrl B url) false (Some message) ts]))
               (this s)
       | Throw _ => this s1 = this s ∧ storage s1 = storage s
       end) s.
Proof.
  unfold fetch_failed.
  apply wp_bind_frame; [auto with frame| |done]. intros errorDiv s1 Ht1 Hs1.
  apply wp_bind_gets.
  apply wp_bind_frame; [case_bool_decide; auto with frame| |by intros; split; congruence].
  intros _ s2 Ht2 Hs2.
  apply wp_bind_modify, wp_bind_gets. unfold wp, push_fragment, modify. simpl.
  split; [congruence|]. eexists. unfold set_stats. simpl. rewrite Ht2, Ht1. done.
Qed.

Lemma fetchAndReplaceESI_this B element url oc tb s :
  wp (fetchAndReplaceESI B element url oc tb)
    (λ c s1,
       match DOM.parentOf (document s) element with
       | None => c = Normal tt ∧ s1 = s
       | Some _ =>
           match c with
           | Normal _ =>
               ∃ f, f_id f = S (fragmentCounter (this s)) ∧ f_url f = url ∧
                    f_resolvedUrl f = resolveUrl B url ∧
                    this s1 = recorded f (this s) ∧
                    storage s1 = saved (stats (this s1)) (storage s)
           | Throw _ =>
               this s1 = set_fragmentCounter S (set_stats (λ st,
                 mkStats (S (total st)) (successful st) (failed st) (fragments st)) (this s)) ∧
               storage s1 = storage s
           end
       end) s.
Proof.
  unfold fetchAndReplaceESI. apply wp_bind_gets.
  destruct (DOM.parentOf (document s) element) as [parent|]; [|done].
  do 2 apply wp_bind_modify. apply wp_bind_gets. simpl.
  set (s0 := set_this (set_fragmentCounter S) (set_this (set_stats _) s)).
  assert (Hfinish : ∀ s1 f,
    f_id f = S (fragmentCounter (this s)) → f_url f = url →
    f_resolvedUrl f = resolveUrl B url →
    storage s1 = storage s →
    this s1 = set_stats (λ st, mkStats (total st)
                (if f_success f then S (successful st) else successful st)
                (if f_success f then failed st else S (failed st))
                (fragments st ++ [f])) (this s0) →
    wp saveStats (λ c s2,
      match c with
      | Normal _ =>
          ∃ f, f_id f = S (fragmentCounter (this s)) ∧ f_url f = url ∧
               f_resolvedUrl f = resolveUrl B url ∧
               this s2 = recorded f (this s) ∧
               storage s2 = saved (stats (this s2)) (storage s)
      | Throw _ => False
      end) s1).
  { intros s1 f ??? Hsto Hthis. unfold wp, saveStats, modify. simpl.
    exists f. rewrite Hsto, Hthis. done. }
  assert (Hcatch : ∀ e s1, this s1 = this s0 → storage s1 = storage s →
    wp (fetch_failed B element url oc tb (S (fragmentCounter (this s)))
          ("esi-fragment-" +:+ pretty (S (fragmentCounter (this s)))) e)
       (λ c s2, match c with
                | Normal _ =>
                    wp saveStats (λ c s3,
                      match c with
                      | Normal _ =>
                          ∃ f, f_id f = S (fragmentCounter (this s)) ∧ f_url f = url ∧
                               f_resolvedUrl f = resolveUrl B url ∧
                               this s3 = recorded f (this s) ∧
                               storage s3 = saved (stats (this s3)) (storage s)
                      | Throw _ => False
                      end) s2
                | Throw _ => this s2 = this s0 ∧ storage s2 = storage s
                end) s1).
  { intros e s1 Ht Hs. eapply wp_mono; [apply fetch_failed_this|].
    intros [[]|] s2; [|by intros [??]; split; congruence]. intros [Hsto [ts Hthis]].
    apply (Hfinish s2 (mkFragment (S (fragmentCounter (this s))) url (resolveUrl B url)
                         false (Some e) ts)); [done..|congruence|].
    rewrite Hthis, Ht. done. }
  apply wp_bind.
  apply wp_mono with (Q := λ c s1,
    match c with
    | Normal _ =>
        wp saveStats (λ c s3,
          match c with
          | Normal _ =>
              ∃ f, f_id f = S (fragmentCounter (this s)) ∧ f_url f = url ∧
                   f_resolvedUrl f = resolveUrl B url ∧
                   this s3 = recorded f (this s) ∧
                   storage s3 = saved (stats (this s3)) (storage s)
          | Throw _ => False
          end) s1
    | Throw _ => this s1 = this s0 ∧ storage s1 = storage s
    end); cycle 1.
  { intros [[]|e] s1; [|done]. unfold wp, saveStats, modify. by simpl. }
  apply wp_try_catch. unfold fetch_and_replace, Date_now.
  do 2 apply wp_bind_gets. apply wp_bind_modify. apply wp_bind_await.
  destruct (fetch B _ _) as [response|e]; [|by apply Hcatch].
  eapply wp_mono; [apply fetch_settled_this|].
  intros [[]|e] s1 [Hsto Hthis].
  - destruct Hthis as [ts Hthis].
    apply (Hfinish s1 (mkFragment (S (fragmentCounter (this s))) url (resolveUrl B url)
                         true None ts)); [done..|].
    rewrite Hthis. done.
  - by apply Hcatch.
Qed.

(** ** Invariants of a pass

    A property of the processor and the storage that survives the marking of
    a node, the recording of an outcome and [saveStats] survives each phase
    of a pass. *)

Section Invariant.
Variable B : Browser.
Variable I : State → Prop.
Hypothesis I_frame : ∀ s s1, this s1 = this s → storage s1 = storage s → I s → I s1.
Hypothesis I_mark : ∀ n s, I s → I (set_this (set_processedElements (λ X, {[n]} ∪ X)) s).
Hypothesis I_recorded : ∀ f s s1,
  I s → f_id f = S (fragmentCounter (this s)) →
  this s1 = recorded f (this s) →
  storage s1 = saved (stats (this s1)) (storage s) → I s1.

Lemma preserved_bind {A C} (m : M A) (k : A → M C) :
  preserved I m → (∀ a, preserved I (k a)) → preserved I (bind m k).
Proof.
  intros Hm Hk s Hs. apply wp_bind. eapply wp_mono; [by apply Hm|].
  intros [a|e] s1 H1; [by apply Hk|done].
Qed.

Lemma preserved_frame {A} (m : M A) : frame m → preserved I m.
Proof.
  intros Hm s Hs. apply wp_frame; [done|].
  intros [a|e] s1 ??; [|done]. by apply (I_frame s).
Qed.

Lemma preserved_for_of {A} (l : list A) body :
  (∀ x, preserved I (body x)) → preserved I (for_of l body).
Proof.
  intros Hb s Hs. apply (wp_for_of I); [done| |done].
  intros x s1 _ H1. by apply Hb.
Qed.

Lemma preserved_mark n : preserved I (mark_processed n).
Proof. intros s Hs. by apply I_mark. Qed.

Lemma preserved_fetchAndReplaceESI element url oc tb :
  preserved I (fetchAndReplaceESI B element url oc tb).
Proof.
  intros s Hs. eapply wp_mono; [apply fetchAndReplaceESI_this|].
  intros c s1. destruct (DOM.parentOf _ _).
  - destruct c; [|done]. intros (f & Hid & _ & _ & Ht & Hsto). by eapply I_recorded.
  - intros [-> ->]. done.
Qed.

Ltac preserved_step :=
  match goal with
  | |- preserved _ (bind _ _) => apply preserved_bind; [|intros ?]
  | |- preserved _ (for_of _ _) => apply preserved_for_of; intros ?
  | |- preserved _ (mark_processed _) => apply preserved_mark
  | |- preserved _ (fetchAndReplaceESI _ _ _ _ _) => apply preserved_fetchAndReplaceESI
  | |- preserved _ (match ?x with _ => _ end) => destruct x
  | |- preserved _ (if ?b then _ else _) => destruct b
  | |- preserved _ _ => solve [apply preserved_frame; unfold is_processed; auto with frame]
  end.

Lemma preserved_process_try_block tryBlock : preserved I (process_try_block B tryBlock).
Proof. unfold process_try_block. repeat preserved_step. Qed.

Lemma preserved_processESITryBlocks : preserved I (processESITryBlocks B).
Proof.
  unfold processESITryBlocks. repeat preserved_step. apply preserved_process_try_block.
Qed.

Lemma preserved_process_standalone_tag tag : preserved I (process_standalone_tag B tag).
Proof. unfold process_standalone_tag. repeat preserved_step. Qed.

Lemma preserved_processStandaloneESITags : preserved I (processStandaloneESITags B).
Proof.
  unfold processStandaloneESITags. repeat preserved_step.
  apply preserved_process_standalone_tag.
Qed.

Lemma preserved_processESIComment commentNode : preserved I (processESIComment B commentNode).
Proof. unfold processESIComment. repeat preserved_step. Qed.

Lemma preserved_process_comment_node commentNode :
  preserved I (process_comment_node B commentNode).
Proof.
  unfold process_comment_node. repeat preserved_step. apply preserved_processESIComment.
Qed.

Lemma preserved_processESIComments : preserved I (processESIComments B).
Proof.
  unfold processESIComments. repeat preserved_step.
  apply preserved_process_comment_node.
Qed.

(** The three phases of a pass, one after the other. *)
Lemma preserved_phases :
  preserved I (processESITryBlocks B ;; processStandaloneESITags B ;; processESIComments B).
Proof.
  repeat preserved_step;
    auto using preserved_processESITryBlocks, preserved_processStandaloneESITags,
      preserved_processESIComments.
Qed.

(** The whole pass: the set of processed nodes is emptied, the phases run,
    and the statistics are saved. *)
Lemma preserved_processESI s :
  I s →
  I (set_this (set_processedElements (λ _, ∅)) s) →
  (∀ s1, I s1 → I (saveStats s1).2) →
  wp (processESI B) (λ c s1, match c with Normal _ => I s1 | Throw _ => True end) s.
Proof.
  intros Hs Hclear Hsave. unfold processESI. apply wp_bind_gets.
  destruct (enabled (this s)); simpl; [|done].
  apply wp_bind_modify.
  pose proof (preserved_phases _ Hclear) as Hwp. revert Hwp.
  unfold wp, bind.
  destruct (processESITryBlocks B _) as [[[]|e] s1]; simpl; [|done].
  destruct (processStandaloneESITags B _) as [[[]|e] s2]; simpl; [|done].
  destruct (processESIComments B _) as [[[]|e] s3]; simpl; [|done].
  apply Hsave.
Qed.

End Invariant.

(** * The statistics *)

Lemma consistent_recorded f p : consistent (stats p) → consistent (stats (recorded f p)).
Proof. unfold consistent. simpl. destruct (f_success f); lia. Qed.



(** C2, the statement as it stands fails: on the page of
    [Example.comment_try_page] the scan of the comment phase finds two
    directives, the try block of comment 3 and the include of comment 4, and
    marks both as processed; the replacement of the try block detaches
    comment 4 before its turn comes, and [total] ends at 1. *)
Lemma detached_directive_is_not_counted :
  let s := Example.state_of Example.comment_try_page in
  let s1 := (processESI Example.browser s).2 in
  esi_comments (document s) (this s) 1 = [3; 4] ∧
  RegExp.match_include_src (DOM.valueOf (document s) 3) = Some "/a.html" ∧
  RegExp.match_src (DOM.valueOf (document s) 4) = Some "/b.html" ∧
  elements (processedElements (this s1)) ≡ₚ [3; 4] ∧
  total (stats (this s1)) = 1 ∧
  total (stats (this s1)) ≠ length (esi_comments (document s) (this s) 1).
Proof. vm_compute. repeat split; try done. apply perm_swap. Qed.

(** C2, amended.  A directive whose anchor still has a parent when its
    fetch-and-replace starts adds exactly one to [total], whatever happens
    next; a directive whose anchor has no parent by then is skipped and
    [total] stays as it is.  From the point where the fetch has settled,
    with a response or with an error, nothing changes [total] any more,
    whatever the state of the page at that point, an anchor that was
    detached in the meantime included. *)
Theorem directive_counted_once_if_attached (B : Browser) element url oc tb (s : State) :
  total (stats (this (fetchAndReplaceESI B element url oc tb s).2)) =
    match DOM.parentOf (document s) element with
    | Some _ => S (total (stats (this s)))
    | None => total (stats (this s))
    end ∧
  (∀ fragmentId marker response,
     total (stats (this
       (try_catch (fetch_settled B element url oc tb fragmentId marker response)
          (fetch_failed B element url oc tb fragmentId marker) s).2)) =
     total (stats (this s))) ∧
  (∀ fragmentId marker message,
     total (stats (this
       (fetch_failed B element url oc tb fragmentId marker message s).2)) =
     total (stats (this s))).
Proof.
  assert (Hfailed : ∀ fragmentId marker message s0,
     total (stats (this
       (fetch_failed B element url oc tb fragmentId marker message s0).2)) =
     total (stats (this s0))).
  { intros. pose proof (fetch_failed_this B element url oc tb fragmentId marker message s0)
      as H. unfold wp in H.
    destruct (fetch_failed _ _ _ _ _ _ _ _ _) as [[[]|e] s1]; simpl in *.
    - destruct H as [_ [ts ->]]. done.
    - destruct H as [-> _]. done. }
  split; [|split; [|done]].
  - pose proof (fetchAndReplaceESI_this B element url oc tb s) as H. unfold wp in H.
    destruct (DOM.parentOf (document s) element).
    + destruct (fetchAndReplaceESI _ _ _ _ _ _) as [[[]|e] s1]; simpl in *.
      * destruct H as (f & _ & _ & _ & -> & _). done.
      * destruct H as [-> _]. done.
    + destruct H as [_ ->]. done.
  - intros. unfold try_catch.
    pose proof (fetch_settled_this B element url oc tb fragmentId marker response s) as H.
    unfold wp in H.
    destruct (fetch_settled _ _ _ _ _ _ _ _ _) as [[[]|e] s1]; simpl in *.
    + destruct H as [_ [ts ->]]. done.
    + rewrite Hfailed. destruct H as [_ ->]. done.
Qed.

(** * The set of processed nodes *)

(** C7, the statement as it stands fails: a pass that starts while the
    engine is enabled empties the set.  Node 7 is in the set before the pass
    over a page without directives and is not in it afterwards, though the
    statistics were not cleared and the page is the same. *)
Lemma pass_empties_processed_set :
  let s := set_this (set_processedElements (λ _, {[7]}))
             (Example.state_of Example.bare_try_page) in
  let s1 := (processESI Example.browser s).2 in
  (7 ∈ processedElements (this s)) ∧
  (7 ∉ processedElements (this s1)) ∧
  stats (this s1) = stats (this s) ∧
  fragmentCounter (this s1) = fragmentCounter (this s).
Proof.
  split; [|split; [|split]].
  - apply (bool_decide_unpack _). by vm_compute.
  - intros H. apply (bool_decide_pack _) in H. by vm_compute in H.
  - by vm_compute.
  - by vm_compute.
Qed.

Lemma on_changed_processed a b c s :
  processedElements (this (on_changed a b c s).2) = processedElements (this s).
Proof. by destruct a, b, c. Qed.

(** C7, amended.  The set of processed nodes is emptied by [clearStats] and
    at the start of every pass that runs while the engine is enabled, so
    that the pass goes as it would from an empty set; a pass that finds the
    engine disabled changes nothing.  Within a pass the set only grows: the
    three phases, whenever they complete, leave in it every node that was in
    it, and one fetch-and-replace leaves it as it is.  Every other event
    (a jump to a fragment, a change of the settings, the removal of the
    statistics from storage, a script timer) leaves it as it is. *)
Theorem processed_set_cleared_by_pass_and_clear (B : Browser) (s : State) :
  processedElements (this (clearStats s).2) = ∅ ∧
  (enabled (this s) = true →
   processESI B s = processESI B (set_this (set_processedElements (λ _, ∅)) s)) ∧
  (enabled (this s) = false → processESI B s = (Normal tt, s)) ∧
  (∀ X : gset nat,
     X ⊆ processedElements (this s) →
     wp (processESITryBlocks B ;; processStandaloneESITags B ;; processESIComments B)
       (λ c s1, c = Normal tt → X ⊆ processedElements (this s1)) s) ∧
  (∀ element url oc tb,
     processedElements (this (fetchAndReplaceESI B element url oc tb s).2) =
     processedElements (this s)) ∧
  (∀ e, e ≠ ClearStatsMessage → e ≠ PassTimer →
     processedElements (this (handle B e s).2) = processedElements (this s)).
Proof.
  repeat split.
  - intros He. unfold processESI, bind, gets. simpl. rewrite He. done.
  - intros He. unfold processESI, bind, gets. simpl. rewrite He. done.
  - intros X HX.
    eapply wp_mono;
      [apply (preserved_phases B (λ s1, X ⊆ processedElements (this s1))); [| | |done]|].
    + intros ?? -> _. done.
    + intros n s0 H0. simpl. set_solver.
    + intros f s0 s1 H0 _ -> _. done.
    + intros [[]|e] s1; [done|]. discriminate.
  - intros element url oc tb.
    pose proof (fetchAndReplaceESI_this B element url oc tb s) as H. unfold wp in H.
    destruct (DOM.parentOf (document s) element).
    + destruct (fetchAndReplaceESI _ _ _ _ _ _) as [[[]|e] s1]; simpl in *.
      * destruct H as (f & _ & _ & _ & -> & _). done.
      * destruct H as [-> _]. done.
    + destruct H as [_ ->]. done.
  - intros e H1 H2. unfold handle, try_catch.
    destruct e; try done.
    + destruct (frame_jumpToFragment fragmentId s) as [Ht _].
      destruct (jumpToFragment fragmentId s) as [[[]|e] s1]; simpl in *;
        by rewrite Ht.
    + pose proof (on_changed_processed esiEnabled newCustomHeaders newExecuteScripts s).
      destruct (on_changed _ _ _ s) as [[[]|e] s1]; simpl in *; done.
    + unfold fire_script_timer.
      assert (Hf : frame (pending <- gets timers ;;
                   match pending with
                   | [] => ret tt
                   | t :: rest =>
                       modify (λ s, mkState (this s) (document s) (storage s) (clock s) rest) ;;
                       run_scripts B t
                   end)).
      { apply frame_bind; [auto with frame|]. intros [|t rest]; [auto with frame|].
        apply frame_bind; [done|]. intros _. auto with frame. }
      destruct (Hf s) as [Ht _].
      destruct (bind (gets timers) _ s) as [[[]|e] s1]; simpl in *; by rewrite Ht.
Qed.

Lemma processed_set_cleared_by_pass_and_clear_witness :
  let s := set_this (set_processedElements (λ _, {[7]}))
             (Example.state_of Example.bare_try_page) in
  processESI Example.browser s =
  processESI Example.browser (set_this (set_processedElements (λ _, ∅)) s).
Proof.
  refine (proj1 (proj2 (processed_set_cleared_by_pass_and_clear Example.browser
    (set_this (set_processedElements (λ _, {[7]}))
       (Example.state_of Example.bare_try_page)))) _).
  reflexivity.
Defined.

(** * Comments that open a try block without an include *)

(** C10.  A comment whose text holds the marker [<esi:try>] and in which the
    pattern of an include tag with a quoted [src] finds no match is collected
    by the scan of the comment phase when it is an unprocessed comment of the
    page, and its turn in the loop does one thing: it adds the comment to the
    set of processed nodes.  No fetch is issued (the clock of the fetches has
    not moved), no fragment is recorded, the counters and the storage are as
    before, and the page, this comment included, is unchanged. *)
Theorem bare_try_comment_only_marked (B : Browser) (commentNode : NodeId) (s : State) :
  JS.includes (DOM.valueOf (document s) commentNode) "<esi:try>" = true →
  RegExp.match_include_src (DOM.valueOf (document s) commentNode) = None →
  (commentNode ∉ processedElements (this s)) →
  (∀ root, commentNode ∈ DOM.commentsAfter (document s) root root →
           commentNode ∈ esi_comments (document s) (this s) root) ∧
  process_comment_node B commentNode s =
    (Normal tt, set_this (set_processedElements (λ X, {[commentNode]} ∪ X)) s) ∧
  let s1 := (process_comment_node B commentNode s).2 in
  (commentNode ∈ processedElements (this s1)) ∧
  stats (this s1) = stats (this s) ∧
  fragmentCounter (this s1) = fragmentCounter (this s) ∧
  document s1 = document s ∧
  storage s1 = storage s ∧
  clock s1 = clock s.
Proof.
  intros Htry Hnone Hnew.
  assert (Hrun : process_comment_node B commentNode s =
    (Normal tt, set_this (set_processedElements (λ X, {[commentNode]} ∪ X)) s)).
  { unfold process_comment_node, bind, is_processed, gets, mark_processed, modify.
    rewrite bool_decide_eq_false_2 by done.
    unfold processESIComment, bind, gets. simpl. rewrite Htry, Hnone. done. }
  split; [|split; [done|]].
  - intros root Hin. unfold esi_comments. apply list_elem_of_filter. split; [|done].
    split; [done|].
    rewrite Htry, orb_true_r, andb_true_r.
    unfold JS.truthy. destruct (DOM.valueOf (document s) commentNode); [|done].
    by vm_compute in Htry.
  - rewrite Hrun. simpl. repeat split. set_solver.
Qed.

Lemma bare_try_comment_only_marked_witness :
  process_comment_node Example.browser 3 (Example.state_of Example.bare_try_page) =
    (Normal tt,
     set_this (set_processedElements (λ X, {[3]} ∪ X))
       (Example.state_of Example.bare_try_page)).
Proof.
  refine (proj1 (proj2 (bare_try_comment_only_marked Example.browser 3
            (Example.state_of Example.bare_try_page) _ _ _))).
  - by vm_compute.
  - by vm_compute.
  - intros H. apply (bool_decide_pack _) in H. by vm_compute in H.
Defined.

(** * Scripts of a fragment *)

(** C9, evaluated where the code departs from the statement.  The timer of
    a fragment holds an external script whose load fails, then an inline
    script.  The external script is set up and appended (node 5, the third
    child of the container), its failed load rejects the promise that
    [executeScript] returned, the [await] of the loop throws, and the loop
    ends there: the error escapes the callback and no element is ever
    created for the inline script.  The processor, and with it the recorded
    status of every fragment, is as before. *)
Theorem failed_script_load_aborts_the_rest :
  let s := Example.state_of Example.bare_try_page in
  let r := run_scripts Example.browser (mkTimer Example.two_scripts 2) s in
  r.1 = Throw "undefined" ∧
  DOM.childrenOf (document r.2) 2 = [3; 4; 5] ∧
  DOM.getAttribute (document r.2) 5 "src" = Some "https://h/broken.js" ∧
  nextNode (document r.2) = 6 ∧
  nodes (document r.2) !! 6 = None ∧
  this r.2 = this s ∧
  r = run_scripts Example.browser (mkTimer (take 1 Example.two_scripts) 2) s.
Proof. by vm_compute. Qed.

(** * The URL resolver *)

Lemma app_cons a s t : String a s +:+ t = String a (s +:+ t).
Proof. reflexivity. Qed.

Lemma app_empty t : EmptyString +:+ t = t.
Proof. reflexivity. Qed.

Lemma prefix_app p rest : String.prefix p (p +:+ rest) = true.
Proof.
  induction p as [|a p IH]; [by destruct rest|].
  rewrite app_cons. cbn [String.prefix].
  destruct (ascii_dec a a); [done|congruence].
Qed.

Lemma prefix_char c a s :
  String.prefix (String c EmptyString) (String a s) = bool_decide (a = c).
Proof.
  cbn [String.prefix]. destruct (ascii_dec c a) as [->|Hne].
  - rewrite bool_decide_eq_true_2 by done. by destruct s.
  - rewrite bool_decide_eq_false_2 by congruence. done.
Qed.

Lemma includes_slash_cons a s :
  JS.includes (String a s) "/" = bool_decide (a = "/"%char) || JS.includes s "/".
Proof. cbn [JS.includes]. by rewrite prefix_char. Qed.

Lemma lastIndexOf_from_absent i s last :
  JS.includes s "/" = false → JS.lastIndexOf_from i "/" s last = last.
Proof.
  revert i last. induction s as [|a s IH]; intros i last H;
    cbn [JS.lastIndexOf_from]; [done|].
  rewrite includes_slash_cons in H. apply orb_false_iff in H as [Ha Hs].
  apply bool_decide_eq_false in Ha. rewrite decide_False by done. by apply IH.
Qed.

Lemma lastIndexOf_from_dir i dir file last :
  JS.includes file "/" = false →
  JS.lastIndexOf_from i "/" ((dir +:+ "/") +:+ file) last =
  Z.of_nat (i + String.length dir).
Proof.
  intros Hfile. revert i last.
  induction dir as [|a dir IH]; intros i last;
    repeat (rewrite app_cons || rewrite app_empty); cbn [JS.lastIndexOf_from String.length].
  - rewrite decide_True by done. rewrite lastIndexOf_from_absent by done. f_equal. lia.
  - rewrite IH. f_equal. lia.
Qed.

Lemma substring_app_l s rest : String.substring 0 (String.length s) (s +:+ rest) = s.
Proof.
  induction s as [|a s IH]; repeat (rewrite app_cons || rewrite app_empty);
    cbn [String.length String.substring]; [by destruct rest|]. by rewrite IH.
Qed.

Lemma string_length_app s t : String.length (s +:+ t) = String.length s + String.length t.
Proof. induction s; repeat (rewrite app_cons || rewrite app_empty); simpl; auto. Qed.

(** The directory of an address: with [href = dir/file], where [file] holds
    no slash, the text up to and including the last slash is [dir/]; without
    any slash it is empty. *)
Lemma basePath_dir dir file :
  JS.includes file "/" = false →
  JS.substring0 ((dir +:+ "/") +:+ file) (JS.lastIndexOf ((dir +:+ "/") +:+ file) "/" + 1) =
  dir +:+ "/".
Proof.
  intros Hfile. unfold JS.lastIndexOf, JS.substring0.
  rewrite lastIndexOf_from_dir by done. simpl.
  replace (Z.to_nat (Z.of_nat (String.length dir) + 1)) with (String.length (dir +:+ "/")).
  - apply substring_app_l.
  - rewrite string_length_app. simpl. lia.
Qed.

Lemma basePath_none file :
  JS.includes file "/" = false →
  JS.substring0 file (JS.lastIndexOf file "/" + 1) = EmptyString.
Proof.
  intros Hfile. unfold JS.lastIndexOf, JS.substring0.
  rewrite lastIndexOf_from_absent by done. simpl. by destruct file.
Qed.

(** C5.  [resolveUrl] applies its rules in this order: (a) a reference that
    begins with [http://] or [https://] is returned as it is; (b) one that
    begins with [//] gets the protocol of the page in front; (c) any other is
    handed to the URL parser with the address of the page as base, and the
    parser's answer is the result; when the parser fails, (d) a reference
    that begins with [/] gets the origin of the page in front and (e) any
    other is appended to the address of the page cut after its last slash.
    The function is total and its value is a string.  On the page
    [https://h/a/b/], with a parser that follows the URL Standard,
    [../x.html] resolves to [https://h/a/x.html]. *)
Theorem resolveUrl_rules (B : Browser) :
  (∀ rest, resolveUrl B ("http://" +:+ rest) = "http://" +:+ rest) ∧
  (∀ rest, resolveUrl B ("https://" +:+ rest) = "https://" +:+ rest) ∧
  (∀ rest, resolveUrl B ("//" +:+ rest) = location_protocol B +:+ "//" +:+ rest) ∧
  (∀ raw href,
     String.prefix "http://" raw = false → String.prefix "https://" raw = false →
     String.prefix "//" raw = false →
     URL B raw (location_href B) = Some href → resolveUrl B raw = href) ∧
  (∀ rest,
     String.prefix "/" rest = false →
     URL B ("/" +:+ rest) (location_href B) = None →
     resolveUrl B ("/" +:+ rest) = location_origin B +:+ "/" +:+ rest) ∧
  (∀ raw dir file,
     String.prefix "http://" raw = false → String.prefix "https://" raw = false →
     String.prefix "/" raw = false →
     URL B raw (location_href B) = None →
     location_href B = (dir +:+ "/") +:+ file → JS.includes file "/" = false →
     resolveUrl B raw = (dir +:+ "/") +:+ raw) ∧
  resolveUrl Example.browser "../x.html" = "https://h/a/x.html".
Proof.
  repeat split.
  - intros rest. unfold resolveUrl. by rewrite (prefix_app "http://").
  - intros rest. unfold resolveUrl. rewrite (prefix_app "https://"). by rewrite orb_true_r.
  - intros rest. unfold resolveUrl, JS.startsWith. by rewrite (prefix_app "//").
  - intros raw href H1 H2 H3 HU. unfold resolveUrl, JS.startsWith.
    by rewrite H1, H2, H3, HU.
  - intros rest Hrest HU. unfold resolveUrl, JS.startsWith. rewrite HU.
    rewrite (prefix_app "/").
    assert (String.prefix "http://" ("/" +:+ rest) = false) as -> by done.
    assert (String.prefix "https://" ("/" +:+ rest) = false) as -> by done.
    assert (String.prefix "//" ("/" +:+ rest) = false) as ->; [|done].
    destruct rest as [|a rest]; [done|].
    rewrite prefix_char in Hrest. apply bool_decide_eq_false in Hrest.
    repeat (rewrite app_cons || rewrite app_empty). cbn [String.prefix].
    destruct (ascii_dec "/" "/"); [|done].
    destruct (ascii_dec "/" a); [congruence|done].
  - intros raw dir file H1 H2 H3 HU Hhref Hfile. unfold resolveUrl, JS.startsWith.
    rewrite H1, H2, HU, H3. simpl.
    assert (String.prefix "//" raw = false) as ->.
    { destruct raw as [|a raw]; [done|].
      rewrite prefix_char in H3. apply bool_decide_eq_false in H3.
      cbn [String.prefix]. destruct (ascii_dec "/" a); [congruence|done]. }
    rewrite Hhref. by rewrite basePath_dir.
Qed.

Lemma resolveUrl_rules_witness :
  resolveUrl Example.browser "x.html" = "https://h/a/b/x.html".
Proof.
  refine (proj1 (proj2 (proj2 (proj2 (resolveUrl_rules Example.browser))))
            "x.html" "https://h/a/b/x.html" _ _ _ _); by vm_compute.
Defined.

(** * Fragment ids *)

(** ** Computations that do not read the storage *)

Lemma oblivious_ret {A} (a : A) : oblivious (ret a).
Proof. done. Qed.

Lemma oblivious_throw {A} e : oblivious (@throw A e).
Proof. done. Qed.

Lemma oblivious_await {A} (c : Completion A) : oblivious (await c).
Proof. done. Qed.

Lemma oblivious_gets {A} (f : State → A) :
  (∀ s t, same_but_storage s t → f s = f t) → oblivious (gets f).
Proof. intros Hf s t Hst. split; simpl; [by rewrite (Hf s t)|done]. Qed.

Lemma oblivious_modify f :
  (∀ s t, same_but_storage s t → same_but_storage (f s) (f t)) → oblivious (modify f).
Proof. intros Hf s t Hst. split; simpl; auto. Qed.

Lemma oblivious_dom {A} (f : Document → A * Document) : oblivious (dom f).
Proof.
  intros s t (Ht & Hd & Hc & Hti). unfold dom. rewrite Hd.
  destruct (f (document t)) as [a d]. by repeat split.
Qed.

Lemma oblivious_bind {A C} (m : M A) (k : A → M C) :
  oblivious m → (∀ a, oblivious (k a)) → oblivious (bind m k).
Proof.
  intros Hm Hk s t Hst. unfold bind. destruct (Hm s t Hst) as [Hc Hs].
  destruct (m s) as [[a|e] s1], (m t) as [[b|e'] t1]; simpl in *;
    try discriminate; [|injection Hc as ->; by split].
  injection Hc as ->. by apply Hk.
Qed.

Lemma oblivious_try_catch {A} (body : M A) handler :
  oblivious body → (∀ e, oblivious (handler e)) → oblivious (try_catch body handler).
Proof.
  intros Hm Hk s t Hst. unfold try_catch. destruct (Hm s t Hst) as [Hc Hs].
  destruct (body s) as [[a|e] s1], (body t) as [[b|e'] t1]; simpl in *;
    try discriminate; [by split|].
  injection Hc as ->. by apply Hk.
Qed.

Lemma oblivious_for_of {A} (l : list A) body :
  (∀ x, oblivious (body x)) → oblivious (for_of l body).
Proof.
  intros Hb. induction l as [|x l IH]; simpl; [apply oblivious_ret|].
  apply oblivious_bind; auto.
Qed.

Ltac oblivious_step :=
  match goal with
  | |- oblivious (bind _ _) => apply oblivious_bind; [|intros ?]
  | |- oblivious (try_catch _ _) => apply oblivious_try_catch; [|intros ?]
  | |- oblivious (for_of _ _) => apply oblivious_for_of; intros ?
  | |- oblivious (ret _) => apply oblivious_ret
  | |- oblivious (throw _) => apply oblivious_throw
  | |- oblivious (await _) => apply oblivious_await
  | |- oblivious (dom _) => apply oblivious_dom
  | |- oblivious (gets _) =>
      apply oblivious_gets;
      let Ht := fresh in let Hd := fresh in let Hc := fresh in let Hti := fresh in
      intros ?? (Ht & Hd & Hc & Hti); simpl; rewrite ?Ht, ?Hd, ?Hc, ?Hti; reflexivity
  | |- oblivious (modify _) =>
      apply oblivious_modify; intros ?? (? & ? & ? & ?);
      repeat split; simpl; congruence
  | |- oblivious (match ?x with _ => _ end) => destruct x
  | |- oblivious (if ?b then _ else _) => destruct b
  end.

Ltac solve_oblivious :=
  unfold dom_, tick, setTimeout, Date_now, is_processed, mark_processed, push_fragment,
    saveStats;
  repeat oblivious_step.

Lemma oblivious_replaceESIElement element replacement oc tb :
  oblivious (replaceESIElement element replacement oc tb).
Proof. unfold replaceESIElement, replaceCommentTryBlock. solve_oblivious. Qed.

Lemma oblivious_fetchAndReplaceESI B element url oc tb :
  oblivious (fetchAndReplaceESI B element url oc tb).
Proof.
  unfold fetchAndReplaceESI, fetch_and_replace, fetch_settled, fetch_failed,
    extractAndExecuteScripts.
  solve_oblivious; apply oblivious_replaceESIElement.
Qed.

Lemma oblivious_processESI B : oblivious (processESI B).
Proof.
  unfold processESI, processESITryBlocks, processStandaloneESITags, processESIComments,
    process_try_block, process_standalone_tag, process_comment_node, processESIComment.
  solve_oblivious; apply oblivious_fetchAndReplaceESI.
Qed.

(** ** The ids that a pass hands out *)

Lemma seq_sorted a n : StronglySorted lt (seq a n).
Proof.
  revert a. induction n as [|n IH]; intros a; simpl; constructor; [apply IH|].
  apply Forall_forall. intros x Hx%elem_of_seq. lia.
Qed.

Lemma max_bounds (l : list nat) : Forall (λ i, (i ≤ foldr Nat.max 0 l)%nat) l.
Proof.
  induction l as [|x l IH]; simpl; constructor; [lia|].
  eapply Forall_impl; [exact IH|]. simpl. intros. lia.
Qed.

(** The fragments that a completed pass adds have consecutive ids, from the
    counter plus one on. *)
Lemma pass_appends_consecutive_ids B s :
  wp (processESI B)
    (λ c s1, c = Normal tt →
       ∃ new, fragments (stats (this s1)) = fragments (stats (this s)) ++ new ∧
              ids new = seq (S (fragmentCounter (this s))) (length new) ∧
              fragmentCounter (this s1) = fragmentCounter (this s) + length new) s.
Proof.
  eapply wp_mono;
    [apply (preserved_processESI B (λ s1,
       ∃ new, fragments (stats (this s1)) = fragments (stats (this s)) ++ new ∧
              ids new = seq (S (fragmentCounter (this s))) (length new) ∧
              fragmentCounter (this s1) = fragmentCounter (this s) + length new))|].
  - intros ?? -> _. done.
  - done.
  - intros f s0 s1 (new & Hf & Hids & Hc) Hid -> _. exists (new ++ [f]). simpl.
    rewrite Hf, length_app. simpl. split; [by rewrite app_assoc|]. split; [|lia].
    unfold ids in *. rewrite fmap_app, Hids. simpl.
    rewrite Nat.add_1_r, seq_S. repeat f_equal. rewrite Hid, Hc. lia.
  - exists []. simpl. by rewrite app_nil_r, Nat.add_0_r.
  - exists []. simpl. by rewrite app_nil_r, Nat.add_0_r.
  - done.
  - intros [[]|e] s1; [done|]. discriminate.
Qed.

(** C6.  The counter of fragment ids is seeded by [loadStats] with the
    largest id of the restored history when there is one and is left at its
    value, 0 in a new instance, when there is none; every id of the restored
    history is then at most the counter.  A directive is given the counter
    plus one as its id, so the first id after the start is the largest
    restored id plus one, or 1.  The fragments that a completed pass records
    have consecutive ids from the counter plus one on: they increase strictly
    and, when no earlier id exceeds the counter and the earlier ids increase,
    so does the whole history.  After [clearStats] the ids of a completed
    pass are 1, 2, and so on, and two processors with the same settings, on
    the same page at the same time, record the same fragments after
    [clearStats], whatever their histories were. *)
Theorem fragment_ids_are_counter_plus_one (B : Browser) (s : State) :
  (fragmentCounter (this (loadStats s).2) =
     match st_esiStats (storage s) with
     | Some restored => foldr Nat.max 0 (ids (fragments restored))
     | None => fragmentCounter (this s)
     end) ∧
  (∀ restored, st_esiStats (storage s) = Some restored →
     Forall (λ i, (i ≤ fragmentCounter (this (loadStats s).2))%nat)
       (ids (fragments (stats (this (loadStats s).2))))) ∧
  (∀ element url oc tb,
     is_Some (DOM.parentOf (document s) element) →
     (fetchAndReplaceESI B element url oc tb s).1 = Normal tt →
     ∃ f, fragments (stats (this (fetchAndReplaceESI B element url oc tb s).2)) =
            fragments (stats (this s)) ++ [f] ∧
          f_id f = S (fragmentCounter (this s))) ∧
  ((processESI B s).1 = Normal tt →
   ∃ new,
     fragments (stats (this (processESI B s).2)) = fragments (stats (this s)) ++ new ∧
     ids new = seq (S (fragmentCounter (this s))) (length new) ∧
     StronglySorted lt (ids new) ∧
     (Forall (λ i, (i ≤ fragmentCounter (this s))%nat) (ids (fragments (stats (this s)))) →
      StronglySorted lt (ids (fragments (stats (this s)))) →
      StronglySorted lt (ids (fragments (stats (this (processESI B s).2)))))) ∧
  (let s1 := (clearStats s).2 in
   (processESI B s1).1 = Normal tt →
   ids (fragments (stats (this (processESI B s1).2))) =
     seq 1 (length (fragments (stats (this (processESI B s1).2))))) ∧
  (∀ t : State,
     same_settings (this s) (this t) → document s = document t →
     clock s = clock t → timers s = timers t →
     (processESI B (clearStats s).2).1 = (processESI B (clearStats t).2).1 ∧
     fragments (stats (this (processESI B (clearStats s).2).2)) =
     fragments (stats (this (processESI B (clearStats t).2).2))).
Proof.
  split; [|split; [|split; [|split; [|split]]]].
  - unfold loadStats, bind, gets. simpl. by destruct (st_esiStats (storage s)).
  - intros restored Hr. unfold loadStats, bind, gets. simpl. rewrite Hr. simpl.
    apply max_bounds.
  - intros element url oc tb [p Hp] Hc.
    pose proof (fetchAndReplaceESI_this B element url oc tb s) as H. unfold wp in H.
    rewrite Hp, Hc in H. destruct H as (f & Hid & _ & _ & -> & _). by exists f.
  - intros Hc. pose proof (pass_appends_consecutive_ids B s) as H. unfold wp in H.
    destruct (H Hc) as (new & Hf & Hids & Hcount). exists new.
    split; [done|]. split; [done|]. split; [rewrite Hids; apply seq_sorted|].
    intros Hle Hsorted. rewrite Hf. unfold ids in *. rewrite fmap_app.
    apply StronglySorted_app_2; [|done|rewrite Hids; apply seq_sorted].
    intros x1 x2 H1 H2. rewrite Hids in H2. apply elem_of_seq in H2.
    rewrite Forall_forall in Hle. specialize (Hle x1 H1). simpl in Hle. lia.
  - intros s1 Hc. pose proof (pass_appends_consecutive_ids B s1) as H. unfold wp in H.
    destruct (H Hc) as (new & Hf & Hids & _). rewrite Hf. simpl. by rewrite Hids.
  - intros t (He & Hh & Hfh & Hfc & Hx) Hd Hcl Hti.
    assert (Hsame : same_but_storage (clearStats s).2 (clearStats t).2).
    { repeat split; simpl; try done. unfold set_processedElements, set_fragmentCounter,
        set_stats. simpl. by rewrite He, Hh, Hfh, Hfc, Hx. }
    destruct (oblivious_processESI B _ _ Hsame) as [Hc (Ht & _)].
    split; [done|]. by rewrite Ht.
Qed.

Lemma fragment_ids_are_counter_plus_one_witness :
  let s := Example.state_of Example.element_try_page in
  ids (fragments (stats (this (processESI Example.browser (clearStats s).2).2))) =
    seq 1 (length (fragments (stats (this
      (processESI Example.browser (clearStats s).2).2)))).
Proof.
  refine (proj1 (proj2 (proj2 (proj2 (proj2
    (fragment_ids_are_counter_plus_one Example.browser
       (Example.state_of Example.element_try_page)))))) _).
  by vm_compute.
Defined.

(** * The page *)

(** ** Updates of one node *)

Lemma nodes_update f n d x :
  nodes (DOM.update f n d) !! x =
  if decide (n = x) then f <$> nodes d !! x else nodes d !! x.
Proof. unfold DOM.update. simpl. rewrite lookup_alter. by case_decide; subst. Qed.

Lemma nextNode_update f n d : nextNode (DOM.update f n d) = nextNode d.
Proof. done. Qed.

Lemma size_update f n d : size (nodes (DOM.update f n d)) = size (nodes d).
Proof.
  unfold DOM.update. simpl.
  rewrite <- !(size_dom (D := gset nat)). by rewrite dom_alter_L.
Qed.

Lemma parentOf_update f n d x :
  (∀ y, parentNode (f y) = parentNode y) →
  DOM.parentOf (DOM.update f n d) x = DOM.parentOf d x.
Proof.
  intros Hf. unfold DOM.parentOf. rewrite nodes_update. case_decide; [|done].
  destruct (nodes d !! x); simpl; [apply Hf|done].
Qed.

Lemma childrenOf_update f n d x :
  (∀ y, childNodes (f y) = childNodes y) →
  DOM.childrenOf (DOM.update f n d) x = DOM.childrenOf d x.
Proof.
  intros Hf. unfold DOM.childrenOf. rewrite nodes_update. case_decide; [|done].
  destruct (nodes d !! x); simpl; [apply Hf|done].
Qed.

Lemma typeOf_update f n d x :
  (∀ y, nodeType (f y) = nodeType y) →
  DOM.typeOf (DOM.update f n d) x = DOM.typeOf d x.
Proof.
  intros Hf. unfold DOM.typeOf. rewrite nodes_update. case_decide; [|done].
  destruct (nodes d !! x); simpl; [by rewrite Hf|done].
Qed.

Lemma parentOf_set_parent n p d x :
  DOM.parentOf (DOM.set_parent n p d) x =
  if decide (n = x) then (if nodes d !! x is Some _ then p else None)
  else DOM.parentOf d x.
Proof.
  unfold DOM.set_parent, DOM.parentOf. rewrite nodes_update. case_decide; [|done].
  by destruct (nodes d !! x).
Qed.

Lemma childrenOf_set_children n cs d x :
  DOM.childrenOf (DOM.set_children n cs d) x =
  if decide (n = x) then (if nodes d !! x is Some _ then cs else [])
  else DOM.childrenOf d x.
Proof.
  unfold DOM.set_children, DOM.childrenOf. rewrite nodes_update. case_decide; [|done].
  by destruct (nodes d !! x).
Qed.

Lemma remove_detached n d : DOM.parentOf d n = None → DOM.remove n d = d.
Proof. intros H. unfold DOM.remove. by rewrite H. Qed.

(** ** Replacing a child *)

Section ReplaceChild.
Variables (d : Document) (parent newChild oldChild : NodeId).
Hypothesis new_detached : DOM.parentOf d newChild = None.

Lemma replaceChild_children :
  is_Some (nodes d !! parent) →
  DOM.childrenOf (DOM.replaceChild parent newChild oldChild d) parent =
  DOM.substitute oldChild newChild (DOM.childrenOf d parent).
Proof.
  intros [x Hx]. unfold DOM.replaceChild. rewrite remove_detached by done.
  unfold DOM.set_parent at 1 2.
  rewrite !childrenOf_update by done.
  rewrite childrenOf_set_children, decide_True by done. by rewrite Hx.
Qed.

Lemma replaceChild_parent_old :
  newChild ≠ oldChild →
  DOM.parentOf (DOM.replaceChild parent newChild oldChild d) oldChild = None.
Proof.
  intros Hne. unfold DOM.replaceChild. rewrite remove_detached by done.
  rewrite parentOf_set_parent, decide_False by done.
  rewrite parentOf_set_parent, decide_True by done.
  by destruct (nodes _ !! oldChild).
Qed.

Lemma replaceChild_parent_new :
  is_Some (nodes d !! newChild) →
  DOM.parentOf (DOM.replaceChild parent newChild oldChild d) newChild = Some parent.
Proof.
  intros [x Hx]. unfold DOM.replaceChild. rewrite remove_detached by done.
  rewrite parentOf_set_parent, decide_True by done.
  unfold DOM.set_parent, DOM.set_children. rewrite !nodes_update.
  repeat case_decide; by rewrite Hx.
Qed.

Lemma replaceChild_parent_other x :
  x ≠ newChild → x ≠ oldChild →
  DOM.parentOf (DOM.replaceChild parent newChild oldChild d) x = DOM.parentOf d x.
Proof.
  intros H1 H2. unfold DOM.replaceChild. rewrite remove_detached by done.
  rewrite !parentOf_set_parent, !decide_False by done.
  by apply parentOf_update.
Qed.

Lemma getAttribute_update f n d0 x name :
  (∀ y, attributes (f y) = attributes y) →
  DOM.getAttribute (DOM.update f n d0) x name = DOM.getAttribute d0 x name.
Proof.
  intros Hf. unfold DOM.getAttribute. rewrite nodes_update. case_decide; [|done].
  destruct (nodes d0 !! x); simpl; [by rewrite Hf|done].
Qed.

Lemma replaceChild_getAttribute x name :
  DOM.getAttribute (DOM.replaceChild parent newChild oldChild d) x name =
  DOM.getAttribute d x name.
Proof.
  unfold DOM.replaceChild. rewrite remove_detached by done.
  unfold DOM.set_parent, DOM.set_children. by rewrite !getAttribute_update.
Qed.

Lemma replaceChild_node_other x :
  x ≠ newChild → x ≠ oldChild → x ≠ parent →
  nodes (DOM.replaceChild parent newChild oldChild d) !! x = nodes d !! x.
Proof.
  intros H1 H2 H3. unfold DOM.replaceChild. rewrite remove_detached by done.
  unfold DOM.set_parent, DOM.set_children. rewrite !nodes_update.
  by rewrite !decide_False.
Qed.

End ReplaceChild.

(** ** New nodes leave the old ones alone *)

Lemma create_old x d k :
  k < nextNode d → nodes (DOM.create x d).2 !! k = nodes d !! k.
Proof. intros Hk. simpl. apply lookup_insert_ne. lia. Qed.

Lemma create_new x d : nodes (DOM.create x d).2 !! nextNode d = Some x.
Proof. simpl. apply lookup_insert_eq. Qed.

Lemma update_old f n d0 d k :
  nextNode d0 ≤ n → k < nextNode d0 →
  nodes (DOM.update f n d) !! k = nodes d !! k.
Proof. intros Hn Hk. rewrite nodes_update, decide_False; [done|lia]. Qed.

Lemma build_element parent name attrs children d :
  DOM.build parent (MElement name attrs children) d =
  let n := nextNode d in
  let r := DOM.build_all n children
             (DOM.create (mkNode ELEMENT_NODE name EmptyString attrs parent []) d).2 in
  (n, DOM.set_children n r.1 r.2).
Proof.
  cbn [DOM.build]. unfold DOM.create. cbv zeta. cbn [fst snd].
  generalize (mkDocument
    (<[nextNode d:=mkNode ELEMENT_NODE name EmptyString attrs parent []]> (nodes d))
    (S (nextNode d))).
  generalize (nextNode d). intros n d1.
  match goal with
  | |- (let '(cs, d2) := ?f children d1 in _) = _ =>
      assert (Hgo : ∀ d0, f children d0 = DOM.build_all n children d0)
  end.
  { induction children as [|c cs IH]; intros d0; [done|].
    cbn [DOM.build_all]. destruct (DOM.build (Some n) c d0) as [c' d']. by rewrite IH. }
  rewrite Hgo. by destruct (DOM.build_all n children d1).
Qed.

Lemma build_frame parent m d :
  nextNode d ≤ nextNode (DOM.build parent m d).2 ∧
  ∀ k, k < nextNode d → nodes (DOM.build parent m d).2 !! k = nodes d !! k.
Proof.
  revert parent d. induction m as [name attrs children IH|data|data]
    using Markup_induction; intros parent d.
  - rewrite build_element. cbv zeta. cbn [snd].
    set (n := nextNode d).
    set (d1 := (DOM.create _ d).2).
    assert (Hall : ∀ d2,
      nextNode d2 ≤ nextNode (DOM.build_all n children d2).2 ∧
      ∀ k, k < nextNode d2 → nodes (DOM.build_all n children d2).2 !! k = nodes d2 !! k).
    { clear -IH. induction IH as [|c cs Hc _ IHcs]; intros d2; simpl; [done|].
      destruct (Hc (Some n) d2) as (H1 & H2).
      destruct (DOM.build (Some n) c d2) as [c' d3]. simpl in *.
      destruct (IHcs d3) as (H3 & H4).
      destruct (DOM.build_all n cs d3) as [cs' d4]. simpl in *. split; [lia|].
      intros k Hk. rewrite H4 by lia. by apply H2. }
    destruct (Hall d1) as (H1 & H2).
    assert (Hd1 : nextNode d1 = S n) by done.
    split; [unfold DOM.set_children; rewrite nextNode_update; lia|]. intros k Hk.
    unfold DOM.set_children. rewrite nodes_update, decide_False by (subst n; lia).
    rewrite H2 by lia. subst d1. by apply create_old.
  - simpl. split; [lia|]. intros k Hk. apply lookup_insert_ne. lia.
  - simpl. split; [lia|]. intros k Hk. apply lookup_insert_ne. lia.
Qed.

Lemma build_all_frame parent ms d :
  nextNode d ≤ nextNode (DOM.build_all parent ms d).2 ∧
  ∀ k, k < nextNode d → nodes (DOM.build_all parent ms d).2 !! k = nodes d !! k.
Proof.
  revert d. induction ms as [|m ms IH]; intros d; simpl; [done|].
  destruct (build_frame (Some parent) m d) as (H1 & H2).
  destruct (DOM.build (Some parent) m d) as [c d1]. simpl in *.
  destruct (IH d1) as (H3 & H4).
  destruct (DOM.build_all parent ms d1) as [cs d2]. simpl in *.
  split; [lia|]. intros k Hk. rewrite H4 by lia. by apply H2.
Qed.

(** ** The error panel *)

Lemma nodes_setAttribute n name value d :
  nodes (DOM.setAttribute n name value d) !! n =
  (λ x, DOM.with_attributes (DOM.assoc_set name value (attributes x)) x) <$> nodes d !! n.
Proof. unfold DOM.setAttribute. by rewrite nodes_update, decide_True. Qed.

Lemma setAttribute_old n name value d k :
  k ≠ n → nodes (DOM.setAttribute n name value d) !! k = nodes d !! k.
Proof. intros. unfold DOM.setAttribute. by rewrite nodes_update, decide_False. Qed.

Lemma replaceChildren_fresh n ms d :
  DOM.childrenOf d n = [] → n < nextNode d →
  (∀ k, k < nextNode d → k ≠ n →
        nodes (DOM.replaceChildren n ms d) !! k = nodes d !! k) ∧
  nodes (DOM.replaceChildren n ms d) !! n =
    DOM.with_children (DOM.build_all n ms d).1 <$> nodes d !! n ∧
  nextNode d ≤ nextNode (DOM.replaceChildren n ms d).
Proof.
  intros Hcs Hn. unfold DOM.replaceChildren. rewrite Hcs. cbn [foldr].
  destruct (build_all_frame n ms d) as (H1 & H2).
  destruct (DOM.build_all n ms d) as [cs d2]. cbn [fst snd] in *.
  unfold DOM.set_children. split; [|split; [|by rewrite nextNode_update]].
  - intros k Hk Hne. rewrite nodes_update, decide_False by done. by apply H2.
  - rewrite nodes_update, decide_True by done. by rewrite H2.
Qed.

Lemma error_panel_spec B fragmentId marker url message d :
  let r := error_panel B fragmentId marker url message d in
  r.1 = nextNode d ∧
  (∀ k, k < nextNode d → nodes r.2 !! k = nodes d !! k) ∧
  nextNode d < nextNode r.2 ∧
  ∃ children, nodes r.2 !! nextNode d =
    Some (mkNode ELEMENT_NODE "div" EmptyString
      [("id", marker); ("class", "esi-error"); ("data-esi-fragment", "true");
       ("data-esi-url", url); ("data-esi-resolved-url", resolveUrl B url);
       ("style",
        "color: red; border: 1px solid red; padding: 10px; margin: 5px; background: #ffe6e6;")]
      None children).
Proof.
  unfold error_panel, DOM.createElement. cbn [DOM.create]. cbv zeta.
  set (n := nextNode d).
  set (d6 := DOM.setAttribute n "style" _ _).
  assert (Hnext : nextNode d6 = S n) by done.
  assert (Hold : ∀ k, k < n → nodes d6 !! k = nodes d !! k).
  { intros k Hk. subst d6. rewrite !setAttribute_old by lia. simpl.
    apply lookup_insert_ne. lia. }
  assert (Hnew : nodes d6 !! n =
    Some (mkNode ELEMENT_NODE "div" EmptyString
      [("id", marker); ("class", "esi-error"); ("data-esi-fragment", "true");
       ("data-esi-url", url); ("data-esi-resolved-url", resolveUrl B url);
       ("style",
        "color: red; border: 1px solid red; padding: 10px; margin: 5px; background: #ffe6e6;")]
      None [])).
  { subst d6. rewrite !nodes_setAttribute. simpl. rewrite lookup_insert_eq. done. }
  destruct (replaceChildren_fresh n (parseHTML B (error_markup fragmentId url message)) d6)
    as (H1 & H2 & H3).
  { unfold DOM.childrenOf. by rewrite Hnew. }
  { lia. }
  cbn [fst snd]. split; [done|]. split; [|split; [lia|]].
  - intros k Hk. rewrite H1 by lia. by apply Hold.
  - rewrite H2, Hnew. eexists. reflexivity.
Qed.

(** ** A directive whose fetch fails *)

Lemma failed_directive_run B element url oc tb s p message :
  DOM.parentOf (document s) element = Some p →
  fetch_error B (clock s) (fetchOptions B (this s) url) = Some message →
  let fragmentId := S (fragmentCounter (this s)) in
  let panel := error_panel B fragmentId ("esi-fragment-" +:+ pretty fragmentId)
                 url message (document s) in
  let r := (if bool_decide (is_Some (DOM.parentOf panel.2 element))
            then replaceESIElement element panel.1 oc tb
            else ret tt) (failed_state s panel) in
  fetchAndReplaceESI B element url oc tb s =
    match r.1 with
    | Normal _ => (Normal tt, failure_recorded B fragmentId url message r.2)
    | Throw e => (Throw e, r.2)
    end.
Proof.
  intros Hp Herr fragmentId panel r.
  assert (Hcatch : ∀ s0,
    this s0 = set_fragmentCounter S (set_stats (λ st,
       mkStats (S (total st)) (successful st) (failed st) (fragments st)) (this s)) →
    document s0 = document s → storage s0 = storage s → clock s0 = S (clock s) →
    timers s0 = timers s →
    bind (fetch_failed B element url oc tb fragmentId
            ("esi-fragment-" +:+ pretty fragmentId) message) (λ _, saveStats) s0 =
    match r.1 with
    | Normal _ => (Normal tt, failure_recorded B fragmentId url message r.2)
    | Throw e => (Throw e, r.2)
    end).
  { intros s0 Ht Hd Hs Hc Hti.
    assert (Hs0 : s0 = mkState (this s0) (document s0) (storage s0) (clock s0) (timers s0))
      by by destruct s0.
    unfold fetch_failed, bind at 1 2, dom at 1.
    rewrite Hd. fold panel. destruct panel as [errorDiv d1] eqn:Hpanel.
    unfold bind at 1 2, gets at 1. cbn [document set_document fst snd].
    unfold set_document. rewrite Ht, Hs, Hc, Hti.
    subst r. unfold failed_state. cbn [fst snd].
    destruct ((if bool_decide (is_Some (DOM.parentOf d1 element))
               then replaceESIElement element errorDiv oc tb else ret tt) _)
      as [[[]|e] s2]; [|done].
    done. }
  unfold fetchAndReplaceESI. unfold bind at 1, gets at 1. rewrite Hp.
  unfold bind at 1, modify at 1. unfold bind at 1, modify at 1.
  unfold bind at 1, gets at 1. cbn [this set_this fragmentCounter set_fragmentCounter].
  fold fragmentId.
  unfold fetch_error in Herr.
  unfold bind at 1. unfold try_catch, fetch_and_replace.
  unfold bind at 1, gets at 1. unfold bind at 1, Date_now, gets at 1.
  unfold bind at 1, tick, modify at 1. unfold bind at 1, await at 1.
  cbn [this set_this clock document storage timers].
  change (fetchOptions B (set_fragmentCounter S (set_stats _ (this s))) url)
    with (fetchOptions B (this s) url).
  destruct (fetch B (clock s) (fetchOptions B (this s) url)) as [response|e].
  - unfold fetch_settled. destruct (ok response); cbn [negb].
    + unfold bind at 1, await at 1. destruct (text response) as [content|e]; [done|].
      injection Herr as ->. by apply Hcatch.
    + injection Herr as <-. unfold throw. by apply Hcatch.
  - injection Herr as ->. by apply Hcatch.
Qed.

(** ** Pages whose identities are handed out in order *)

Lemma check_allocated_sound d : check_allocated d = true → allocated d.
Proof.
  unfold check_allocated. rewrite !andb_true_iff, forallb_forall.
  intros [[Hall H0] Hp0].
  apply bool_decide_eq_true in H0. apply bool_decide_eq_true in Hp0.
  assert (Hnode : ∀ n x, nodes d !! n = Some x →
    n < nextNode d ∧ ∀ p, parentNode x = Some p → is_Some (nodes d !! p)).
  { intros n x Hx. apply elem_of_map_to_list, list_elem_of_In in Hx.
    apply Hall in Hx. simpl in Hx. apply andb_true_iff in Hx as [Hlt Hpar].
    apply Nat.ltb_lt in Hlt. split; [done|]. intros p Hp. rewrite Hp in Hpar.
    by apply bool_decide_eq_true in Hpar. }
  split; [|split; [|done]].
  - intros n [x Hx]. by apply (Hnode n x).
  - intros n p Hp. unfold DOM.parentOf in Hp.
    destruct (nodes d !! n) as [x|] eqn:Hx; [|done]. by apply (Hnode n x).
Qed.

Lemma parentOf_is_node d n p : DOM.parentOf d n = Some p → is_Some (nodes d !! n).
Proof. unfold DOM.parentOf. by destruct (nodes d !! n). Qed.

(** ** The replacement of an anchor *)

Lemma replaceCommentTryBlock_completes start replacement s :
  is_Some (DOM.documentElement (document s)) →
  (replaceCommentTryBlock start replacement s).1 = Normal tt.
Proof.
  intros [root Hroot]. unfold replaceCommentTryBlock, bind at 1, gets at 1.
  rewrite Hroot. unfold bind at 1.
  destruct (find_closing (document s) root start) as [closing|].
  - unfold dom. destruct (replace_range _ _ _ _) as [d' [|]]; simpl; [done|].
    unfold bind, gets. simpl. by destruct (DOM.parentOf d' start).
  - unfold ret, bind, gets. simpl. by destruct (DOM.parentOf (document s) start).
Qed.

Lemma replaceESIElement_completes element replacement oc tb s :
  is_Some (DOM.documentElement (document s)) →
  (replaceESIElement element replacement oc tb s).1 = Normal tt.
Proof.
  intros Hroot. unfold replaceESIElement, bind, gets.
  destruct (DOM.parentOf (document s) element); [|done].
  destruct (_ || _); [|done].
  destruct (DOM.isComment (document s) element); [|done].
  by apply replaceCommentTryBlock_completes.
Qed.

(** An anchor that is not the opening comment of a try block is replaced in
    place. *)
Lemma replaceESIElement_in_place element replacement oc tb s p :
  DOM.parentOf (document s) element = Some p →
  DOM.isComment (document s) element = false ∨ (tb = false ∧ oc = None) →
  replaceESIElement element replacement oc tb s =
    (Normal tt, set_document (DOM.replaceChild p replacement element) s).
Proof.
  intros Hp Hcase. unfold replaceESIElement, bind, gets. rewrite Hp.
  destruct Hcase as [Hc|[-> ->]].
  - rewrite Hc. by destruct (_ || _).
  - done.
Qed.

Lemma documentElement_preserved d d1 :
  allocated d →
  (∀ k, k < nextNode d → nodes d1 !! k = nodes d !! k) →
  is_Some (DOM.documentElement d) → is_Some (DOM.documentElement d1).
Proof.
  intros (Hlt & _ & H0 & _) Hold [root Hroot].
  unfold DOM.documentElement in *.
  apply fmap_Some in Hroot as ([i r] & Hfind & ->).
  apply list_find_Some in Hfind as (Hi & Hel & _).
  assert (Hcs : DOM.childrenOf d1 DOM.documentNode = DOM.childrenOf d DOM.documentNode).
  { unfold DOM.childrenOf. rewrite Hold; [done|]. by apply Hlt. }
  rewrite Hcs. apply fmap_is_Some.
  apply (list_find_elem_of _ _ r); [by eapply list_elem_of_lookup_2|].
  unfold DOM.isElement, DOM.typeOf in *. apply bool_decide_eq_true in Hel.
  apply bool_decide_eq_true. destruct (nodes d !! r) as [x|] eqn:Hx; [|done].
  rewrite Hold; [by rewrite Hx|]. apply Hlt. by rewrite Hx.
Qed.

Lemma includes_prefix s needle : String.prefix needle s = true → JS.includes s needle = true.
Proof. intros H. destruct s; cbn [JS.includes]; by rewrite H. Qed.

Lemma includes_app_r a needle rest :
  JS.includes (a +:+ needle +:+ rest) needle = true.
Proof.
  induction a as [|c a IH].
  - rewrite app_empty. apply includes_prefix, prefix_app.
  - rewrite app_cons. cbn [JS.includes]. rewrite IH. apply orb_true_r.
Qed.

(** Nothing below a replaced node is in the tree of the page afterwards. *)
Lemma below_replaced_not_attached d d' old :
  DOM.parentOf d DOM.documentNode = None →
  is_Some (DOM.parentOf d old) →
  DOM.parentOf d' old = None →
  (∀ x q, x ≠ old → DOM.parentOf d x = Some q → DOM.parentOf d' x = Some q) →
  ∀ m, below d m old → ¬ attached d' m.
Proof.
  intros H0 [p Hp] Hold Hother m Hm Hatt. unfold attached in Hatt.
  assert (Hin : ∀ a, below d' m a → below d m old → below d a old).
  { clear Hm Hatt. intros a Hatt.
    induction Hatt as [a|a q b Hq _ IH]; intros Hm; [done|].
    apply IH. inversion Hm as [|? q0 ? Hq0 Hrest]; subst.
    - congruence.
    - destruct (decide (a = old)) as [->|Hne]; [congruence|].
      rewrite (Hother a q0 Hne Hq0) in Hq. by injection Hq as <-. }
  specialize (Hin _ Hatt Hm). inversion Hin; subst; congruence.
Qed.

Lemma includes_app_skip a s needle :
  JS.includes s needle = true → JS.includes (a +:+ s) needle = true.
Proof.
  intros H. induction a as [|c a IH]; [done|].
  rewrite app_cons. cbn [JS.includes]. rewrite IH. apply orb_true_r.
Qed.

(** What the failure of a fetch leaves behind, for a directive whose anchor
    has parent [p] on a page with identities in order. *)
Lemma failed_directive_outcome B element url oc tb s p message :
  allocated (document s) →
  DOM.parentOf (document s) element = Some p →
  fetch_error B (clock s) (fetchOptions B (this s) url) = Some message →
  let fragmentId := S (fragmentCounter (this s)) in
  let panel := error_panel B fragmentId ("esi-fragment-" +:+ pretty fragmentId)
                 url message (document s) in
  let replaced := replaceESIElement element panel.1 oc tb (failed_state s panel) in
  let r := fetchAndReplaceESI B element url oc tb s in
  panel.1 = nextNode (document s) ∧
  DOM.parentOf panel.2 element = Some p ∧
  DOM.parentOf panel.2 panel.1 = None ∧
  DOM.isComment panel.2 element = DOM.isComment (document s) element ∧
  (replaced.1 = Normal tt →
   r.1 = Normal tt ∧
   document r.2 = document replaced.2 ∧
   processedElements (this r.2) = processedElements (this s) ∧
   ∃ ts, stats (this r.2) =
     mkStats (S (total (stats (this s)))) (successful (stats (this s)))
       (S (failed (stats (this s))))
       (fragments (stats (this s)) ++
          [mkFragment fragmentId url (resolveUrl B url) false (Some message) ts])).
Proof.
  intros (Hlt & Hpar & H0 & Hp0) Hp Herr fragmentId panel replaced r.
  destruct (error_panel_spec B fragmentId ("esi-fragment-" +:+ pretty fragmentId)
              url message (document s)) as (Hid & Hold & Hnext & children & Hnode).
  fold panel in Hid, Hold, Hnext, Hnode.
  assert (Hel : element < nextNode (document s)).
  { apply Hlt. by eapply parentOf_is_node. }
  assert (Hp1 : DOM.parentOf panel.2 element = Some p).
  { unfold DOM.parentOf. rewrite Hold by done. exact Hp. }
  split; [done|]. split; [done|]. split.
  { unfold DOM.parentOf. rewrite Hid, Hnode. done. }
  split.
  { unfold DOM.isComment, DOM.typeOf. by rewrite Hold. }
  intros Hdone.
  pose proof (failed_directive_run B element url oc tb s p message Hp Herr) as Hrun.
  cbv zeta in Hrun. fold fragmentId panel in Hrun.
  rewrite bool_decide_eq_true_2 in Hrun by (rewrite Hp1; eauto).
  fold replaced in Hrun. rewrite Hdone in Hrun. subst r. rewrite Hrun.
  destruct (frame_replaceESIElement element panel.1 oc tb (failed_state s panel))
    as [Ht _].
  fold replaced in Ht. cbn [fst snd]. unfold failure_recorded. cbn [this document stats].
  rewrite Ht. simpl. repeat split. by eexists.
Qed.



(** C4.  A try block written as an element [tryBlock], not yet processed,
    with parent [p], whose first include tag [includeTag] names [src], and
    whose fetch fails (the fetch is rejected, is answered with a status
    outside 200 to 299, or its body cannot be read): its turn in the loop of
    [processESITryBlocks] completes, marks the container and the include tag
    as processed, and records exactly one fragment, for the address of the
    include tag, with [success = false].  The error panel takes the place of
    the container among the children of [p]; the container is detached, and
    no node that was in the container, the include tag or any other, is in
    the tree of the page afterwards. *)
Theorem failed_try_block_replaced_as_a_whole (B : Browser)
    (tryBlock includeTag p : NodeId) (src message : string) (s : State) :
  allocated (document s) →
  (tryBlock ∉ processedElements (this s)) →
  DOM.isElement (document s) tryBlock = true →
  DOM.parentOf (document s) tryBlock = Some p →
  DOM.querySelector (document s) tryBlock include_selectors = Some includeTag →
  DOM.getAttribute (document s) includeTag "src" = Some src →
  JS.truthy src = true →
  fetch_error B (clock s) (fetchOptions B (this s) src) = Some message →
  let r := process_try_block B tryBlock s in
  let panel := nextNode (document s) in
  r.1 = Normal tt ∧
  (∃ ts, fragments (stats (this r.2)) =
     fragments (stats (this s)) ++
       [mkFragment (S (fragmentCounter (this s))) src (resolveUrl B src) false
          (Some message) ts]) ∧
  processedElements (this r.2) = {[includeTag]} ∪ ({[tryBlock]} ∪ processedElements (this s)) ∧
  DOM.childrenOf (document r.2) p =
    DOM.substitute tryBlock panel (DOM.childrenOf (document s) p) ∧
  DOM.parentOf (document r.2) tryBlock = None ∧
  DOM.parentOf (document r.2) panel = Some p ∧
  DOM.getAttribute (document r.2) panel "class" = Some "esi-error" ∧
  (∀ m, below (document s) m tryBlock → ¬ attached (document r.2) m).
Proof.
  intros Halloc Hnew Hel Hp Hinc Hsrc Htruthy Herr r panel.
  set (s0 := set_this (set_processedElements (λ X, {[includeTag]} ∪ X))
               (set_this (set_processedElements (λ X, {[tryBlock]} ∪ X)) s)).
  assert (Hrun : r = fetchAndReplaceESI B tryBlock src None true s0).
  { subst r. unfold process_try_block, bind, is_processed, gets, mark_processed, modify.
    rewrite bool_decide_eq_false_2 by done. by rewrite Hinc, Hsrc, Htruthy. }
  destruct (failed_directive_outcome B tryBlock src None true s0 p message)
    as (Hid & Hp1 & Hpanel_parent & Hcomment & Hout); [done..|].
  cbn [document this s0 set_this fragmentCounter set_processedElements] in *.
  set (panel_built := error_panel B _ _ src message (document s)) in *.
  destruct (error_panel_spec B (S (fragmentCounter (this s)))
              ("esi-fragment-" +:+ pretty (S (fragmentCounter (this s))))
              src message (document s)) as (_ & Hold & Hnext & children & Hnode).
  fold panel_built in Hold, Hnext, Hnode.
  assert (Hnot_comment : DOM.isComment (document s) tryBlock = false).
  { unfold DOM.isElement, DOM.isComment in *. apply bool_decide_eq_true in Hel.
    apply bool_decide_eq_false. rewrite Hel. discriminate. }
  rewrite (replaceESIElement_in_place tryBlock panel_built.1 None true
             (failed_state s0 panel_built) p) in Hout;
    [|done|cbn [document failed_state]; left; by rewrite Hcomment].
  destruct Hout as (Hdone & Hdoc & Hproc & ts & Hstats); [done|].
  rewrite <- Hrun in Hdone, Hdoc, Hproc, Hstats.
  cbn [snd document set_document failed_state processedElements] in Hdoc, Hproc.
  destruct Halloc as (Hlt & Hpar & H0 & Hp0).
  assert (Htb : tryBlock < nextNode (document s)).
  { apply Hlt. by eapply parentOf_is_node. }
  assert (Hpn : is_Some (nodes (document s) !! p)) by by eapply Hpar.
  assert (Hpanel : panel_built.1 = panel) by done.
  rewrite Hpanel in *.
  assert (Hdetached : DOM.parentOf (document r.2) tryBlock = None).
  { rewrite Hdoc. apply replaceChild_parent_old; [done|]. subst panel. lia. }
  split; [done|]. split; [exists ts; by rewrite Hstats|]. split; [done|].
  split; [|split; [done|split; [|split]]].
  - rewrite Hdoc, replaceChild_children; [|done|].
    + unfold DOM.childrenOf. rewrite Hold; [done|]. by apply Hlt.
    + rewrite Hold; [done|]. by apply Hlt.
  - rewrite Hdoc. apply replaceChild_parent_new; [done|]. unfold panel. rewrite Hnode. eauto.
  - rewrite Hdoc, replaceChild_getAttribute by done.
    unfold DOM.getAttribute, panel. by rewrite Hnode.
  - apply (below_replaced_not_attached (document s)); [done|eauto|done|].
    intros x q Hx Hq. rewrite Hdoc.
    assert (Hxn : x < nextNode (document s)).
    { apply Hlt. by eapply parentOf_is_node. }
    rewrite replaceChild_parent_other; [|done|subst panel; lia|done].
    unfold DOM.parentOf. rewrite Hold by done. exact Hq.
Qed.

Lemma failed_try_block_replaced_as_a_whole_witness :
  ¬ attached
      (document (process_try_block Example.browser 3
                   (Example.state_of Example.element_try_page)).2) 5.
Proof.
  refine (proj2 (proj2 (proj2 (proj2 (proj2 (proj2 (proj2
    (failed_try_block_replaced_as_a_whole Example.browser 3 5 2 "/down.html"
       "Failed to fetch" (Example.state_of Example.element_try_page)
       _ _ _ _ _ _ _ _))))))) 5 _).
  - apply check_allocated_sound. by vm_compute.
  - intros H. apply (bool_decide_pack _) in H. by vm_compute in H.
  - by vm_compute.
  - by vm_compute.
  - by vm_compute.
  - by vm_compute.
  - by vm_compute.
  - by vm_compute.
  - eapply below_parent; [by vm_compute|]. eapply below_parent; [by vm_compute|].
    apply below_self.
Defined.

(** ** Removing a run of children *)

Lemma index_of_app n pre post :
  n ∉ pre → DOM.index_of n (pre ++ n :: post) = Some (length pre).
Proof.
  intros Hn. induction pre as [|x pre IH]; simpl.
  - by rewrite decide_True.
  - apply not_elem_of_cons in Hn as [Hne Hn].
    rewrite decide_False by done. by rewrite IH.
Qed.

Lemma parentOf_set_parent_None n d x :
  DOM.parentOf (DOM.set_parent n None d) x =
  if decide (n = x) then None else DOM.parentOf d x.
Proof.
  rewrite parentOf_set_parent. case_decide; [|done]. by destruct (nodes d !! x).
Qed.

Lemma filter_without (L : list nat) c cs :
  DOM.without c (filter (λ y, y ∉ L) cs) = filter (λ y, y ∉ c :: L) cs.
Proof.
  unfold DOM.without. rewrite list_filter_filter. apply list_filter_iff.
  intros x. rewrite not_elem_of_cons. done.
Qed.

Lemma filter_not_in_nil (cs : list nat) : filter (λ y, y ∉ []) cs = cs.
Proof.
  induction cs as [|x cs IH]; [done|].
  rewrite filter_cons_True by apply not_elem_of_nil. by rewrite IH.
Qed.

(** The nodes of [L], children of [p], are taken out one after the other:
    each loses its parent, [p] loses them as children, and nothing else
    changes. *)
Lemma remove_children d p (L : list nat) :
  NoDup L → p ∉ L →
  Forall (λ c, DOM.parentOf d c = Some p) L →
  let d' := foldr DOM.remove d L in
  (∀ x, DOM.parentOf d' x = if decide (x ∈ L) then None else DOM.parentOf d x) ∧
  (∀ x, DOM.childrenOf d' x =
        if decide (x = p) then filter (λ y, y ∉ L) (DOM.childrenOf d p)
        else DOM.childrenOf d x) ∧
  (∀ x, DOM.typeOf d' x = DOM.typeOf d x) ∧
  (∀ x, is_Some (nodes d' !! x) ↔ is_Some (nodes d !! x)) ∧
  (∀ x, x ∉ L → x ≠ p → nodes d' !! x = nodes d !! x) ∧
  size (nodes d') = size (nodes d).
Proof.
  intros Hdup Hp Hall. cbv zeta. induction L as [|c L IH]; cbn [foldr].
  - split; [done|]. split; [|done].
    intros x. case_decide; [subst|done]. by rewrite filter_not_in_nil.
  - apply NoDup_cons in Hdup as [Hc Hdup]. apply not_elem_of_cons in Hp as [Hpc Hp].
    apply Forall_cons in Hall as [Hcp Hall].
    destruct (IH Hdup Hp Hall) as (Hpar & Hchild & Htype & Hsome & Hnodes & Hsize).
    set (d1 := foldr DOM.remove d L) in *.
    assert (Hc1 : DOM.parentOf d1 c = Some p).
    { rewrite Hpar, decide_False by done. done. }
    unfold DOM.remove. rewrite Hc1.
    split; [|split; [|split; [|split; [|split]]]].
    + intros x. rewrite parentOf_set_parent_None.
      unfold DOM.set_children. rewrite parentOf_update by done. rewrite Hpar.
      destruct (decide (c = x)) as [->|Hne].
      * by rewrite decide_True by left.
      * destruct (decide (x ∈ L)).
        -- by rewrite decide_True by by right.
        -- rewrite decide_False; [done|]. rewrite not_elem_of_cons. done.
    + intros x. unfold DOM.set_parent. rewrite childrenOf_update by done.
      rewrite childrenOf_set_children.
      assert (DOM.childrenOf d1 p = filter (λ y, y ∉ L) (DOM.childrenOf d p)) as ->.
      { rewrite Hchild. by rewrite decide_True. }
      rewrite filter_without.
      destruct (decide (p = x)) as [->|Hne].
      * rewrite decide_True by done.
        destruct (nodes d1 !! x) as [y|] eqn:Hy; [done|].
        assert (Hnone : DOM.childrenOf d x = []).
        { unfold DOM.childrenOf. destruct (nodes d !! x) eqn:Hx; [|done].
          assert (is_Some (nodes d1 !! x)) as [? ?] by (apply Hsome; eauto). congruence. }
        by rewrite Hnone.
      * rewrite Hchild. by rewrite !decide_False by congruence.
    + intros x. unfold DOM.set_parent, DOM.set_children.
      by rewrite !typeOf_update.
    + intros x. unfold DOM.set_parent, DOM.set_children. rewrite !nodes_update.
      rewrite <- Hsome. repeat case_decide; by rewrite ?fmap_is_Some.
    + intros x Hx Hxp. apply not_elem_of_cons in Hx as [Hxc Hx].
      unfold DOM.set_parent, DOM.set_children. rewrite !nodes_update.
      rewrite !decide_False by done. by apply Hnodes.
    + unfold DOM.set_parent, DOM.set_children. by rewrite !size_update.
Qed.

Lemma ancestors_fuel_agree d d' fuel x :
  (∀ y, y ∈ x :: DOM.ancestors_fuel fuel d x → DOM.parentOf d' y = DOM.parentOf d y) →
  DOM.ancestors_fuel fuel d' x = DOM.ancestors_fuel fuel d x.
Proof.
  revert x. induction fuel as [|fuel IH]; intros x Hagree; [done|].
  cbn [DOM.ancestors_fuel] in *. rewrite (Hagree x) by left.
  destruct (DOM.parentOf d x) as [q|]; [|done]. f_equal. apply IH.
  intros y Hy. apply Hagree. by right.
Qed.

Lemma filter_run (pre L post : list nat) :
  NoDup (pre ++ L ++ post) →
  filter (λ y, y ∉ L) (pre ++ L ++ post) = pre ++ post.
Proof.
  intros Hdup. apply NoDup_app in Hdup as (_ & Hpre & Hdup).
  apply NoDup_app in Hdup as (_ & Hpost & _).
  assert (Hkeep : ∀ l : list nat, (∀ x, x ∈ l → x ∉ L) → filter (λ y, y ∉ L) l = l).
  { induction l as [|x l IH]; intros Hl; [done|].
    rewrite filter_cons_True by (apply Hl; left). rewrite IH; [done|].
    intros y Hy. apply Hl. by right. }
  assert (Hdrop : ∀ l : list nat, (∀ x, x ∈ l → x ∈ L) → filter (λ y, y ∉ L) l = []).
  { induction l as [|x l IH]; intros Hl; [done|].
    rewrite filter_cons_False by (intros H; apply H, Hl; left). apply IH.
    intros y Hy. apply Hl. by right. }
  rewrite !filter_app, (Hdrop L) by done. rewrite !Hkeep; [done| |].
  - intros x Hx HL. by apply (Hpost x).
  - intros x Hx HL. apply (Hpre x Hx). apply elem_of_app. by left.
Qed.

(** ** The range of a try block written as comments *)

Section Siblings.
Variables (d : Document) (start closing replacement p : NodeId).
Variables (pre mid post : list nat).
Let L := start :: mid ++ [closing].
Hypothesis Hparent : DOM.parentOf d start = Some p.
Hypothesis Htype : DOM.typeOf d p = Some ELEMENT_NODE.
Hypothesis Hchildren : DOM.childrenOf d p = pre ++ L ++ post.
Hypothesis Hdup : NoDup (DOM.childrenOf d p).
Hypothesis Hrun :
  Forall (λ c, DOM.parentOf d c = Some p ∧ c ∉ DOM.inclusiveAncestors d p) L.
Hypothesis Hdetached : DOM.parentOf d replacement = None.
Hypothesis Hexists : is_Some (nodes d !! replacement).
Hypothesis Hfresh : replacement ∉ DOM.inclusiveAncestors d p.

Lemma siblings_boundaries :
  DOM.boundaryBefore d start = Some (p, length pre) ∧
  DOM.boundaryAfter d closing = Some (p, S (length pre + S (length mid))).
Proof.
  rewrite Hchildren in Hdup. apply NoDup_app in Hdup as (_ & Hpre & HLpost).
  split.
  - unfold DOM.boundaryBefore. rewrite Hparent. simpl. rewrite Hchildren.
    subst L. cbn [app]. rewrite index_of_app; [done|].
    intros Hin. apply (Hpre _ Hin). apply elem_of_app. left. left.
  - unfold DOM.boundaryAfter.
    assert (Hc : DOM.parentOf d closing = Some p).
    { rewrite Forall_forall in Hrun. apply Hrun. subst L.
      right. apply elem_of_app. right. left. }
    rewrite Hc. simpl. rewrite Hchildren. subst L.
    replace (pre ++ (start :: mid ++ [closing]) ++ post)
      with ((pre ++ start :: mid) ++ closing :: post)
      by (by rewrite <- !app_assoc; simpl; rewrite <- app_assoc).
    rewrite index_of_app.
    + simpl. rewrite length_app. simpl. do 2 f_equal.
    + apply NoDup_app in HLpost as (HLdup & _ & _).
      intros Hin. apply elem_of_app in Hin as [Hin|Hin].
      * apply (Hpre _ Hin). apply elem_of_app. left. right.
        apply elem_of_app. right. left.
      * replace (start :: mid ++ [closing]) with ((start :: mid) ++ [closing])
          in HLdup by done.
        apply NoDup_app in HLdup as (_ & Hsm & _). apply (Hsm _ Hin). left.
Qed.

Lemma siblings_range :
  ∃ d', replace_range d start closing replacement = (d', true) ∧
        DOM.childrenOf d' p = pre ++ replacement :: post ∧
        Forall (λ c, DOM.parentOf d' c = None) L ∧
        DOM.parentOf d' replacement = Some p ∧
        (∀ x, x ∉ L → x ≠ p → x ≠ replacement → nodes d' !! x = nodes d !! x).
Proof.
  destruct siblings_boundaries as [Hb Ha].
  assert (HLdup : NoDup L).
  { rewrite Hchildren in Hdup. apply NoDup_app in Hdup as (_ & _ & H).
    by apply NoDup_app in H as (H & _ & _). }
  assert (HpL : p ∉ L).
  { intros Hin. rewrite Forall_forall in Hrun. destruct (Hrun p Hin) as [_ H].
    apply H. left. }
  assert (Hpar : Forall (λ c, DOM.parentOf d c = Some p) L).
  { eapply Forall_impl; [exact Hrun|]. by intros c [? _]. }
  destruct (remove_children d p L HLdup HpL Hpar)
    as (Hpar1 & Hchild1 & Htype1 & Hsome1 & Hnodes1 & Hsize1).
  set (d1 := foldr DOM.remove d L) in *.
  assert (Hdelete : DOM.deleteContents d (p, length pre)
                      (p, S (length pre + S (length mid))) = (d1, (p, length pre))).
  { unfold DOM.deleteContents. cbn [fst snd].
    assert (list_find (λ x, x ∈ DOM.inclusiveAncestors d p) (DOM.inclusiveAncestors d p)
            = Some (0, p)) as ->.
    { apply list_find_Some. split; [done|]. split; [left|]. intros j y _ Hj. lia. }
    rewrite !decide_True by done. rewrite Hchildren.
    rewrite drop_app_length.
    replace (S (length pre + S (length mid)) - length pre) with (length L)
      by (subst L; simpl; rewrite length_app; simpl; lia).
    rewrite take_app_length. simpl. by rewrite app_nil_r. }
  assert (Hchain : DOM.inclusiveAncestors d1 p = DOM.inclusiveAncestors d p).
  { unfold DOM.inclusiveAncestors, DOM.ancestors. rewrite Hsize1. f_equal.
    apply ancestors_fuel_agree. intros y Hy. rewrite Hpar1.
    rewrite decide_False; [done|]. intros Hin.
    rewrite Forall_forall in Hrun. destruct (Hrun y Hin) as [_ H]. by apply H. }
  assert (Hrep1 : DOM.parentOf d1 replacement = None).
  { rewrite Hpar1. by case_decide. }
  assert (Hcs1 : DOM.childrenOf d1 p = pre ++ post).
  { rewrite Hchild1, decide_True by done. rewrite Hchildren. apply filter_run.
    by rewrite <- Hchildren. }
  eexists. split.
  { unfold replace_range. rewrite Hb, Ha, Hdelete. unfold DOM.insertNode. cbn [fst snd].
    rewrite Htype1, Htype, Hchain. rewrite bool_decide_eq_false_2 by done.
    cbn [andb negb]. rewrite remove_detached by done. rewrite Hcs1.
    rewrite take_app_length, drop_app_length. reflexivity. }
  assert (Hp1 : is_Some (nodes d1 !! p)).
  { apply Hsome1. unfold DOM.typeOf in Htype. by destruct (nodes d !! p). }
  split; [|split; [|split]].
  - unfold DOM.set_parent. rewrite childrenOf_update by done.
    rewrite childrenOf_set_children, decide_True by done. by destruct Hp1 as [? ->].
  - apply Forall_forall. intros c Hc.
    rewrite parentOf_set_parent, decide_False.
    + unfold DOM.set_children. rewrite parentOf_update by done.
      rewrite Hpar1. by rewrite decide_True.
    + intros ->. rewrite Forall_forall in Hpar. specialize (Hpar _ Hc). congruence.
  - rewrite parentOf_set_parent, decide_True by done.
    unfold DOM.set_children. rewrite nodes_update.
    apply Hsome1 in Hexists. destruct Hexists as [y Hy].
    case_decide; by rewrite Hy.
  - intros x HxL Hxp Hxr. unfold DOM.set_parent, DOM.set_children.
    rewrite !nodes_update, !decide_False by done. by apply Hnodes1.
Qed.

End Siblings.

Lemma includes_closing_truthy v :
  JS.truthy v && JS.includes v "</esi:try>" = JS.includes v "</esi:try>".
Proof. by destruct v. Qed.



(** * Properties of the state that no step of a pass disturbs

    [steady I m] is closed under sequencing, [try] and loops, however a
    computation ends; an invariant that survives the edits of the page, the
    counting of a directive, the marking of a node, the passing of time,
    [saveStats] and [extractAndExecuteScripts] therefore survives every
    method of a pass. *)

Lemma steady_ret I {A} (a : A) : steady I (ret a).
Proof. by intros s Hs. Qed.

Lemma steady_throw I {A} e : steady I (@throw A e).
Proof. by intros s Hs. Qed.

Lemma steady_gets I {A} (f : State → A) : steady I (gets f).
Proof. by intros s Hs. Qed.

Lemma steady_await I {A} (c : Completion A) : steady I (await c).
Proof. by intros s Hs. Qed.

Lemma steady_modify (I : State → Prop) f : (∀ s, I s → I (f s)) → steady I (modify f).
Proof. intros Hf s Hs. by apply Hf. Qed.

Lemma steady_bind I {A C} (m : M A) (k : A → M C) :
  steady I m → (∀ a, steady I (k a)) → steady I (bind m k).
Proof.
  intros Hm Hk s Hs. unfold bind. specialize (Hm s Hs).
  destruct (m s) as [[a|e] s1]; simpl in *; [by apply Hk|done].
Qed.

Lemma steady_try_catch I {A} (body : M A) handler :
  steady I body → (∀ e, steady I (handler e)) → steady I (try_catch body handler).
Proof.
  intros Hm Hk s Hs. unfold try_catch. specialize (Hm s Hs).
  destruct (body s) as [[a|e] s1]; simpl in *; [done|by apply Hk].
Qed.

Lemma steady_for_of I {A} (l : list A) body :
  (∀ x, steady I (body x)) → steady I (for_of l body).
Proof.
  intros Hb. induction l as [|x l IH]; simpl; [apply steady_ret|].
  apply steady_bind; [apply Hb|by intros _].
Qed.

Section Steady.
Variable B : Browser.
Variable I : State → Prop.
Hypothesis I_document : ∀ f s, I s → I (set_document f s).
Hypothesis I_stats : ∀ f s, I s → I (set_this (set_stats f) s).
Hypothesis I_counter : ∀ f s, I s → I (set_this (set_fragmentCounter f) s).
Hypothesis I_mark : ∀ n s, I s → I (set_this (set_processedElements (λ X, {[n]} ∪ X)) s).
Hypothesis I_save : ∀ s, I s → I (saveStats s).2.
Hypothesis I_tick : ∀ s, I s → I (tick s).2.
Hypothesis I_scripts : ∀ content container,
  steady I (extractAndExecuteScripts B content container).

Lemma steady_dom {A} (f : Document → A * Document) : steady I (dom f).
Proof.
  intros s Hs. unfold dom. destruct (f (document s)) as [a d].
  by apply (I_document (λ _, d)).
Qed.

Lemma steady_dom_ f : steady I (dom_ f).
Proof. apply steady_modify. intros s. apply I_document. Qed.

Lemma steady_mark n : steady I (mark_processed n).
Proof. apply steady_modify. intros s. apply I_mark. Qed.

Lemma steady_push f : steady I (push_fragment f).
Proof. apply steady_modify. intros s. apply I_stats. Qed.

Ltac steady_step :=
  match goal with
  | |- steady _ (bind _ _) => apply steady_bind; [|intros ?]
  | |- steady _ (try_catch _ _) => apply steady_try_catch; [|intros ?]
  | |- steady _ (for_of _ _) => apply steady_for_of; intros ?
  | |- steady _ (ret _) => apply steady_ret
  | |- steady _ (throw _) => apply steady_throw
  | |- steady _ (gets _) => apply steady_gets
  | |- steady _ Date_now => apply steady_gets
  | |- steady _ (is_processed _) => apply steady_gets
  | |- steady _ (await _) => apply steady_await
  | |- steady _ (dom _) => apply steady_dom
  | |- steady _ (dom_ _) => apply steady_dom_
  | |- steady _ (mark_processed _) => apply steady_mark
  | |- steady _ (push_fragment _) => apply steady_push
  | |- steady _ tick => exact I_tick
  | |- steady _ saveStats => exact I_save
  | |- steady _ (extractAndExecuteScripts _ _ _) => apply I_scripts
  | |- steady _ (modify (set_this (set_stats _))) =>
      apply steady_modify; intros ?; apply I_stats
  | |- steady _ (modify (set_this (set_fragmentCounter _))) =>
      apply steady_modify; intros ?; apply I_counter
  | |- steady _ (match ?x with _ => _ end) => destruct x
  | |- steady _ (if ?b then _ else _) => destruct b
  end.

Lemma steady_replaceCommentTryBlock start replacement :
  steady I (replaceCommentTryBlock start replacement).
Proof. unfold replaceCommentTryBlock. repeat steady_step. Qed.

Lemma steady_replaceESIElement element replacement oc tb :
  steady I (replaceESIElement element replacement oc tb).
Proof.
  unfold replaceESIElement. repeat steady_step; apply steady_replaceCommentTryBlock.
Qed.

Lemma steady_fetchAndReplaceESI element url oc tb :
  steady I (fetchAndReplaceESI B element url oc tb).
Proof.
  unfold fetchAndReplaceESI, fetch_and_replace, fetch_settled, fetch_failed.
  repeat steady_step; apply steady_replaceESIElement.
Qed.

Lemma steady_process_try_block tryBlock : steady I (process_try_block B tryBlock).
Proof. unfold process_try_block. repeat steady_step. apply steady_fetchAndReplaceESI. Qed.

Lemma steady_process_standalone_tag tag : steady I (process_standalone_tag B tag).
Proof.
  unfold process_standalone_tag. repeat steady_step. apply steady_fetchAndReplaceESI.
Qed.

Lemma steady_process_comment_node commentNode :
  steady I (process_comment_node B commentNode).
Proof.
  unfold process_comment_node, processESIComment.
  repeat steady_step; apply steady_fetchAndReplaceESI.
Qed.

Lemma steady_phases :
  steady I (processESITryBlocks B ;; processStandaloneESITags B ;; processESIComments B).
Proof.
  unfold processESITryBlocks, processStandaloneESITags, processESIComments.
  repeat steady_step;
    first [apply steady_process_try_block | apply steady_process_standalone_tag
          | apply steady_process_comment_node].
Qed.

Hypothesis I_clear : ∀ s, I s → I (set_this (set_processedElements (λ _, ∅)) s).

Lemma steady_processESI : steady I (processESI B).
Proof.
  unfold processESI. apply steady_bind; [apply steady_gets|intros p].
  destruct (negb _); [apply steady_ret|].
  apply steady_bind; [by apply steady_modify|intros _].
  pose proof steady_phases as H. unfold steady in *. intros s Hs.
  specialize (H s Hs). revert H. unfold bind.
  destruct (processESITryBlocks B s) as [[[]|e] s1]; simpl; [|done].
  destruct (processStandaloneESITags B s1) as [[[]|e] s2]; simpl; [|done].
  destruct (processESIComments B s2) as [[[]|e] s3]; simpl; [|done].
  apply I_save.
Qed.

Lemma steady_executeScript script container : steady I (executeScript B script container).
Proof. unfold executeScript. repeat steady_step. Qed.

Lemma steady_run_scripts t : steady I (run_scripts B t).
Proof. unfold run_scripts. repeat steady_step. apply steady_executeScript. Qed.

Lemma steady_clearStats : steady I clearStats.
Proof. unfold clearStats. repeat steady_step. by apply steady_modify. Qed.

Lemma steady_jumpToFragment n : steady I (jumpToFragment n).
Proof. unfold jumpToFragment. repeat steady_step. Qed.

Hypothesis I_timers : ∀ T s, I s → I (mkState (this s) (document s) (storage s) (clock s) T).
Hypothesis I_remove : ∀ s, I s → I (remove_stats s).2.

Lemma steady_fire_script_timer : steady I (fire_script_timer B).
Proof.
  unfold fire_script_timer. repeat steady_step.
  - apply steady_modify. intros s. apply I_timers.
  - apply steady_run_scripts.
Qed.

Lemma steady_handle e :
  match e with SettingsChanged _ _ _ => False | _ => True end →
  steady I (handle B e).
Proof.
  intros He. unfold handle. apply steady_try_catch; [|intros; apply steady_ret].
  destruct e; try done.
  - apply steady_clearStats.
  - apply steady_jumpToFragment.
  - apply steady_processESI.
  - apply steady_fire_script_timer.
Qed.

End Steady.

(** A computation that leaves the processor and the storage alone keeps
    every property of the two. *)
Lemma steady_frame (I : State → Prop) {A} (m : M A) :
  (∀ s s1, this s1 = this s → storage s1 = storage s → I s → I s1) →
  frame m → steady I m.
Proof. intros HI Hm s Hs. destruct (Hm s) as [H1 H2]. by apply (HI s). Qed.
(** * What the events never touch *)

Lemma extractAndExecuteScripts_disabled B content container s :
  executeScripts (this s) = false →
  extractAndExecuteScripts B content container s = (Normal content, s).
Proof.
  intros H. unfold extractAndExecuteScripts, bind, gets. simpl. by rewrite H.
Qed.

(** X1.  Whatever the event, unless it is a change of the settings, and
    however its handler ends, the settings of the processor are the ones it
    had, and the five settings keys of the storage hold what they held: the
    content script writes the statistics of the page to the storage and
    nothing else. *)
Theorem engine_never_writes_settings (B : Browser) (e : Event) (s : State) :
  match e with
  | SettingsChanged _ _ _ => True
  | _ =>
      let s1 := (handle B e s).2 in
      same_settings (this s1) (this s) ∧
      st_esiEnabled (storage s1) = st_esiEnabled (storage s) ∧
      st_customHeaders (storage s1) = st_customHeaders (storage s) ∧
      st_forwardHeaders (storage s1) = st_forwardHeaders (storage s) ∧
      st_forwardCookies (storage s1) = st_forwardCookies (storage s) ∧
      st_executeScripts (storage s1) = st_executeScripts (storage s)
  end.
Proof.
  set (I := λ s1 : State,
    same_settings (this s1) (this s) ∧
    st_esiEnabled (storage s1) = st_esiEnabled (storage s) ∧
    st_customHeaders (storage s1) = st_customHeaders (storage s) ∧
    st_forwardHeaders (storage s1) = st_forwardHeaders (storage s) ∧
    st_forwardCookies (storage s1) = st_forwardCookies (storage s) ∧
    st_executeScripts (storage s1) = st_executeScripts (storage s)).
  assert (HI : ∀ s0 s1, this s1 = this s0 → storage s1 = storage s0 → I s0 → I s1).
  { intros s0 s1 Ht Hst. unfold I. by rewrite Ht, Hst. }
  assert (Hs : I s) by (by unfold I, same_settings).
  assert (H : match e with SettingsChanged _ _ _ => False | _ => True end →
              I (handle B e s).2).
  { intros He. apply (steady_handle B I); try done;
      try (intros; unfold I, same_settings in *; simpl in *; done).
    intros. apply (steady_frame I); [done|apply frame_extractAndExecuteScripts]. }
  destruct e; try done; by apply H.
Qed.



(** * A node is fetched once

    Once a loop body has let a node through, the node is in the processed
    set, however the fetch ends, and every later visit skips it. *)

Lemma steady_processed B n element url oc tb :
  steady (λ s, n ∈ processedElements (this s)) (fetchAndReplaceESI B element url oc tb).
Proof.
  apply steady_fetchAndReplaceESI; try done;
    try (intros m s Hs; simpl; by apply elem_of_union_r).
  intros content container.
  apply (steady_frame (λ s, n ∈ processedElements (this s)));
    [by intros s s1 -> _|apply frame_extractAndExecuteScripts].
Qed.

Lemma skip_try_block B n s :
  n ∈ processedElements (this s) → process_try_block B n s = (Normal tt, s).
Proof.
  intros H. unfold process_try_block, bind, is_processed, gets. simpl.
  by rewrite bool_decide_eq_true_2.
Qed.

Lemma skip_standalone_tag B n s :
  n ∈ processedElements (this s) → process_standalone_tag B n s = (Normal tt, s).
Proof.
  intros H. unfold process_standalone_tag, bind, is_processed, gets. simpl.
  by rewrite bool_decide_eq_true_2.
Qed.

Lemma skip_comment_node B n s :
  n ∈ processedElements (this s) → process_comment_node B n s = (Normal tt, s).
Proof.
  intros H. unfold process_comment_node, bind, is_processed, gets. simpl.
  by rewrite bool_decide_eq_true_2.
Qed.

(** X3.  A try block whose include names a source is fetched once: after
    the loop body of [processESITryBlocks] has run on it, however the fetch
    ended, the block and its include are both in the processed set, a second
    visit of the block changes nothing, and the loop of
    [processStandaloneESITags] skips the include. *)
Theorem try_block_and_its_include_are_fetched_once (B : Browser)
    (tryBlock includeTag : NodeId) (src : string) (s : State) :
  (tryBlock ∉ processedElements (this s)) →
  DOM.querySelector (document s) tryBlock include_selectors = Some includeTag →
  DOM.getAttribute (document s) includeTag "src" = Some src →
  JS.truthy src = true →
  let s1 := (process_try_block B tryBlock s).2 in
  (tryBlock ∈ processedElements (this s1)) ∧
  (includeTag ∈ processedElements (this s1)) ∧
  process_try_block B tryBlock s1 = (Normal tt, s1) ∧
  process_standalone_tag B includeTag s1 = (Normal tt, s1).
Proof.
  intros Hnew Hq Hsrc Htruthy s1.
  assert (H : (tryBlock ∈ processedElements (this s1)) ∧
              (includeTag ∈ processedElements (this s1))).
  { unfold s1, process_try_block, bind, is_processed, gets, mark_processed, modify.
    simpl. rewrite bool_decide_eq_false_2 by done. rewrite Hq, Hsrc, Htruthy.
    split; apply steady_processed; simpl; set_solver. }
  destruct H as [H1 H2].
  repeat split; [done|done|by apply skip_try_block|by apply skip_standalone_tag].
Qed.

Lemma try_block_and_its_include_are_fetched_once_witness :
  let s1 := (process_try_block Example.browser 3
               (Example.state_of Example.element_try_page)).2 in
  process_standalone_tag Example.browser 5 s1 = (Normal tt, s1).
Proof.
  refine (proj2 (proj2 (proj2 (try_block_and_its_include_are_fetched_once
    Example.browser 3 5 "/down.html"
    (Example.state_of Example.element_try_page) _ _ _ _)))).
  - intros H. apply (bool_decide_pack _) in H. by vm_compute in H.
  - by vm_compute.
  - by vm_compute.
  - reflexivity.
Defined.

(** X4.  A standalone include that names a source, and a comment that the
    scan has collected, are in the processed set once their loop body has
    run, however the fetch ended, and a second visit changes nothing: the
    same tag, listed once for each selector that matches it, is fetched
    once. *)
Theorem standalone_tag_and_comment_are_fetched_once (B : Browser) (s : State) :
  (∀ tag src,
     DOM.getAttribute (document s) tag "src" = Some src → JS.truthy src = true →
     let s1 := (process_standalone_tag B tag s).2 in
     (tag ∈ processedElements (this s1)) ∧
     process_standalone_tag B tag s1 = (Normal tt, s1)) ∧
  (∀ commentNode,
     let s1 := (process_comment_node B commentNode s).2 in
     (commentNode ∈ processedElements (this s1)) ∧
     process_comment_node B commentNode s1 = (Normal tt, s1)).
Proof.
  split.
  - intros tag src Hsrc Htruthy s1.
    assert (H : tag ∈ processedElements (this s1)); [|by split; [|apply skip_standalone_tag]].
    unfold s1, process_standalone_tag, bind, is_processed, gets, mark_processed, modify.
    simpl. case_bool_decide as Hin; [done|]. rewrite Hsrc, Htruthy.
    apply steady_processed; simpl; set_solver.
  - intros commentNode s1.
    assert (H : commentNode ∈ processedElements (this s1));
      [|by split; [|apply skip_comment_node]].
    unfold s1, process_comment_node, bind, is_processed, gets, mark_processed, modify.
    simpl. case_bool_decide as Hin; [done|].
    unfold processESIComment, bind, gets. simpl.
    repeat case_match; try (simpl; set_solver);
      apply steady_processed; simpl; set_solver.
Qed.

Lemma standalone_tag_and_comment_are_fetched_once_witness :
  let s1 := (process_standalone_tag Example.browser 8
               (Example.state_of Example.element_try_page)).2 in
  process_standalone_tag Example.browser 8 s1 = (Normal tt, s1).
Proof.
  refine (proj2 (proj1 (standalone_tag_and_comment_are_fetched_once Example.browser
    (Example.state_of Example.element_try_page)) 8 "/missing.html" _ _)).
  - by vm_compute.
  - reflexivity.
Defined.
(** * Settings and statistics across page loads *)

Lemma processESI_saves B s :
  enabled (this s) = true →
  (processESI B s).1 = Normal tt →
  st_esiStats (storage (processESI B s).2) = Some (stats (this (processESI B s).2)).
Proof.
  intros Hon. unfold processESI, bind, gets, modify. simpl. rewrite Hon. simpl.
  destruct (processESITryBlocks B _) as [[[]|e] s1]; simpl; [|done].
  destruct (processStandaloneESITags B s1) as [[[]|e] s2]; simpl; [|done].
  destruct (processESIComments B s2) as [[[]|e] s3]; simpl; done.
Qed.

Lemma init_restores d sto now st :
  st_esiStats sto = Some st →
  let s := (init (start d sto now)).2 in
  stats (this s) = st ∧
  fragmentCounter (this s) = foldr Nat.max 0 (ids (fragments st)) ∧
  processedElements (this s) = ∅.
Proof.
  intros H. unfold init, loadSettings, loadStats, bind, gets, modify, start. simpl.
  rewrite H. done.
Qed.

(** X5.  What a completed pass has recorded is what the next load of the
    page starts from: a new instance that runs [init] on the storage the
    pass has left has the statistics of the pass, a counter that is the
    greatest id among them, and an empty processed set; after [clearStats]
    it starts from nothing. *)
Theorem recorded_stats_are_restored_on_reload (B : Browser) (s : State)
    (d : Document) (now : nat) :
  enabled (this s) = true →
  (processESI B s).1 = Normal tt →
  (let s1 := (processESI B s).2 in
   let s2 := (init (start d (storage s1) now)).2 in
   stats (this s2) = stats (this s1) ∧
   fragmentCounter (this s2) = foldr Nat.max 0 (ids (fragments (stats (this s1)))) ∧
   processedElements (this s2) = ∅) ∧
  (let s2 := (init (start d (storage (clearStats s).2) now)).2 in
   stats (this s2) = mkStats 0 0 0 [] ∧ fragmentCounter (this s2) = 0).
Proof.
  intros Hon Hdone. split.
  - intros s1 s2. apply init_restores. by apply processESI_saves.
  - done.
Qed.

Lemma recorded_stats_are_restored_on_reload_witness :
  let s1 := (processESI Example.browser
               (Example.state_of Example.element_try_page)).2 in
  stats (this (init (start Example.blank (storage s1) 2000)).2) = stats (this s1).
Proof.
  refine (proj1 (proj1 (recorded_stats_are_restored_on_reload Example.browser
    (Example.state_of Example.element_try_page) Example.blank 2000 _ _))).
  - reflexivity.
  - by vm_compute.
Defined.

Lemma init_completes s : (init s).1 = Normal tt.
Proof.
  unfold init, loadSettings, loadStats, bind, gets, modify. simpl.
  by destruct (st_esiStats (storage s)).
Qed.

Lemma init_frame s :
  document (init s).2 = document s ∧ storage (init s).2 = storage s ∧
  clock (init s).2 = clock s ∧ timers (init s).2 = timers s ∧
  enabled (this (init s).2) = negb (bool_decide (st_esiEnabled (storage s) = Some false)).
Proof.
  unfold init, loadSettings, loadStats, bind, gets, modify. simpl.
  by destruct (st_esiStats (storage s)).
Qed.

(** X6.  When the storage says that the extension is switched off, the
    content script is inert: after [init], the timer of a pass, however
    often it fires, leaves the page, the statistics, the storage, the clock
    and the timers as [init] left them, and [init] itself has touched
    neither the page nor the storage. *)
Theorem disabled_engine_is_inert (B : Browser) (d : Document) (st : Storage)
    (now n : nat) :
  st_esiEnabled st = Some false →
  run B (replicate n PassTimer) (start d st now) = init (start d st now) ∧
  let s1 := (run B (replicate n PassTimer) (start d st now)).2 in
  document s1 = d ∧ storage s1 = st ∧ clock s1 = now ∧ timers s1 = [].
Proof.
  intros Hoff.
  assert (H : run B (replicate n PassTimer) (start d st now) = init (start d st now)).
  { unfold run, bind.
    pose proof (init_completes (start d st now)) as Hc.
    pose proof (init_frame (start d st now)) as (_ & _ & _ & _ & He).
    destruct (init (start d st now)) as [c s0]. simpl in *. subst c.
    rewrite Hoff in He. simpl in He.
    induction n as [|n IH]; simpl; [done|].
    unfold bind, handle at 1, try_catch, processESI at 1, bind, gets. simpl.
    rewrite He. simpl. exact IH. }
  split; [done|]. simpl. rewrite H.
  by destruct (init_frame (start d st now)) as (-> & -> & -> & -> & _).
Qed.

Lemma disabled_engine_is_inert_witness :
  run Example.browser (replicate 3 PassTimer)
    (start Example.element_try_page
       (mkStorage (Some false) None None None None None) 1000) =
  init (start Example.element_try_page
          (mkStorage (Some false) None None None None None) 1000).
Proof.
  refine (proj1 (disabled_engine_is_inert Example.browser Example.element_try_page
    (mkStorage (Some false) None None None None None) 1000 3 _)).
  reflexivity.
Defined.

(** X7.  The listener of storage changes and [loadSettings] give a setting
    the same value, with one exception.  For the custom headers and for
    script execution the running instance ends with what a new instance
    would load from the changed storage, also when the key was removed; a
    key the event does not name keeps its value.  For the switch of the
    extension the two agree when the event carries a value; when the key
    was removed, the running instance is switched off, while a new instance
    would be switched on. *)
Theorem settings_listener_and_loadSettings (a : option (option bool))
    (b : option (option (list Header))) (c : option (option bool)) (s : State) :
  let s1 := (on_changed a b c s).2 in
  let reloaded := this (loadSettings s1).2 in
  match b with
  | Some _ => customHeaders (this s1) = customHeaders reloaded
  | None => customHeaders (this s1) = customHeaders (this s)
  end ∧
  match c with
  | Some _ => executeScripts (this s1) = executeScripts reloaded
  | None => executeScripts (this s1) = executeScripts (this s)
  end ∧
  match a with
  | Some (Some v) => enabled (this s1) = v ∧ enabled reloaded = v
  | Some None => enabled (this s1) = false ∧ enabled reloaded = true
  | None => enabled (this s1) = enabled (this s)
  end.
Proof.
  destruct a as [[[]|]|], b as [[]|], c as [[]|]; done.
Qed.
(** * The headers of a request *)

Lemma step_lookup (b : bool) (k v : string) (m : gmap string string) (name : string) :
  (if b then <[k := v]> m else m) !! name =
  if b && bool_decide (name = k) then Some v else m !! name.
Proof.
  destruct b; [|done]. rewrite lookup_insert. simpl.
  case_decide; case_bool_decide; by simplify_eq.
Qed.

Lemma forwarded_lookup (agent language : string) (names : list string)
    (base : gmap string string) (name : string) :
  foldl (λ (headers : gmap string string) (headerName : string),
      if JS.truthy language && bool_decide (headerName = "Accept-Language")
      then <["Accept-Language" := language]>
             (if JS.truthy agent && bool_decide (headerName = "User-Agent")
              then <["User-Agent" := agent]> headers else headers)
      else if JS.truthy agent && bool_decide (headerName = "User-Agent")
           then <["User-Agent" := agent]> headers else headers)
    base names !! name =
  if JS.truthy language && bool_decide ("Accept-Language" ∈ names) &&
     bool_decide (name = "Accept-Language")
  then Some language
  else if JS.truthy agent && bool_decide ("User-Agent" ∈ names) &&
          bool_decide (name = "User-Agent")
  then Some agent
  else base !! name.
Proof.
  induction names as [|h names IH] using rev_ind.
  - simpl. by rewrite !andb_false_r.
  - rewrite foldl_app. cbn [foldl].
    assert (Hin : ∀ x : string,
              bool_decide (x ∈ names ++ [h]) = bool_decide (x ∈ names) || bool_decide (h = x)).
    { intros x. rewrite <- bool_decide_or. apply bool_decide_ext.
      rewrite elem_of_app, list_elem_of_singleton. by split; intros [|]; auto. }
    rewrite !Hin. clear Hin.
    match goal with
    | |- (if ?b then <[?k:=?v]> ?X else ?X) !! _ = _ => rewrite (step_lookup b k v X)
    end.
    rewrite step_lookup, IH. clear IH.
    assert (H1 : bool_decide (h = "Accept-Language") && bool_decide (h = "User-Agent") = false).
    { repeat case_bool_decide; by simplify_eq. }
    assert (H2 : bool_decide (name = "Accept-Language") && bool_decide (name = "User-Agent") = false).
    { repeat case_bool_decide; by simplify_eq. }
    revert H1 H2.
    generalize (bool_decide (h = "Accept-Language")) (bool_decide (h = "User-Agent"))
      (bool_decide (name = "Accept-Language")) (bool_decide (name = "User-Agent"))
      (bool_decide ("Accept-Language" ∈ names)) (bool_decide ("User-Agent" ∈ names))
      (JS.truthy language) (JS.truthy agent).
    intros [] [] [] [] [] [] [] []; simpl; congruence.
Qed.

Lemma custom_lookup (l : list Header) (base : gmap string string) (name : string) :
  foldl (λ (headers : gmap string string) (header : Header),
      if JS.truthy (h_name header) && JS.truthy (h_value header)
      then <[h_name header := h_value header]> headers else headers)
    base l !! name =
  match last (filter (λ h, h_name h = name ∧
                           JS.truthy (h_name h) && JS.truthy (h_value h) = true) l) with
  | Some h => Some (h_value h)
  | None => base !! name
  end.
Proof.
  induction l as [|x l IH] using rev_ind; [done|].
  rewrite foldl_app, filter_app, last_app. cbn [foldl].
  rewrite filter_cons, filter_nil.
  destruct (JS.truthy (h_name x) && JS.truthy (h_value x)) eqn:E.
  - rewrite lookup_insert. case_decide as Hn.
    + by rewrite decide_True.
    + rewrite decide_False by (by intros [? _]). exact IH.
  - rewrite decide_False by (intros [_ ?]; congruence). exact IH.
Qed.

(** * The two regular expressions *)

Lemma string_app_assoc s t u : (s +:+ t) +:+ u = s +:+ (t +:+ u).
Proof.
  induction s as [|a s IH]; [by rewrite !app_empty|].
  by rewrite !app_cons, IH.
Qed.

Lemma rev_app_spec s t : String.rev_app s t = String.rev s +:+ t.
Proof.
  unfold String.rev. revert t. induction s as [|a s IH]; intros t; simpl.
  - by rewrite app_empty.
  - rewrite IH, (IH (String a EmptyString)), string_app_assoc.
    by rewrite app_cons, app_empty.
Qed.

Lemma rev_cons a s : String.rev (String a s) = String.rev s +:+ String a EmptyString.
Proof. unfold String.rev at 1. simpl. apply rev_app_spec. Qed.

Lemma prefix_drop l s :
  String.prefix l s = true → s = l +:+ JS.drop (String.length l) s.
Proof.
  revert s. induction l as [|a l IH]; intros s H.
  - by rewrite app_empty.
  - destruct s as [|b s]; [done|]. cbn [String.prefix] in H.
    destruct (ascii_dec a b) as [->|]; [|done].
    rewrite app_cons. cbn [String.length JS.drop]. f_equal. by apply IH.
Qed.

Lemma drop_app l t : JS.drop (String.length l) (l +:+ t) = t.
Proof.
  induction l as [|a l IH]; [rewrite app_empty; by destruct t|].
  rewrite app_cons. by cbn [String.length JS.drop].
Qed.

Section Matchers.
Context {R : Type}.
Implicit Types (k : string → option R) (c : ascii → bool).

Lemma lit_Some l k s r :
  RegExp.lit l k s = Some r → ∃ t, s = l +:+ t ∧ k t = Some r.
Proof.
  unfold RegExp.lit. destruct (String.prefix l s) eqn:E; [|done].
  intros H. eexists. split; [by apply prefix_drop|done].
Qed.

Lemma lit_app l k t : RegExp.lit l k (l +:+ t) = k t.
Proof. unfold RegExp.lit. by rewrite prefix_app, drop_app. Qed.

Lemma class_Some c k s r :
  RegExp.class c k s = Some r → ∃ a t, s = String a t ∧ c a = true ∧ k t = Some r.
Proof.
  destruct s as [|a t]; [done|]. simpl. destruct (c a) eqn:E; [|done]. by eauto.
Qed.

Lemma star_Some c k s r :
  RegExp.star c k s = Some r →
  ∃ u t, s = u +:+ t ∧ every_char c u = true ∧ k t = Some r.
Proof.
  induction s as [|a s IH]; simpl.
  - intros H. exists EmptyString, EmptyString. by rewrite app_empty.
  - destruct (c a) eqn:E.
    + destruct (RegExp.star c k s) as [r'|] eqn:E'.
      * intros [= ->]. destruct (IH eq_refl) as (u & t & -> & Hu & Ht).
        exists (String a u), t. rewrite app_cons. simpl. by rewrite E, Hu.
      * intros H. exists EmptyString, (String a s). by rewrite app_empty.
    + intros H. exists EmptyString, (String a s). by rewrite app_empty.
Qed.

Lemma plus_Some c k s r :
  RegExp.plus c k s = Some r →
  ∃ u t, s = u +:+ t ∧ u ≠ EmptyString ∧ every_char c u = true ∧ k t = Some r.
Proof.
  destruct s as [|a s]; [done|]. simpl. destruct (c a) eqn:E; [|done].
  intros (u & t & -> & Hu & Ht)%star_Some.
  exists (String a u), t. rewrite app_cons. simpl. by rewrite E, Hu.
Qed.

Lemma star_group_Some c acc (k : string → string → option R) s r :
  RegExp.star_group c acc k s = Some r →
  ∃ u t, s = u +:+ t ∧ every_char c u = true ∧ k (String.rev acc +:+ u) t = Some r.
Proof.
  revert acc. induction s as [|a s IH]; intros acc; simpl.
  - intros H. exists EmptyString, EmptyString.
    rewrite app_empty. split; [done|]. split; [done|].
    by replace (String.rev acc +:+ EmptyString) with (String.rev acc)
      by (clear; induction (String.rev acc) as [|b x IHx];
          [by rewrite app_empty|by rewrite app_cons, <- IHx]).
  - assert (Hnil : ∀ x, x +:+ EmptyString = x).
    { clear. intros x. induction x as [|b x IHx];
        [by rewrite app_empty|by rewrite app_cons, IHx]. }
    destruct (c a) eqn:E.
    + destruct (RegExp.star_group c (String a acc) k s) as [r'|] eqn:E'.
      * intros [= ->]. destruct (IH _ E') as (u & t & -> & Hu & Ht).
        exists (String a u), t. rewrite app_cons. simpl. rewrite E, Hu.
        split; [done|]. split; [done|].
        by rewrite rev_cons, string_app_assoc, app_cons, app_empty in Ht.
      * intros H. exists EmptyString, (String a s).
        by rewrite app_empty, Hnil.
    + intros H. exists EmptyString, (String a s). by rewrite app_empty, Hnil.
Qed.

Lemma plus_group_Some c (k : string → string → option R) s r :
  RegExp.plus_group c k s = Some r →
  ∃ u t, s = u +:+ t ∧ u ≠ EmptyString ∧ every_char c u = true ∧ k u t = Some r.
Proof.
  destruct s as [|a s]; [done|]. simpl. destruct (c a) eqn:E; [|done].
  intros (u & t & -> & Hu & Ht)%star_group_Some.
  exists (String a u), t. rewrite app_cons. simpl. rewrite E, Hu.
  repeat split; [done|].
  by rewrite rev_cons in Ht; cbn in Ht; rewrite app_empty, app_cons, app_empty in Ht.
Qed.

Lemma search_Some (m : string → option R) s r :
  RegExp.search m s = Some r → ∃ pre t, s = pre +:+ t ∧ m t = Some r.
Proof.
  induction s as [|a s IH]; simpl.
  - destruct (m EmptyString) eqn:E; [|done]. intros [= ->].
    exists EmptyString, EmptyString. by rewrite app_empty.
  - destruct (m (String a s)) eqn:E.
    + intros [= ->]. exists EmptyString, (String a s). by rewrite app_empty.
    + intros (pre & t & -> & Ht)%IH. exists (String a pre), t. by rewrite app_cons.
Qed.

Lemma search_complete (m : string → option R) pre t :
  is_Some (m t) → is_Some (RegExp.search m (pre +:+ t)).
Proof.
  intros [r Hr]. induction pre as [|a pre IH].
  - rewrite app_empty. destruct t; simpl; by rewrite Hr.
  - rewrite app_cons. simpl. by destruct (m (String a (pre +:+ t))).
Qed.

(** A greedy group takes a run of the class whole when the rest of the
    pattern then matches. *)
Lemma star_group_greedy c acc (k : string → string → option R) u t r :
  every_char c u = true →
  k (String.rev acc +:+ u) t = Some r →
  is_Some (RegExp.star_group c acc k (u +:+ t)).
Proof.
  revert acc. induction u as [|a u IH]; intros acc Hu Hk.
  - rewrite app_empty.
    replace (String.rev acc +:+ EmptyString) with (String.rev acc) in Hk
      by (clear; induction (String.rev acc) as [|b x IHx];
          [by rewrite app_empty|by rewrite app_cons, <- IHx]).
    destruct t as [|b t]; simpl; [by rewrite Hk|].
    destruct (c b); [|by rewrite Hk].
    destruct (RegExp.star_group c (String b acc) k t); [done|by rewrite Hk].
  - simpl in Hu. apply andb_true_iff in Hu as [Ha Hu].
    rewrite app_cons. simpl. rewrite Ha.
    destruct (IH (String a acc) Hu) as [r' ->]; [|done].
    by rewrite rev_cons, string_app_assoc, app_cons, app_empty.
Qed.

End Matchers.

Lemma truthy_nonempty s : JS.truthy s = true ↔ s ≠ EmptyString.
Proof. unfold JS.truthy. by destruct s. Qed.

Lemma src_at_Some comment url :
  RegExp.src_at comment = Some url →
  JS.truthy url = true ∧ every_char RegExp.not_quote url = true ∧
  ∃ q1 q2 rest,
    RegExp.quote q1 = true ∧ RegExp.quote q2 = true ∧
    comment = "src=" +:+ String q1 (url +:+ String q2 rest).
Proof.
  unfold RegExp.src_at.
  intros (t1 & -> & (q1 & t2 & -> & Hq1 & H)%class_Some)%lit_Some.
  apply plus_group_Some in H as (u & t3 & -> & Hne & Hu & H).
  apply class_Some in H as (q2 & rest & -> & Hq2 & [= ->]).
  split; [by apply truthy_nonempty|]. split; [done|].
  by exists q1, q2, rest.
Qed.

Lemma src_at_complete q1 q2 url rest :
  RegExp.quote q1 = true → RegExp.quote q2 = true →
  JS.truthy url = true → every_char RegExp.not_quote url = true →
  is_Some (RegExp.src_at ("src=" +:+ String q1 (url +:+ String q2 rest))).
Proof.
  intros Hq1 Hq2 Hne Hu. unfold RegExp.src_at. rewrite lit_app. simpl. rewrite Hq1.
  destruct url as [|a url]; [done|]. simpl in Hu. apply andb_true_iff in Hu as [Ha Hu].
  rewrite app_cons. simpl. rewrite Ha.
  apply (star_group_greedy _ _ _ url (String q2 rest) (String a url)); [done|].
  rewrite rev_cons. cbn. rewrite app_empty, app_cons, app_empty. simpl. by rewrite Hq2.
Qed.

Lemma run_unique c u1 a1 t1 u2 a2 t2 :
  every_char c u1 = true → every_char c u2 = true →
  c a1 = false → c a2 = false →
  u1 +:+ String a1 t1 = u2 +:+ String a2 t2 → u1 = u2.
Proof.
  revert u2. induction u1 as [|b u1 IH]; intros [|b2 u2] H1 H2 Ha1 Ha2;
    rewrite ?app_cons, ?app_empty; simpl in *.
  - done.
  - intros [= -> _]. apply andb_true_iff in H2 as [H2 _]. congruence.
  - intros [= -> _]. apply andb_true_iff in H1 as [H1 _]. congruence.
  - apply andb_true_iff in H1 as [_ H1]. apply andb_true_iff in H2 as [_ H2].
    intros [= -> H]. f_equal. by apply IH.
Qed.

Lemma quote_not_quote q : RegExp.quote q = true → RegExp.not_quote q = false.
Proof. unfold RegExp.not_quote. by intros ->. Qed.

Lemma src_at_exact q1 q2 url rest :
  RegExp.quote q1 = true → RegExp.quote q2 = true →
  JS.truthy url = true → every_char RegExp.not_quote url = true →
  RegExp.src_at ("src=" +:+ String q1 (url +:+ String q2 rest)) = Some url.
Proof.
  intros Hq1 Hq2 Hne Hu.
  destruct (src_at_complete q1 q2 url rest Hq1 Hq2 Hne Hu) as [u' Hu'].
  rewrite Hu'. f_equal.
  destruct (src_at_Some _ _ Hu') as (_ & Hall & q1' & q2' & rest' & _ & Hq2' & Heq).
  apply String.app_inj in Heq. injection Heq as _ Heq.
  symmetry in Heq. by eapply run_unique, Heq; auto using quote_not_quote.
Qed.

Lemma match_src_Some comment url :
  RegExp.match_src comment = Some url →
  JS.truthy url = true ∧ every_char RegExp.not_quote url = true ∧
  ∃ before q1 q2 rest,
    RegExp.quote q1 = true ∧ RegExp.quote q2 = true ∧
    comment = before +:+ "src=" +:+ String q1 (url +:+ String q2 rest).
Proof.
  intros (before & t & -> & H)%search_Some.
  destruct (src_at_Some _ _ H) as (Hne & Hall & q1 & q2 & rest & Hq1 & Hq2 & ->).
  split; [done|]. split; [done|]. by exists before, q1, q2, rest.
Qed.

Lemma match_include_src_Some comment url :
  RegExp.match_include_src comment = Some url →
  JS.truthy url = true ∧ every_char RegExp.not_quote url = true ∧
  (∃ before gap q1 q2 tail rest,
     JS.truthy gap = true ∧ every_char RegExp.not_gt gap = true ∧
     every_char RegExp.not_gt tail = true ∧
     RegExp.quote q1 = true ∧ RegExp.quote q2 = true ∧
     comment = before +:+ "<esi:include" +:+ gap +:+ "src=" +:+
               String q1 (url +:+ String q2 (tail +:+ ">" +:+ rest))) ∧
  JS.includes comment "<esi:include" = true ∧
  is_Some (RegExp.match_src comment).
Proof.
  intros (before & t & -> & H)%search_Some. unfold RegExp.include_src_at in H.
  apply lit_Some in H as (t1 & -> & H).
  apply plus_Some in H as (gap & t2 & -> & Hgap & Hgap' & H).
  apply lit_Some in H as (t3 & -> & H).
  apply class_Some in H as (q1 & t4 & -> & Hq1 & H).
  apply plus_group_Some in H as (u & t5 & -> & Hne & Hu & H).
  apply class_Some in H as (q2 & t6 & -> & Hq2 & H).
  apply star_Some in H as (tail & t7 & -> & Htail & H).
  apply lit_Some in H as (rest & -> & [= ->]).
  apply truthy_nonempty in Hne, Hgap.
  split; [done|]. split; [done|]. split; [|split].
  - by exists before, gap, q1, q2, tail, rest.
  - apply includes_app_r.
  - rewrite <- !string_app_assoc. rewrite string_app_assoc.
    apply search_complete. by apply src_at_complete.
Qed.

(** X9.  The pattern of the simple-include branch.  What [match_src] gives
    is not empty, holds no quote, and stands in the comment between two
    quotes right after [src=]; a comment that holds [src=], a quote, a
    non-empty text without quotes and a quote has a match, and when it
    begins with them the match is that text. *)
Theorem match_src_is_a_quoted_source (comment : string) :
  (∀ url, RegExp.match_src comment = Some url →
     JS.truthy url = true ∧ every_char RegExp.not_quote url = true ∧
     ∃ before q1 q2 rest,
       RegExp.quote q1 = true ∧ RegExp.quote q2 = true ∧
       comment = before +:+ "src=" +:+ String q1 (url +:+ String q2 rest)) ∧
  (∀ before q1 q2 url rest,
     RegExp.quote q1 = true → RegExp.quote q2 = true →
     JS.truthy url = true → every_char RegExp.not_quote url = true →
     comment = before +:+ "src=" +:+ String q1 (url +:+ String q2 rest) →
     is_Some (RegExp.match_src comment) ∧
     (before = EmptyString → RegExp.match_src comment = Some url)).
Proof.
  split; [apply match_src_Some|].
  intros before q1 q2 url rest Hq1 Hq2 Hne Hu ->. split.
  - apply search_complete. by apply src_at_complete.
  - intros ->. rewrite app_empty. unfold RegExp.match_src.
    pose proof (src_at_exact q1 q2 url rest Hq1 Hq2 Hne Hu) as H.
    rewrite app_cons in *. cbn [RegExp.search]. by rewrite H.
Qed.

Lemma match_src_is_a_quoted_source_witness :
  RegExp.match_src "src='/a.html' " = Some "/a.html".
Proof.
  refine (proj2 (proj2 (match_src_is_a_quoted_source "src='/a.html' ")
    EmptyString "'"%char "'"%char "/a.html" " " _ _ _ _ _) _); reflexivity.
Defined.

(** X10.  The pattern of the try-block branch.  What [match_include_src]
    gives is not empty, holds no quote, and stands between two quotes after
    [<esi:include], at least one character other than [>], and [src=], the
    tag being closed by a [>] with no other [>] since the closing quote; and
    a comment in which this pattern matches is one in which the pattern of
    the simple-include branch matches too. *)
Theorem match_include_src_is_a_quoted_source (comment url : string) :
  RegExp.match_include_src comment = Some url →
  JS.truthy url = true ∧ every_char RegExp.not_quote url = true ∧
  (∃ before gap q1 q2 tail rest,
     JS.truthy gap = true ∧ every_char RegExp.not_gt gap = true ∧
     every_char RegExp.not_gt tail = true ∧
     RegExp.quote q1 = true ∧ RegExp.quote q2 = true ∧
     comment = before +:+ "<esi:include" +:+ gap +:+ "src=" +:+
               String q1 (url +:+ String q2 (tail +:+ ">" +:+ rest))) ∧
  JS.includes comment "<esi:include" = true ∧
  is_Some (RegExp.match_src comment).
Proof. apply match_include_src_Some. Qed.

Lemma match_include_src_is_a_quoted_source_witness :
  is_Some (RegExp.match_src " <esi:try><esi:include src='/a.html'/> ").
Proof.
  refine (proj2 (proj2 (proj2 (proj2 (match_include_src_is_a_quoted_source
    " <esi:try><esi:include src='/a.html'/> " "/a.html" _))))).
  reflexivity.
Defined.

(** X11.  A comment directive is fetched with a source that is not empty and
    holds no quote, or not at all: [processESIComment] either leaves the
    state as it is or is one call of [fetchAndReplaceESI] on the comment with
    such a source, as a try block exactly when the comment holds
    [<esi:try>]. *)
Theorem comment_source_is_never_empty (B : Browser) (commentNode : NodeId) (s : State) :
  processESIComment B commentNode s = (Normal tt, s) ∨
  ∃ url oc,
    JS.truthy url = true ∧ every_char RegExp.not_quote url = true ∧
    let comment := DOM.valueOf (document s) commentNode in
    let tb := JS.includes comment "<esi:try>" in
    oc = (if tb then Some comment else None) ∧
    processESIComment B commentNode s = fetchAndReplaceESI B commentNode url oc tb s.
Proof.
  unfold processESIComment, bind, gets. simpl.
  destruct (JS.includes _ "<esi:try>").
  - destruct (RegExp.match_include_src _) as [url|] eqn:E; [|by left].
    right. exists url, (Some (DOM.valueOf (document s) commentNode)).
    by destruct (match_include_src_Some _ _ E) as (? & ? & _).
  - destruct (RegExp.match_src _) as [url|] eqn:E; [|by left].
    right. exists url, None.
    by destruct (match_src_Some _ _ E) as (? & ? & _).
Qed.
(** * The scripts of a fragment *)

Lemma appendChild_children d parent child :
  DOM.parentOf d child = None → is_Some (nodes d !! parent) →
  DOM.childrenOf (DOM.appendChild parent child d) parent = DOM.childrenOf d parent ++ [child].
Proof.
  intros Hdet [x Hx]. unfold DOM.appendChild. rewrite remove_detached by done.
  unfold DOM.set_parent. rewrite childrenOf_update by done.
  rewrite childrenOf_set_children, decide_True by done. by rewrite Hx.
Qed.

Lemma childrenOf_agree d d' x :
  nodes d' !! x = nodes d !! x → DOM.childrenOf d' x = DOM.childrenOf d x.
Proof. unfold DOM.childrenOf. by intros ->. Qed.

Lemma parentOf_agree d d' x :
  nodes d' !! x = nodes d !! x → DOM.parentOf d' x = DOM.parentOf d x.
Proof. unfold DOM.parentOf. by intros ->. Qed.

(** The loop of [executeScript] that copies the attributes: it stops at the
    first name that [setAttribute] rejects, and touches nothing but the
    attributes of the new element. *)
Lemma copy_attributes newScript (attrs : list (string * string)) s :
  let r := for_of attrs (λ attr,
             if valid_attribute_name attr.1
             then dom_ (DOM.setAttribute newScript attr.1 attr.2)
             else throw "InvalidCharacterError") s in
  r.1 = (if forallb (λ a, valid_attribute_name a.1) attrs
         then Normal tt else Throw "InvalidCharacterError") ∧
  this r.2 = this s ∧ storage r.2 = storage s ∧ clock r.2 = clock s ∧
  timers r.2 = timers s ∧
  nextNode (document r.2) = nextNode (document s) ∧
  (∀ x, x ≠ newScript → nodes (document r.2) !! x = nodes (document s) !! x) ∧
  DOM.parentOf (document r.2) newScript = DOM.parentOf (document s) newScript ∧
  DOM.childrenOf (document r.2) newScript = DOM.childrenOf (document s) newScript.
Proof.
  revert s. induction attrs as [|[name value] attrs IH]; intros s; [done|].
  cbv zeta. cbn [forallb fst].
  destruct (valid_attribute_name name) eqn:E; cbn [andb].
  - set (body := λ attr : string * string, _).
    assert (Heq : for_of ((name, value) :: attrs) body s =
                  for_of attrs body (set_document (DOM.setAttribute newScript name value) s)).
    { cbn [for_of]. unfold bind, body at 1. cbn [fst snd]. by rewrite E. }
    rewrite Heq.
    destruct (IH (set_document (DOM.setAttribute newScript name value) s))
      as (H1 & H2 & H3 & H4 & H5 & H6 & H7 & H8 & H9).
    fold body in H1, H2, H3, H4, H5, H6, H7, H8, H9.
    split; [done|]. repeat (split; [done|]).
    split; [|split].
    + intros x Hx. rewrite H7 by done. simpl. by apply setAttribute_old.
    + rewrite H8. simpl. by apply parentOf_update.
    + rewrite H9. simpl. by apply childrenOf_update.
  - cbn [for_of]. unfold bind. cbn [fst snd]. by rewrite E.
Qed.
Lemma executeScript_outcome B script container s :
  let r := executeScript B script container s in
  let valid := forallb (λ a : string * string, valid_attribute_name a.1)
                 (s_attributes script) in
  r.1 = (if valid && JS.truthy (s_src script) &&
            negb (script_loads B (clock s) (s_src script))
         then Throw "undefined" else Normal tt) ∧
  clock r.2 = (if valid && JS.truthy (s_src script) then S (clock s) else clock s) ∧
  this r.2 = this s ∧ storage r.2 = storage s ∧ timers r.2 = timers s ∧
  (is_Some (nodes (document s) !! container) →
   container < nextNode (document s) →
   DOM.childrenOf (document r.2) container =
     DOM.childrenOf (document s) container ++
       (if valid then [nextNode (document s)] else [])).
Proof.
  intros r valid.
  pose proof (eq_refl : r = executeScript B script container s) as Hr. clearbody r.
  unfold executeScript, bind, try_catch, dom in Hr.
  cbn [DOM.createElement DOM.create fst snd] in Hr.
  set (d1 := mkDocument _ _) in Hr.
  set (s1 := set_document (λ _, d1) s) in Hr.
  pose proof (copy_attributes (nextNode (document s)) (s_attributes script) s1)
    as (H1 & H2 & H3 & H4 & H5 & H6 & H7 & H8 & H9).
  fold valid in H1.
  destruct (for_of _ _ s1) as [c s2]. simpl in H1, H2, H3, H4, H5, H6, H7, H8, H9.
  subst c.
  assert (Hnew : nodes d1 !! nextNode (document s) =
                 Some (mkNode ELEMENT_NODE (JS.toLowerCase "script") EmptyString [] None []))
    by apply lookup_insert_eq.
  assert (Hp : DOM.parentOf (document s2) (nextNode (document s)) = None).
  { rewrite H8. unfold DOM.parentOf. by rewrite Hnew. }
  assert (Hc : DOM.childrenOf (document s2) (nextNode (document s)) = []).
  { rewrite H9. unfold DOM.childrenOf. by rewrite Hnew. }
  assert (Hold : ∀ x, x < nextNode (document s) →
            nodes (document s2) !! x = nodes (document s) !! x).
  { intros x Hx. rewrite H7 by lia. unfold d1. simpl. apply lookup_insert_ne. lia. }
  destruct valid; cbn [andb].
  - destruct (JS.truthy (s_src script)) eqn:Esrc; cbn [andb].
    + unfold dom_, modify, ret, Date_now, gets, tick in Hr. cbn [fst snd] in Hr.
      change (clock (set_document (DOM.appendChild container (nextNode (document s))) s2))
        with (clock s2) in Hr.
      rewrite H4 in Hr.
      assert (Hkids : is_Some (nodes (document s) !! container) →
                container < nextNode (document s) →
                DOM.childrenOf (DOM.appendChild container (nextNode (document s)) (document s2))
                  container = DOM.childrenOf (document s) container ++ [nextNode (document s)]).
      { intros Hcont Hlt. rewrite appendChild_children; [|done|by rewrite Hold].
        f_equal. apply childrenOf_agree. by apply Hold. }
      destruct (script_loads B (clock s) (s_src script)); subst r; cbn;
        rewrite H2, H3, H4, H5; done.
    + unfold dom_, modify, ret in Hr. cbn [fst snd] in Hr. subst r.
      cbn [fst snd this storage clock timers document set_document].
      rewrite H2, H3, H4, H5. repeat (split; [done|]).
      intros Hcont Hlt.
      destruct (replaceChildren_fresh (nextNode (document s))
                  [MText (s_textContent script)] (document s2)) as (Hk & Hn & _);
        [done|lia|].
      rewrite appendChild_children.
      * f_equal. rewrite <- (childrenOf_agree (document s) (document s2)) by by apply Hold.
        apply childrenOf_agree. apply Hk; lia.
      * unfold DOM.parentOf in *. rewrite Hn.
        destruct (nodes (document s2) !! nextNode (document s)); done.
      * rewrite Hk by lia. by rewrite Hold.
  - unfold ret in Hr. subst r. cbn. rewrite H2, H3, H4, H5. repeat (split; [done|]).
    intros Hcont Hlt. rewrite app_nil_r. apply childrenOf_agree. by apply Hold.
Qed.

Lemma is_script_remove_scripts m : is_script (remove_scripts m) = is_script m.
Proof. by destruct m. Qed.

Lemma scripts_below_remove_scripts m : scripts_below (remove_scripts m) = [].
Proof.
  induction m as [name attrs children IH| |] using Markup_induction; [|done|done].
  simpl. induction IH as [|c cs Hc _ IHcs]; [done|].
  destruct (is_script c) eqn:E; [exact IHcs|].
  rewrite is_script_remove_scripts, E, Hc. simpl. exact IHcs.
Qed.

Lemma body_of_remove_scripts doc body :
  body_of (remove_scripts doc) = Some body →
  is_body body = true ∧ is_script body = false ∧ scripts_below body = [].
Proof.
  unfold body_of. destruct (list_find _ _) as [[i b]|] eqn:E; [|done].
  intros [= <-]. apply list_find_Some in E as (Hi & Hb & _). simpl.
  split; [done|].
  destruct doc as [name attrs children| |]; [|done|done]. simpl in Hi.
  revert i Hi. induction children as [|c cs IH]; intros i Hi; [done|].
  destruct (is_script c) eqn:Ec; [by eapply IH|].
  destruct i as [|i]; [|by eapply IH].
  injection Hi as <-. by rewrite is_script_remove_scripts, scripts_below_remove_scripts.
Qed.

Lemma for_of_app_throw {A} (l1 l2 : list A) body s e :
  (for_of l1 body s).1 = Throw e → for_of (l1 ++ l2) body s = for_of l1 body s.
Proof.
  revert s. induction l1 as [|x l1 IH]; intros s; [done|].
  simpl. unfold bind. destruct (body x s) as [[[]|e'] s1]; [apply IH|done].
Qed.

(** X12.  [executeScript] rejects in one case only: the attributes of the
    script were all accepted, the script has a source, and the load fails;
    the error is then the [undefined] of [reject()].  An attribute name that
    [setAttribute] refuses is swallowed by the [catch]: the call completes,
    no load is started and nothing is appended.  Otherwise exactly one new
    element is appended to the container, and one load, if the script has a
    source, has taken its time.  The processor, the storage and the timers
    are as they were. *)
Theorem executeScript_rejects_only_on_a_failed_load (B : Browser) (script : Script)
    (container : NodeId) (s : State) :
  let r := executeScript B script container s in
  let valid := forallb (λ a : string * string, valid_attribute_name a.1)
                 (s_attributes script) in
  r.1 = (if valid && JS.truthy (s_src script) &&
            negb (script_loads B (clock s) (s_src script))
         then Throw "undefined" else Normal tt) ∧
  clock r.2 = (if valid && JS.truthy (s_src script) then S (clock s) else clock s) ∧
  this r.2 = this s ∧ storage r.2 = storage s ∧ timers r.2 = timers s ∧
  (is_Some (nodes (document s) !! container) →
   container < nextNode (document s) →
   DOM.childrenOf (document r.2) container =
     DOM.childrenOf (document s) container ++
       (if valid then [nextNode (document s)] else [])).
Proof. apply executeScript_outcome. Qed.

Lemma executeScript_rejects_only_on_a_failed_load_witness :
  let s := Example.state_of Example.bare_try_page in
  DOM.childrenOf
    (document (executeScript Example.browser
                 (mkScript [("bad name", "x")] EmptyString "inline()") 2 s).2) 2 =
  DOM.childrenOf (document s) 2 ++ [].
Proof.
  refine (proj2 (proj2 (proj2 (proj2 (proj2
    (executeScript_rejects_only_on_a_failed_load Example.browser
       (mkScript [("bad name", "x")] EmptyString "inline()") 2
       (Example.state_of Example.bare_try_page)))))) _ _).
  - apply (bool_decide_unpack _). by vm_compute.
  - vm_compute. lia.
Defined.

Lemma run_scripts_loaded B (scripts : list Script) container s :
  Forall (λ sc, JS.truthy (s_src sc) = true →
                ∀ now, script_loads B now (s_src sc) = true) scripts →
  (run_scripts B (mkTimer scripts container) s).1 = Normal tt.
Proof.
  unfold run_scripts. simpl. intros H. revert s.
  induction H as [|sc scripts Hsc _ IH]; intros s; [done|].
  simpl. unfold bind.
  pose proof (executeScript_outcome B sc container s) as (Hr & _).
  destruct (executeScript B sc container s) as [c s1]. simpl in Hr. subst c.
  destruct (forallb _ _); simpl; [|apply IH].
  destruct (JS.truthy (s_src sc)); simpl; [|apply IH].
  rewrite Hsc by done. simpl. apply IH.
Qed.

(** X13.  The callback of the script timer.  It completes when every
    script with a source loads; once a script has rejected, the scripts
    after it are not run: a list behaves as its part up to the script that
    rejects.  However it ends, the processor and the storage, hence the
    recorded statistics, are as they were. *)
Theorem run_scripts_stops_at_a_failed_load (B : Browser) (scripts : list Script)
    (container : NodeId) (s : State) :
  (Forall (λ sc, JS.truthy (s_src sc) = true →
                 ∀ now, script_loads B now (s_src sc) = true) scripts →
   (run_scripts B (mkTimer scripts container) s).1 = Normal tt) ∧
  (∀ pre post e,
     scripts = pre ++ post →
     (run_scripts B (mkTimer pre container) s).1 = Throw e →
     run_scripts B (mkTimer scripts container) s =
     run_scripts B (mkTimer pre container) s) ∧
  this (run_scripts B (mkTimer scripts container) s).2 = this s ∧
  storage (run_scripts B (mkTimer scripts container) s).2 = storage s.
Proof.
  split; [apply run_scripts_loaded|]. split; [|apply frame_run_scripts].
  intros pre post e -> H. unfold run_scripts in *. simpl in *.
  by eapply for_of_app_throw.
Qed.

Lemma run_scripts_stops_at_a_failed_load_witness :
  (run_scripts Example.browser
     (mkTimer [mkScript [] EmptyString "a()";
               mkScript [("src", "https://h/ok.js")] "https://h/ok.js" EmptyString] 2)
     (Example.state_of Example.bare_try_page)).1 = Normal tt.
Proof.
  refine (proj1 (run_scripts_stops_at_a_failed_load Example.browser
    [mkScript [] EmptyString "a()";
     mkScript [("src", "https://h/ok.js")] "https://h/ok.js" EmptyString] 2
    (Example.state_of Example.bare_try_page)) _).
  repeat constructor; intros; by vm_compute.
Defined.


(** * The statistics and their list of fragments *)

Lemma tallied_recorded f p : tallied (stats p) → tallied (stats (recorded f p)).
Proof.
  intros (H1 & H2 & H3). unfold tallied, recorded. simpl.
  rewrite !filter_app, !length_app, H1, H2, H3. simpl.
  rewrite !filter_cons, !filter_nil.
  destruct (f_success f); simpl; repeat split; lia.
Qed.




(** * Includes inside try blocks and the list of standalone includes *)

Lemma try_tag_test t :
  bool_decide (JS.toLowerCase t = "esi:try") || bool_decide (t = "ESI:TRY") =
  bool_decide (JS.toLowerCase t = "esi:try").
Proof.
  destruct (bool_decide (JS.toLowerCase t = "esi:try")) eqn:E; [done|].
  simpl. apply bool_decide_eq_false_2. intros ->.
  by apply bool_decide_eq_false_1 in E.
Qed.

Lemma isInsideESITryBlock_loop_spec fuel d parent :
  isInsideESITryBlock_loop fuel d parent = true ↔
  Exists (λ a, JS.toLowerCase (DOM.tagName d a) = "esi:try")
    (parentElements fuel d parent).
Proof.
  revert parent. induction fuel as [|fuel IH]; intros [p|]; simpl;
    try (split; [done|by intros ?%Exists_nil]).
  rewrite try_tag_test, Exists_cons. case_bool_decide as E.
  - split; [by left|done].
  - rewrite IH. split; [by right|]. by intros [|].
Qed.

Lemma querySelectorAll_case d root (a b : string) :
  JS.toLowerCase a = JS.toLowerCase b →
  DOM.querySelectorAll d root [a] = DOM.querySelectorAll d root [b].
Proof.
  intros H. unfold DOM.querySelectorAll, DOM.matches. simpl. by rewrite H.
Qed.

(** X17.  [isInsideESITryBlock] answers whether one of the parent elements
    of the element, walked upwards, has the tag name [esi:try] in whatever
    case; the second comparison of the loop, with [ESI:TRY], never decides.
    An element whose parent element is a try block is inside one, and an
    element that is inside one is never in the list of standalone includes,
    whether it was marked as processed or not. *)
Theorem isInsideESITryBlock_walks_the_parent_elements (d : Document) (element : NodeId) :
  (isInsideESITryBlock d element = true ↔
   Exists (λ a, JS.toLowerCase (DOM.tagName d a) = "esi:try")
     (parentElements (size (nodes d)) d (DOM.parentElement d element))) ∧
  (∀ t, DOM.parentElement d element = Some t →
        JS.toLowerCase (DOM.tagName d t) = "esi:try" →
        isInsideESITryBlock d element = true) ∧
  (∀ p, isInsideESITryBlock d element = true → element ∉ standalone_includes d p).
Proof.
  split; [apply isInsideESITryBlock_loop_spec|]. split.
  - intros t Ht Htag. apply isInsideESITryBlock_loop_spec. rewrite Ht.
    destruct (size (nodes d)) as [|n] eqn:Hsize.
    + apply map_size_empty_iff in Hsize. unfold DOM.parentElement, DOM.parentOf in Ht.
      by rewrite Hsize, lookup_empty in Ht.
    + simpl. by left.
  - intros p Hin Hel. unfold standalone_includes in Hel.
    apply list_elem_of_bind in Hel as (selector & Hel & _).
    apply list_elem_of_filter in Hel as [[_ Hout] _]. congruence.
Qed.

Lemma isInsideESITryBlock_walks_the_parent_elements_witness :
  5 ∉ standalone_includes Example.element_try_page constructor.
Proof.
  refine (proj2 (proj2 (isInsideESITryBlock_walks_the_parent_elements
    Example.element_try_page 5)) constructor _).
  by vm_compute.
Defined.

(** X18.  The list of standalone includes holds every tag twice: the four
    selectors are two names, each in lower and in upper case, and a selector
    matches the elements of the page whatever its case; the list is the tags
    named [esi:include], those named [esi-include], and then both again, so
    that the second look at the processed set in the loop is what keeps a tag
    from being fetched twice. *)
Theorem standalone_includes_lists_each_tag_twice (d : Document) (p : ESIProcessor) :
  let keep := filter (λ tag, (tag ∉ processedElements p) ∧
                             isInsideESITryBlock d tag = false) in
  let colon := keep (DOM.querySelectorAll d DOM.documentNode ["esi:include"]) in
  let dash := keep (DOM.querySelectorAll d DOM.documentNode ["esi-include"]) in
  standalone_includes d p = colon ++ dash ++ colon ++ dash.
Proof.
  unfold standalone_includes. cbn [mbind list_bind]. simpl.
  rewrite (querySelectorAll_case d _ "ESI:INCLUDE" "esi:include") by done.
  rewrite (querySelectorAll_case d _ "ESI-INCLUDE" "esi-include") by done.
  by rewrite app_nil_r.
Qed.
(** * The highlight of [jumpToFragment] *)

Lemma assoc_get_set name value l name' :
  DOM.assoc_get name' (DOM.assoc_set name value l) =
  if decide (name = name') then Some value else DOM.assoc_get name' l.
Proof.
  induction l as [|[k v] l IH]; simpl.
  - by repeat case_decide.
  - destruct (decide (k = name)) as [->|Hk]; simpl.
    + by repeat case_decide.
    + rewrite IH. repeat case_decide; by simplify_eq.
Qed.

Lemma getAttribute_setAttribute n name value d x name' :
  DOM.getAttribute (DOM.setAttribute n name value d) x name' =
  if decide (n = x ∧ name = name')
  then (if nodes d !! x is Some _ then Some value else None)
  else DOM.getAttribute d x name'.
Proof.
  unfold DOM.getAttribute, DOM.setAttribute. rewrite nodes_update.
  destruct (decide (n = x)) as [->|Hn].
  - destruct (nodes d !! x) as [y|]; simpl.
    + rewrite assoc_get_set. repeat case_decide; try done; tauto.
    + by case_decide.
  - rewrite decide_False by tauto. done.
Qed.

Lemma valueOf_update f n d x :
  (∀ y, nodeValue (f y) = nodeValue y) →
  DOM.valueOf (DOM.update f n d) x = DOM.valueOf d x.
Proof.
  intros Hf. unfold DOM.valueOf. rewrite nodes_update.
  case_decide; [|done]. subst. by destruct (nodes d !! x); simpl.
Qed.

Lemma getElementById_is_element d id n :
  DOM.getElementById d id = Some n →
  DOM.isElement d n = true ∧ DOM.getAttribute d n "id" = Some id.
Proof.
  unfold DOM.getElementById. intros H%head_Some_elem_of.
  apply list_elem_of_filter in H as [H _].
  apply andb_true_iff in H as [H1 H2]. by apply bool_decide_eq_true in H2.
Qed.

(** * A fetch that cannot be made, and a body that cannot be read *)

Lemma failure_is_shown B element url oc tb s p message :
  allocated (document s) →
  is_Some (DOM.documentElement (document s)) →
  DOM.parentOf (document s) element = Some p →
  fetch_error B (clock s) (fetchOptions B (this s) url) = Some message →
  let fragmentId := S (fragmentCounter (this s)) in
  let panel := error_panel B fragmentId ("esi-fragment-" +:+ pretty fragmentId)
                 url message (document s) in
  let r := fetchAndReplaceESI B element url oc tb s in
  r.1 = Normal tt ∧
  (∃ ts, stats (this r.2) =
     mkStats (S (total (stats (this s)))) (successful (stats (this s)))
       (S (failed (stats (this s))))
       (fragments (stats (this s)) ++
          [mkFragment fragmentId url (resolveUrl B url) false (Some message) ts])) ∧
  st_esiStats (storage r.2) = Some (stats (this r.2)) ∧
  processedElements (this r.2) = processedElements (this s) ∧
  panel.1 = nextNode (document s) ∧
  DOM.getAttribute panel.2 panel.1 "id" = Some ("esi-fragment-" +:+ pretty fragmentId) ∧
  DOM.getAttribute panel.2 panel.1 "class" = Some "esi-error" ∧
  document r.2 =
    document (replaceESIElement element panel.1 oc tb (failed_state s panel)).2 ∧
  (DOM.isComment (document s) element = false ∨ (tb = false ∧ oc = None) →
   DOM.childrenOf (document r.2) p =
     DOM.substitute element panel.1 (DOM.childrenOf (document s) p) ∧
   DOM.parentOf (document r.2) element = None ∧
   DOM.parentOf (document r.2) panel.1 = Some p).
Proof.
  intros Halloc Hroot Hp Herr fragmentId panel r.
  destruct (failed_directive_outcome B element url oc tb s p message Halloc Hp Herr)
    as (Hid & Hp1 & Hpanel_parent & Hcomment & Hout).
  fold fragmentId panel r in Hid, Hp1, Hpanel_parent, Hcomment, Hout.
  destruct (error_panel_spec B fragmentId ("esi-fragment-" +:+ pretty fragmentId)
              url message (document s)) as (_ & Hold & Hnext & children & Hnode).
  fold panel in Hold, Hnext, Hnode.
  assert (Hroot1 : is_Some (DOM.documentElement panel.2)).
  { by apply (documentElement_preserved (document s)). }
  destruct Hout as (Hdone & Hdoc & Hproc & Hstats).
  { by apply replaceESIElement_completes. }
  split; [done|]. split; [done|]. split.
  { pose proof (fetchAndReplaceESI_this B element url oc tb s) as H. unfold wp in H.
    fold r in H. rewrite Hp, Hdone in H. destruct H as (f & _ & _ & _ & _ & ->). done. }
  split; [done|]. split; [done|]. split.
  { unfold DOM.getAttribute. rewrite Hid, Hnode. done. }
  split.
  { unfold DOM.getAttribute. rewrite Hid, Hnode. done. }
  split; [done|].
  intros Hcase. rewrite Hdoc.
  rewrite (replaceESIElement_in_place element panel.1 oc tb (failed_state s panel) p);
    [|done|cbn [document failed_state]; by rewrite Hcomment].
  cbn [snd document set_document failed_state].
  destruct Halloc as (Hlt & Hpar & H0 & Hp0).
  assert (Hel : element < nextNode (document s)).
  { apply Hlt. by eapply parentOf_is_node. }
  assert (Hpn : is_Some (nodes (document s) !! p)) by by eapply Hpar.
  split; [|split].
  - rewrite replaceChild_children; [|done|].
    + unfold DOM.childrenOf. rewrite Hold; [done|]. by apply Hlt.
    + rewrite Hold; [done|]. by apply Hlt.
  - apply replaceChild_parent_old; [done|]. rewrite Hid. lia.
  - apply replaceChild_parent_new; [done|]. rewrite Hid, Hnode. eauto.
Qed.

(** X20.  A fetch that is rejected, and a response whose body cannot be
    read, are recorded like a bad status: [fetchAndReplaceESI] completes,
    one failed fragment is appended whose error is the message of the
    rejection, the statistics in the storage are those in memory, and the
    error panel, a new element with the id of the fragment and the class
    [esi-error], is what the replacement is run with; for an anchor that is
    not the opening comment of a try block it stands where the anchor
    stood. *)
Theorem rejected_fetch_is_recorded_and_shown (B : Browser) element url oc tb
    (s : State) (p : NodeId) (message : string) :
  allocated (document s) →
  is_Some (DOM.documentElement (document s)) →
  DOM.parentOf (document s) element = Some p →
  match fetch B (clock s) (fetchOptions B (this s) url) with
  | Throw e => e = message
  | Normal response => ok response = true ∧ text response = Throw message
  end →
  let fragmentId := S (fragmentCounter (this s)) in
  let panel := error_panel B fragmentId ("esi-fragment-" +:+ pretty fragmentId)
                 url message (document s) in
  let r := fetchAndReplaceESI B element url oc tb s in
  r.1 = Normal tt ∧
  (∃ ts, stats (this r.2) =
     mkStats (S (total (stats (this s)))) (successful (stats (this s)))
       (S (failed (stats (this s))))
       (fragments (stats (this s)) ++
          [mkFragment fragmentId url (resolveUrl B url) false (Some message) ts])) ∧
  st_esiStats (storage r.2) = Some (stats (this r.2)) ∧
  processedElements (this r.2) = processedElements (this s) ∧
  panel.1 = nextNode (document s) ∧
  DOM.getAttribute panel.2 panel.1 "id" = Some ("esi-fragment-" +:+ pretty fragmentId) ∧
  DOM.getAttribute panel.2 panel.1 "class" = Some "esi-error" ∧
  document r.2 =
    document (replaceESIElement element panel.1 oc tb (failed_state s panel)).2 ∧
  (DOM.isComment (document s) element = false ∨ (tb = false ∧ oc = None) →
   DOM.childrenOf (document r.2) p =
     DOM.substitute element panel.1 (DOM.childrenOf (document s) p) ∧
   DOM.parentOf (document r.2) element = None ∧
   DOM.parentOf (document r.2) panel.1 = Some p).
Proof.
  intros Halloc Hroot Hp Hfetch. apply failure_is_shown; try done.
  unfold fetch_error. destruct (fetch B _ _) as [response|e]; [|by subst].
  destruct Hfetch as [-> ->]. done.
Qed.

Lemma rejected_fetch_is_recorded_and_shown_witness :
  (fetchAndReplaceESI Example.browser 5 "/down.html" None false
     (Example.state_of Example.element_try_page)).1 = Normal tt.
Proof.
  refine (proj1 (rejected_fetch_is_recorded_and_shown Example.browser 5 "/down.html"
    None false (Example.state_of Example.element_try_page) 4 "Failed to fetch"
    _ _ _ _)).
  - apply check_allocated_sound. by vm_compute.
  - vm_compute. eauto.
  - by vm_compute.
  - by vm_compute.
Defined.
(** * A fragment that is fetched *)

Lemma extractAndExecuteScripts_run B content container s :
  extractAndExecuteScripts B content container s =
    (Normal (content_without_scripts B (this s) content),
     mkState (this s) (document s) (storage s) (clock s)
       (timers_with_scripts B (this s) content container (timers s))).
Proof.
  unfold extractAndExecuteScripts, content_without_scripts, timers_with_scripts,
    bind, gets, setTimeout, modify, ret.
  cbn [fst snd]. destruct (negb _); [by destruct s|done].
Qed.

Lemma fetch_settled_run B element url oc tb fragmentId marker response content s0 :
  ok response = true → text response = Normal content →
  let box := fragment_container B fragmentId marker url
               (content_without_scripts B (this s0) content) (document s0) in
  let s1 := mkState (this s0) box.2 (storage s0) (clock s0)
              (timers_with_scripts B (this s0) content box.1.2 (timers s0)) in
  let r := replaceESIElement element box.1.1 oc tb s1 in
  fetch_settled B element url oc tb fragmentId marker response s0 =
    match r.1 with
    | Normal _ =>
        (Normal tt,
         set_this (set_stats (λ st,
           mkStats (total st) (S (successful st)) (failed st)
             (fragments st ++
                [mkFragment fragmentId url (resolveUrl B url) true None (clock r.2)])))
           r.2)
    | Throw e => (Throw e, r.2)
    end.
Proof.
  intros Hok Htext box s1 r.
  unfold fetch_settled. rewrite Hok. cbn [negb].
  unfold bind at 1, await at 1. rewrite Htext.
  unfold bind at 1, dom at 1. cbn [DOM.createElement DOM.create].
  do 5 (unfold bind at 1, dom_ at 1, modify at 1).
  unfold bind at 1, dom at 1. cbn [DOM.createComment DOM.create document set_document].
  unfold bind at 1, dom_ at 1, modify at 1.
  unfold bind at 1, dom at 1. cbn [DOM.createElement DOM.create document set_document].
  unfold bind at 1, dom_ at 1, modify at 1.
  unfold bind at 1. rewrite extractAndExecuteScripts_run.
  do 2 (unfold bind at 1, dom_ at 1, modify at 1).
  cbn [document set_document this storage clock timers].
  match goal with
  | |- bind (replaceESIElement _ ?c _ _) ?k ?st = _ =>
      change st with s1; change c with box.1.1
  end.
  unfold bind at 1. fold r. destruct r as [[[]|e] s2]; [|done].
  cbn [fst snd]. unfold bind, modify, Date_now, gets, push_fragment. cbn [fst snd].
  done.
Qed.


Lemma fetched_directive_run B element url oc tb s p response content :
  DOM.parentOf (document s) element = Some p →
  fetch B (clock s) (fetchOptions B (this s) url) = Normal response →
  ok response = true →
  text response = Normal content →
  let fragmentId := S (fragmentCounter (this s)) in
  let box := fragment_container B fragmentId ("esi-fragment-" +:+ pretty fragmentId) url
               (content_without_scripts B (this s) content) (document s) in
  let r := replaceESIElement element box.1.1 oc tb (fetched_state B s content box) in
  r.1 = Normal tt →
  fetchAndReplaceESI B element url oc tb s =
    (Normal tt, success_recorded B fragmentId url r.2).
Proof.
  intros Hp Hfetch Hok Htext fragmentId box r Hr.
  unfold fetchAndReplaceESI. unfold bind at 1, gets at 1. rewrite Hp.
  unfold bind at 1, modify at 1. unfold bind at 1, modify at 1.
  unfold bind at 1, gets at 1. cbn [this set_this fragmentCounter set_fragmentCounter].
  fold fragmentId.
  unfold bind at 1. unfold try_catch, fetch_and_replace.
  unfold bind at 1, gets at 1. unfold bind at 1, Date_now, gets at 1.
  unfold bind at 1, tick, modify at 1. unfold bind at 1, await at 1.
  cbn [this set_this clock document storage timers].
  change (fetchOptions B (set_fragmentCounter S (set_stats _ (this s))) url)
    with (fetchOptions B (this s) url).
  rewrite Hfetch.
  rewrite (fetch_settled_run B element url oc tb _ _ response content) by done.
  cbn [this document storage clock timers].
  match goal with
  | |- context [replaceESIElement element ?c oc tb ?st] =>
      change (replaceESIElement element c oc tb st) with r
  end.
  destruct r as [[[]|e] s2]; [|done].
  cbn [fst snd]. unfold saveStats, modify, success_recorded, saved. cbn. done.
Qed.

Lemma appendChild_fresh parent child d :
  DOM.parentOf d child = None → parent ≠ child →
  nodes (DOM.appendChild parent child d) !! parent =
    DOM.with_children (DOM.childrenOf d parent ++ [child]) <$> nodes d !! parent ∧
  nodes (DOM.appendChild parent child d) !! child =
    DOM.with_parent (Some parent) <$> nodes d !! child ∧
  (∀ k, k ≠ parent → k ≠ child →
        nodes (DOM.appendChild parent child d) !! k = nodes d !! k) ∧
  nextNode (DOM.appendChild parent child d) = nextNode d.
Proof.
  intros Hdet Hne. unfold DOM.appendChild. rewrite remove_detached by done.
  unfold DOM.set_parent, DOM.set_children. rewrite !nextNode_update.
  split; [|split; [|split; [|done]]].
  - rewrite nodes_update, decide_False by done. by rewrite nodes_update, decide_True.
  - rewrite nodes_update, decide_True by done. by rewrite nodes_update, decide_False.
  - intros k H1 H2. rewrite nodes_update, decide_False by done.
    by rewrite nodes_update, decide_False.
Qed.

Lemma fragment_container_spec B fragmentId marker url processed d :
  let r := fragment_container B fragmentId marker url processed d in
  let n := nextNode d in
  r.1.1 = n ∧ r.1.2 = S (S n) ∧
  (∀ k, k < n → nodes r.2 !! k = nodes d !! k) ∧
  n < nextNode r.2 ∧
  nodes r.2 !! n =
    Some (mkNode ELEMENT_NODE "div" EmptyString
      [("id", marker); ("style", "display: contents;"); ("data-esi-fragment", "true");
       ("data-esi-url", url); ("data-esi-resolved-url", resolveUrl B url)]
      None [S n; S (S n)]) ∧
  nodes r.2 !! S n =
    Some (mkNode COMMENT_NODE EmptyString
      ("ESI Fragment " +:+ pretty fragmentId +:+ ": " +:+ url) [] (Some n) []) ∧
  DOM.parentOf r.2 (S (S n)) = Some n ∧
  DOM.getAttribute r.2 (S (S n)) "style" = Some "display: contents;".
Proof.
  unfold fragment_container, DOM.createElement, DOM.createComment.
  cbn [DOM.create]. cbv zeta.
  set (n := nextNode d).
  set (d1 := DOM.setAttribute n "data-esi-resolved-url" _ _).
  assert (Hnext1 : nextNode d1 = S n) by done.
  assert (Hold1 : ∀ k, k < n → nodes d1 !! k = nodes d !! k).
  { intros k Hk. subst d1. rewrite !setAttribute_old by lia. simpl.
    apply lookup_insert_ne. lia. }
  assert (Hnew1 : nodes d1 !! n =
    Some (mkNode ELEMENT_NODE "div" EmptyString
      [("id", marker); ("style", "display: contents;"); ("data-esi-fragment", "true");
       ("data-esi-url", url); ("data-esi-resolved-url", resolveUrl B url)]
      None [])).
  { subst d1. rewrite !nodes_setAttribute. simpl. rewrite lookup_insert_eq. done. }
  rewrite Hnext1.
  set (d2 := mkDocument (<[S n := _]> (nodes d1)) (S (S n))).
  destruct (appendChild_fresh n (S n) d2) as (Ha1 & Ha2 & Ha3 & Ha4).
  { unfold DOM.parentOf, d2. simpl. by rewrite lookup_insert_eq. }
  { lia. }
  set (d3 := DOM.appendChild n (S n) d2) in *.
  rewrite Ha4. cbn [nextNode d2].
  set (d5 := DOM.setAttribute (S (S n)) "style" _ _).
  assert (Hnext5 : nextNode d5 = S (S (S n))) by done.
  assert (Hold5 : ∀ k, k ≠ S (S n) → nodes d5 !! k = nodes d3 !! k).
  { intros k Hk. subst d5. rewrite setAttribute_old by done. simpl.
    by apply lookup_insert_ne. }
  assert (Hnew5 : nodes d5 !! S (S n) =
    Some (mkNode ELEMENT_NODE "div" EmptyString [("style", "display: contents;")]
            None [])).
  { subst d5. rewrite nodes_setAttribute. simpl. by rewrite lookup_insert_eq. }
  destruct (replaceChildren_fresh (S (S n)) (parseHTML B processed) d5)
    as (Hr1 & Hr2 & Hr3).
  { unfold DOM.childrenOf. by rewrite Hnew5. }
  { lia. }
  set (d6 := DOM.replaceChildren (S (S n)) (parseHTML B processed) d5) in *.
  destruct (appendChild_fresh n (S (S n)) d6) as (Hb1 & Hb2 & Hb3 & Hb4).
  { unfold DOM.parentOf. rewrite Hr2, Hnew5. done. }
  { lia. }
  set (d7 := DOM.appendChild n (S (S n)) d6) in *.
  cbn [fst snd].
  assert (Hn2 : nodes d2 !! n = nodes d1 !! n).
  { unfold d2. simpl. apply lookup_insert_ne. lia. }
  assert (Hn3 : nodes d3 !! n =
    Some (mkNode ELEMENT_NODE "div" EmptyString
      [("id", marker); ("style", "display: contents;"); ("data-esi-fragment", "true");
       ("data-esi-url", url); ("data-esi-resolved-url", resolveUrl B url)]
      None [S n])).
  { rewrite Ha1. unfold DOM.childrenOf. rewrite Hn2, Hnew1. done. }
  assert (Hn6 : nodes d6 !! n = nodes d3 !! n).
  { rewrite Hr1 by lia. apply Hold5. lia. }
  split; [done|]. split; [done|]. split; [|split; [|split; [|split; [|split]]]].
  - intros k Hk. rewrite Hb3, Hr1, Hold5, Ha3 by lia.
    unfold d2. simpl. rewrite lookup_insert_ne by lia. by apply Hold1.
  - rewrite Hb4. lia.
  - rewrite Hb1. unfold DOM.childrenOf. rewrite Hn6, Hn3. done.
  - rewrite Hb3, Hr1, Hold5, Ha2 by lia. unfold d2. simpl.
    by rewrite lookup_insert_eq.
  - unfold DOM.parentOf. rewrite Hb2, Hr2, Hnew5. done.
  - unfold DOM.getAttribute. rewrite Hb2, Hr2, Hnew5. done.
Qed.


Lemma replaceChild_children_other d parent newChild oldChild x :
  DOM.parentOf d newChild = None → x ≠ parent →
  DOM.childrenOf (DOM.replaceChild parent newChild oldChild d) x = DOM.childrenOf d x.
Proof.
  intros Hdet Hx. unfold DOM.replaceChild. rewrite remove_detached by done.
  unfold DOM.set_parent. rewrite !childrenOf_update by done.
  by rewrite childrenOf_set_children, decide_False.
Qed.

Lemma replaceESIElement_keeps_time element replacement oc tb s :
  clock (replaceESIElement element replacement oc tb s).2 = clock s ∧
  timers (replaceESIElement element replacement oc tb s).2 = timers s.
Proof.
  by apply (steady_replaceESIElement
              (λ s1, clock s1 = clock s ∧ timers s1 = timers s)).
Qed.

(** X21.  A fragment that is fetched.  When the response has a status from
    200 to 299 and its body can be read, [fetchAndReplaceESI] completes; one
    fragment is appended, with the id that follows the counter, the source as
    written and as resolved, [success] set and no error; the total and the
    number of successes grow by one; the statistics in the storage are those
    in memory; the processed set is as it was; the scripts of the content,
    if they are to run, wait in one more timer for the content wrapper.  The
    replacement is a new [div] that carries the id of the fragment and the
    source, with a marker comment and the content wrapper as its children;
    for an anchor that is not the opening comment of a try block it stands
    where the anchor stood. *)
Theorem fetched_fragment_is_recorded_and_inserted (B : Browser) element url oc tb
    (s : State) (p : NodeId) (response : Response) (content : string) :
  allocated (document s) →
  is_Some (DOM.documentElement (document s)) →
  DOM.parentOf (document s) element = Some p →
  fetch B (clock s) (fetchOptions B (this s) url) = Normal response →
  ok response = true →
  text response = Normal content →
  let fragmentId := S (fragmentCounter (this s)) in
  let marker := "esi-fragment-" +:+ pretty fragmentId in
  let container := nextNode (document s) in
  let box := fragment_container B fragmentId marker url
               (content_without_scripts B (this s) content) (document s) in
  let r := fetchAndReplaceESI B element url oc tb s in
  r.1 = Normal tt ∧
  stats (this r.2) =
    mkStats (S (total (stats (this s)))) (S (successful (stats (this s))))
      (failed (stats (this s)))
      (fragments (stats (this s)) ++
         [mkFragment fragmentId url (resolveUrl B url) true None (S (clock s))]) ∧
  fragmentCounter (this r.2) = fragmentId ∧
  st_esiStats (storage r.2) = Some (stats (this r.2)) ∧
  processedElements (this r.2) = processedElements (this s) ∧
  clock r.2 = S (clock s) ∧
  timers r.2 = timers_with_scripts B (this s) content (S (S container)) (timers s) ∧
  box.1 = (container, S (S container)) ∧
  DOM.getAttribute box.2 container "id" = Some marker ∧
  DOM.getAttribute box.2 container "data-esi-url" = Some url ∧
  DOM.getAttribute box.2 container "data-esi-resolved-url" = Some (resolveUrl B url) ∧
  DOM.childrenOf box.2 container = [S container; S (S container)] ∧
  DOM.valueOf box.2 (S container) =
    "ESI Fragment " +:+ pretty fragmentId +:+ ": " +:+ url ∧
  document r.2 =
    document (replaceESIElement element container oc tb
                (fetched_state B s content box)).2 ∧
  (DOM.isComment (document s) element = false ∨ (tb = false ∧ oc = None) →
   DOM.childrenOf (document r.2) p =
     DOM.substitute element container (DOM.childrenOf (document s) p) ∧
   DOM.parentOf (document r.2) element = None ∧
   DOM.parentOf (document r.2) container = Some p ∧
   DOM.childrenOf (document r.2) container = [S container; S (S container)]).
Proof.
  intros Halloc Hroot Hp Hfetch Hok Htext fragmentId marker container box r.
  destruct (fragment_container_spec B fragmentId marker url
              (content_without_scripts B (this s) content) (document s))
    as (Hc & Hw & Hold & Hnext & Hnode & Hcomment & Hwp & _).
  fold box container in Hc, Hw, Hold, Hnext, Hnode, Hcomment, Hwp.
  assert (Hbox1 : box.1 = (container, S (S container))).
  { destruct box as [[c w] d1]. simpl in *. by subst. }
  assert (Hroot1 : is_Some (DOM.documentElement box.2)).
  { by apply (documentElement_preserved (document s)). }
  pose proof (replaceESIElement_completes element box.1.1 oc tb
                (fetched_state B s content box) Hroot1) as Hdone.
  pose proof (fetched_directive_run B element url oc tb s p response content
                Hp Hfetch Hok Htext Hdone) as Hrun.
  fold fragmentId marker box r in Hrun.
  destruct (frame_replaceESIElement element box.1.1 oc tb
              (fetched_state B s content box)) as [Hthis Hsto].
  destruct (replaceESIElement_keeps_time element box.1.1 oc tb
              (fetched_state B s content box)) as [Hclock Htimers].
  rewrite Hc in Hrun, Hthis, Hsto, Hclock, Htimers.
  rewrite Hrun. cbn [fst snd]. unfold success_recorded.
  cbn [this stats storage clock timers document set_stats saved st_esiStats
       fragmentCounter processedElements].
  rewrite Hthis, Hclock, Htimers. unfold fetched_state. rewrite Hw.
  cbn [this stats storage clock timers document set_stats set_fragmentCounter
       fragmentCounter processedElements total successful failed fragments fst snd].
  repeat (split; [done|]).
  split; [by unfold DOM.getAttribute; rewrite Hnode|].
  split; [by unfold DOM.getAttribute; rewrite Hnode|].
  split; [by unfold DOM.getAttribute; rewrite Hnode|].
  split; [by unfold DOM.childrenOf; rewrite Hnode|].
  split; [by unfold DOM.valueOf; rewrite Hcomment|].
  split; [done|].
  intros Hcase.
  destruct Halloc as (Hlt & Hpar & H0 & Hp0).
  assert (Hel : element < container).
  { apply Hlt. by eapply parentOf_is_node. }
  assert (Hpn : is_Some (nodes (document s) !! p)) by by eapply Hpar.
  assert (Hplt : p < container) by by apply Hlt.
  assert (Hdet : DOM.parentOf box.2 container = None).
  { unfold DOM.parentOf. by rewrite Hnode. }
  rewrite (replaceESIElement_in_place element container oc tb _ p).
  - cbn [snd document set_document].
    split; [|split; [|split]].
    + rewrite replaceChild_children; [|done|by rewrite Hold].
      unfold DOM.childrenOf. by rewrite Hold.
    + apply replaceChild_parent_old; [done|]. lia.
    + apply replaceChild_parent_new; [done|]. rewrite Hnode. eauto.
    + rewrite replaceChild_children_other; [|done|lia].
      unfold DOM.childrenOf. by rewrite Hnode.
  - cbn [document]. unfold DOM.parentOf. rewrite Hold by done. exact Hp.
  - cbn [document]. unfold DOM.isComment, DOM.typeOf. by rewrite Hold.
Qed.

Lemma fetched_fragment_is_recorded_and_inserted_witness :
  (fetchAndReplaceESI Example.browser 8 "/ok.html" None false
     (Example.state_of Example.element_try_page)).1 = Normal tt.
Proof.
  refine (proj1 (fetched_fragment_is_recorded_and_inserted Example.browser 8 "/ok.html"
    None false (Example.state_of Example.element_try_page) 2
    (mkResponse 200 "OK" (Normal "Hi")) "Hi" _ _ _ _ _ _)).
  - apply check_allocated_sound. by vm_compute.
  - vm_compute. eauto.
  - by vm_compute.
  - by vm_compute.
  - by vm_compute.
  - reflexivity.
Defined.
(** * A page without directives *)


